(** * Coordination core of the restaurant agent system

    A shallow embedding of the session memory store, the routing and task
    executor (lib/agentOrchestrator.ts), the chat endpoint's memory
    management action, the Twilio toolkit and the campaign workflow
    (app/api/agents/campaigns), followed by the properties proved of them.

    Conventions.
    - JavaScript numbers that carry a decimal literal (confidences) are
      rationals; counters are [nat]; priorities are [Z].
    - Text is [string]; [toLowerCase] folds the letters A-Z.
    - A JavaScript [Map] is an insertion-ordered association list with one
      entry per key.
    - Objects that the source shares by reference (the session memories, the
      Task objects) live in a store and are named by a key or an index.
    - The language model, the HTTP transport, the database and the messaging
      gateways are the environment: their answers are data of the world the
      code runs in, and every statement quantifies over them. *)

From Stdlib Require Import List String Ascii ZArith QArith Lia Bool Arith.
From Stdlib Require Import DecimalString.
Import ListNotations.

Local Open Scope string_scope.

(* ================================================================== *)
(** * JavaScript values and built-ins *)

Module Js.

(** ** Strings *)

(** Strings are sequences of bytes and messages are taken to be ASCII:
    [toLowerCase] folds the letters A to Z.  (JavaScript also folds the cased
    characters outside ASCII, which these strings do not represent.) *)
Definition lower_ascii (c : ascii) : ascii :=
  let n := nat_of_ascii c in
  if (65 <=? n)%nat && (n <=? 90)%nat then ascii_of_nat (n + 32) else c.

Fixpoint toLowerCase (s : string) : string :=
  match s with
  | EmptyString => EmptyString
  | String c s' => String (lower_ascii c) (toLowerCase s')
  end.

(** [includes s pat] is [s.includes(pat)]. *)
Fixpoint includes (s pat : string) : bool :=
  String.prefix pat s ||
  match s with
  | EmptyString => false
  | String _ s' => includes s' pat
  end.

(** [join sep l] is [l.join(sep)]. *)
Fixpoint join (sep : string) (l : list string) : string :=
  match l with
  | [] => ""
  | [x] => x
  | x :: rest => x ++ sep ++ join sep rest
  end.

(** [a || b] on optional strings: undefined and the empty string are falsy. *)
Definition str_truthy (o : option string) : bool :=
  match o with
  | Some s => negb (s =? "")
  | None => false
  end.

Definition str_or (o : option string) (d : string) : string :=
  match o with
  | Some s => if s =? "" then d else s
  | None => d
  end.

(** ** Values of type [any] *)

#[warnings="-register-all"]
Inductive Value : Type :=
| Undefined
| Null
| Boolean (b : bool)
| Number (q : Q)
| Str (s : string)
| Object (fields : list (string * Value)).

Definition truthy (v : Value) : bool :=
  match v with
  | Undefined | Null => false
  | Boolean b => b
  | Number q => negb (Qeq_bool q 0)
  | Str s => negb (s =? "")
  | Object _ => true
  end.

(** [a || b]. *)
Definition or (a b : Value) : Value := if truthy a then a else b.

Definition nullish (v : Value) : bool :=
  match v with
  | Undefined | Null => true
  | _ => false
  end.

Fixpoint field (name : string) (fs : list (string * Value)) : Value :=
  match fs with
  | [] => Undefined
  | (k, v) :: rest => if k =? name then v else field name rest
  end.

(** An exception is represented by its message. *)
Definition Exn := string.

(** [v.name]: reading a property of undefined or null throws a TypeError;
    a primitive has none of the properties the sources read. *)
Definition get (v : Value) (name : string) : Exn + Value :=
  match v with
  | Undefined => inl ("Cannot read properties of undefined (reading '" ++ name ++ "')")
  | Null => inl ("Cannot read properties of null (reading '" ++ name ++ "')")
  | Object fs => inr (field name fs)
  | _ => inr Undefined
  end.

(** ** Map: insertion-ordered, one entry per key *)

Section Map.
Variable V : Type.

Definition Map := list (string * V).

Fixpoint map_get (m : Map) (k : string) : option V :=
  match m with
  | [] => None
  | (k', v) :: rest => if k' =? k then Some v else map_get rest k
  end.

Definition map_has (m : Map) (k : string) : bool :=
  match map_get m k with
  | Some _ => true
  | None => false
  end.

(** [m.set(k, v)]: an existing key keeps its position. *)
Fixpoint map_set (m : Map) (k : string) (v : V) : Map :=
  match m with
  | [] => [(k, v)]
  | (k', v') :: rest =>
      if k' =? k then (k', v) :: rest else (k', v') :: map_set rest k v
  end.

Definition map_clear (m : Map) : Map := [].
End Map.

Arguments map_get {V} m k.
Arguments map_has {V} m k.
Arguments map_set {V} m k v.
Arguments map_clear {V} m.

(** ** Arrays *)

(** [l.slice(a, b)] for [0 <= a <= b]. *)
Definition slice {A : Type} (a b : nat) (l : list A) : list A :=
  firstn (b - a) (skipn a l).

(** [l.find(p)]. *)
Definition find {A : Type} (p : A -> bool) (l : list A) : option A :=
  List.find p l.

End Js.

(* ================================================================== *)
(** * lib/agentOrchestrator.ts: data model *)

Module Orchestrator.
Import Js.

Definition Date := nat.
Bind Scope nat_scope with Date.

(** Task objects are shared by reference between the array returned by the
    decomposition, the session's task map and the task queue: a [TaskRef]
    is the index of the object in the world's heap. *)
Definition TaskRef := nat.
Bind Scope nat_scope with TaskRef.

Record RequestContext := {
  restaurant_id : option string;
  phone : option string;
  email : option string;
  conversation_id : option string;
  previous_intent : option string;
  ctx_session_id : option string
}.

Record AgentRequest := {
  message : string;
  request_context : option RequestContext
}.

Inductive UpdateType := fact | preference | context_entry | goal.

Record MemoryUpdate := {
  upd_type : UpdateType;
  upd_key : string;
  upd_value : Value;
  upd_confidence : Q;
  upd_source : string;
  upd_timestamp : Date
}.

(** The JSON body of a handler's HTTP answer, as far as [executeAgent]
    reads it. *)
Record HandlerData := {
  success : bool;
  data_error : option string;
  data_response : option string;
  data_message : option string;
  data_confidence : option Q;
  data_intent : option string;
  data_next_action : option string;
  data_needs_human_handoff : option bool
}.

(** The [data] field of an [AgentResponse] ([any] in the source). *)
Inductive ResponseData :=
| DataError (error : string)
| DataPlan (goal_text : string) (total_tasks completed_tasks : nat)
| DataHandler (d : HandlerData).

Record AgentResponse := {
  response : string;
  agent_used : option string;
  confidence : Q;
  intent : option string;
  next_action : option string;
  needs_human_handoff : option bool;
  data : ResponseData;
  tasks : option (list TaskRef);
  memory_updates : option (list MemoryUpdate)
}.

Inductive TaskType := research | action | analysis | communication.

Inductive TaskStatus := pending | in_progress | completed | failed.

Record Task := {
  task_id : string;
  task_type : TaskType;
  description : string;
  status : TaskStatus;
  priority : Z;
  dependencies : option (list string);
  result : option AgentResponse;
  agent : option string;
  created_at : Date;
  updated_at : Date
}.

Inductive Role := user | assistant.

Record HistoryEntry := {
  role : Role;
  content : string;
  timestamp : Date
}.

Record FactEntry := {
  fact_value : Value;
  fact_confidence : Q;
  fact_source : string;
  fact_timestamp : Date
}.

Record PreferenceEntry := {
  pref_value : Value;
  pref_confidence : Q;
  pref_timestamp : Date
}.

Record Goal := {
  goal_description : Value;
  goal_status : Value;
  goal_priority : Value
}.

Record AgentMemory := {
  session_id : string;
  conversation_history : list HistoryEntry;
  facts : Map FactEntry;
  preferences : Map PreferenceEntry;
  context : Map Value;
  goals : list Goal;
  memory_tasks : Map TaskRef
}.

Record Routing := {
  routed_agent : string;
  routing_confidence : Q;
  reasoning : string
}.

(** ** The environment *)

Record TaskDescriptor := {
  td_id : string;
  td_type : TaskType;
  td_description : string;
  td_priority : Z;
  td_agent : option string;
  td_dependencies : option (list string)
}.

Record UpdateDescriptor := {
  ud_type : UpdateType;
  ud_key : string;
  ud_value : Value;
  ud_confidence : Q;
  ud_source : string
}.

(** What [JSON.parse] makes of a model reply, by the shape the prompts ask
    for.  [JsonOther] is any other JSON value except null: it has none of the
    properties read and is not an array. *)
Inductive LlmJson :=
| JsonNull
| JsonRouting (agent_name : string) (conf : Q) (why : string)
| JsonGoalAnalysis (is_complex : bool) (goal_text : string) (why : string)
| JsonTasks (descriptors : list TaskDescriptor)
| JsonUpdates (updates : list UpdateDescriptor)
| JsonOther.

(** A call of the model: it fails, or answers with a text, of which the
    model keeps what [JSON.parse] returns ([None]: not JSON). *)
Inductive LlmReply :=
| LlmError (msg : string)
| LlmContent (parsed : option LlmJson).

Record HttpResponse := {
  ok : bool;
  http_status : string;
  statusText : string;
  body : option HandlerData
}.

Inductive FetchReply :=
| FetchRejects (msg : string)
| FetchResponds (r : HttpResponse).

(** The orchestrator instance and its environment.  [llm] and [network] are
    the answers still to come, in call order; when none is left the call
    fails. *)
Record World := {
  memory : Map AgentMemory;
  taskQueue : list TaskRef;
  heap : list Task;
  llm : list LlmReply;
  network : list FetchReply;
  clock : Date
}.

Definition with_memory (f : Map AgentMemory -> Map AgentMemory) (w : World) : World :=
  {| memory := f (memory w); taskQueue := taskQueue w; heap := heap w;
     llm := llm w; network := network w; clock := clock w |}.

Definition with_taskQueue (f : list TaskRef -> list TaskRef) (w : World) : World :=
  {| memory := memory w; taskQueue := f (taskQueue w); heap := heap w;
     llm := llm w; network := network w; clock := clock w |}.

Definition with_heap (f : list Task -> list Task) (w : World) : World :=
  {| memory := memory w; taskQueue := taskQueue w; heap := f (heap w);
     llm := llm w; network := network w; clock := clock w |}.

(** Time passes while a call of the model or of the transport is awaited:
    the two updates below also advance the clock. *)
Definition with_llm (f : list LlmReply -> list LlmReply) (w : World) : World :=
  {| memory := memory w; taskQueue := taskQueue w; heap := heap w;
     llm := f (llm w); network := network w; clock := S (clock w) |}.

Definition with_network (f : list FetchReply -> list FetchReply) (w : World) : World :=
  {| memory := memory w; taskQueue := taskQueue w; heap := heap w;
     llm := llm w; network := f (network w); clock := S (clock w) |}.

(** ** Computations: state, exceptions, and a recursion bound *)

Inductive Completion (A : Type) : Type :=
| Normal (a : A)
| Throw (e : Exn)
| OutOfFuel.

Arguments Normal {A} a.
Arguments Throw {A} e.
Arguments OutOfFuel {A}.

Definition M (A : Type) : Type := World -> World * Completion A.

Definition ret {A : Type} (a : A) : M A := fun w => (w, Normal a).

Definition throw {A : Type} (e : Exn) : M A := fun w => (w, Throw e).

Definition bind {A B : Type} (m : M A) (k : A -> M B) : M B :=
  fun w =>
    match m w with
    | (w', Normal a) => k a w'
    | (w', Throw e) => (w', Throw e)
    | (w', OutOfFuel) => (w', OutOfFuel)
    end.

(** [try { body } catch (error) { handler }]: the state reached when the
    exception was thrown is the one the handler starts from. *)
Definition try_catch {A : Type} (body : M A) (handler : Exn -> M A) : M A :=
  fun w =>
    match body w with
    | (w', Throw e) => handler e w'
    | r => r
    end.

Definition gets {A : Type} (f : World -> A) : M A := fun w => (w, Normal (f w)).

Definition modify (f : World -> World) : M unit := fun w => (f w, Normal tt).

Definition lift {A : Type} (r : Exn + A) : M A :=
  match r with
  | inl e => throw e
  | inr a => ret a
  end.

Declare Scope js_scope.
Delimit Scope js_scope with js.
Notation "x <- c1 ;; c2" := (bind c1 (fun x => c2))
  (at level 61, c1 at next level, right associativity) : js_scope.
Notation "c1 ;; c2" := (bind c1 (fun _ => c2))
  (at level 61, right associativity) : js_scope.
Local Open Scope js_scope.

Fixpoint for_each {A : Type} (f : A -> M unit) (l : list A) : M unit :=
  match l with
  | [] => ret tt
  | x :: rest => f x ;; for_each f rest
  end.

Fixpoint map_M {A B : Type} (f : A -> M B) (l : list A) : M (list B) :=
  match l with
  | [] => ret []
  | x :: rest => y <- f x ;; ys <- map_M f rest ;; ret (y :: ys)
  end.

(** [new Date()]. *)
Definition new_Date : M Date := gets clock.


(* ================================================================== *)
(** * lib/agentOrchestrator.ts: the memory store *)

Definition empty_memory (sessionId : string) : AgentMemory :=
  {| session_id := sessionId; conversation_history := []; facts := [];
     preferences := []; context := []; goals := []; memory_tasks := [] |}.

Definition with_history (f : list HistoryEntry -> list HistoryEntry) (m : AgentMemory) : AgentMemory :=
  {| session_id := session_id m; conversation_history := f (conversation_history m);
     facts := facts m; preferences := preferences m; context := context m;
     goals := goals m; memory_tasks := memory_tasks m |}.

Definition with_facts (f : Map FactEntry -> Map FactEntry) (m : AgentMemory) : AgentMemory :=
  {| session_id := session_id m; conversation_history := conversation_history m;
     facts := f (facts m); preferences := preferences m; context := context m;
     goals := goals m; memory_tasks := memory_tasks m |}.

Definition with_preferences (f : Map PreferenceEntry -> Map PreferenceEntry) (m : AgentMemory) : AgentMemory :=
  {| session_id := session_id m; conversation_history := conversation_history m;
     facts := facts m; preferences := f (preferences m); context := context m;
     goals := goals m; memory_tasks := memory_tasks m |}.

Definition with_context (f : Map Value -> Map Value) (m : AgentMemory) : AgentMemory :=
  {| session_id := session_id m; conversation_history := conversation_history m;
     facts := facts m; preferences := preferences m; context := f (context m);
     goals := goals m; memory_tasks := memory_tasks m |}.

Definition with_goals (f : list Goal -> list Goal) (m : AgentMemory) : AgentMemory :=
  {| session_id := session_id m; conversation_history := conversation_history m;
     facts := facts m; preferences := preferences m; context := context m;
     goals := f (goals m); memory_tasks := memory_tasks m |}.

Definition with_memory_tasks (f : Map TaskRef -> Map TaskRef) (m : AgentMemory) : AgentMemory :=
  {| session_id := session_id m; conversation_history := conversation_history m;
     facts := facts m; preferences := preferences m; context := context m;
     goals := goals m; memory_tasks := f (memory_tasks m) |}.

(** [this.memory.get(sessionId)]. *)
Definition getMemory (w : World) (sessionId : string) : option AgentMemory :=
  map_get (memory w) sessionId.

(** A memory object is named by its session id: the store never replaces or
    removes an entry, so the name denotes one object for the whole run. *)
Definition deref (w : World) (ref : string) : AgentMemory :=
  match getMemory w ref with
  | Some m => m
  | None => empty_memory ref
  end.

(** In-place mutation of the memory object [ref]. *)
Definition mutate_memory (ref : string) (f : AgentMemory -> AgentMemory) : M unit :=
  modify (with_memory (fun store =>
    match map_get store ref with
    | Some m => map_set store ref (f m)
    | None => store
    end)).

Definition getOrCreateMemory (sessionId : string) : M string :=
  present <- gets (fun w => map_has (memory w) sessionId) ;;
  (if negb present
   then modify (with_memory (fun store => map_set store sessionId (empty_memory sessionId)))
   else ret tt) ;;
  ret sessionId.

(** The body of the loop of [updateMemory].  The goal case reads
    [update.value.description] before it pushes. *)
Definition apply_update (m : AgentMemory) (update : MemoryUpdate) : Exn + AgentMemory :=
  match upd_type update with
  | fact =>
      inr (with_facts (fun fs => map_set fs (upd_key update)
             {| fact_value := upd_value update;
                fact_confidence := upd_confidence update;
                fact_source := upd_source update;
                fact_timestamp := upd_timestamp update |}) m)
  | preference =>
      inr (with_preferences (fun ps => map_set ps (upd_key update)
             {| pref_value := upd_value update;
                pref_confidence := upd_confidence update;
                pref_timestamp := upd_timestamp update |}) m)
  | context_entry =>
      inr (with_context (fun c => map_set c (upd_key update) (upd_value update)) m)
  | goal =>
      match get (upd_value update) "description",
            get (upd_value update) "status",
            get (upd_value update) "priority" with
      | inr d, inr s, inr p =>
          inr (with_goals (fun gs => (gs ++
                 [{| goal_description := d;
                     goal_status := or s (Str "active");
                     goal_priority := or p (Number 1) |}])%list) m)
      | inl e, _, _ => inl e
      | _, inl e, _ => inl e
      | _, _, inl e => inl e
      end
  end.

(** The [for ... of] loop: the memory object as mutated so far, and the
    exception that ended the loop, if any. *)
Fixpoint updateMemory_loop (m : AgentMemory) (updates : list MemoryUpdate)
  : AgentMemory * option Exn :=
  match updates with
  | [] => (m, None)
  | update :: rest =>
      match apply_update m update with
      | inl e => (m, Some e)
      | inr m' => updateMemory_loop m' rest
      end
  end.

Definition updateMemory (sessionId : string) (updates : list MemoryUpdate) : M unit :=
  ref <- getOrCreateMemory sessionId ;;
  before <- gets (fun w => deref w ref) ;;
  let (after, thrown) := updateMemory_loop before updates in
  mutate_memory ref (fun _ => after) ;;
  match thrown with
  | None => ret tt
  | Some e => throw e
  end.

(* ================================================================== *)
(** * lib/agentOrchestrator.ts: inference calls *)

(** [await this.llm.invoke(prompt)]: the prompt text does not influence the
    environment's answer and is not represented. *)
Definition llm_invoke : M (option LlmJson) :=
  fun w =>
    match llm w with
    | [] => (w, Throw "inference gateway unavailable")
    | LlmError msg :: _ => (with_llm (@tl _) w, Throw msg)
    | LlmContent c :: _ => (with_llm (@tl _) w, Normal c)
    end.

(** [JSON.parse(response.content)]: the message of the SyntaxError depends
    on the text parsed; one text stands for all of them. *)
Definition JSON_parse (content : option LlmJson) : M LlmJson :=
  match content with
  | Some j => ret j
  | None => throw "Unexpected token in JSON"
  end.

Definition alloc_task (t : Task) : M TaskRef :=
  fun w => (with_heap (fun h => (h ++ [t])%list) w, Normal (List.length (heap w))).

Definition fallback_task (goal_text : string) (now : Date) : Task :=
  {| task_id := "fallback_task"; task_type := action; description := goal_text;
     status := pending; priority := 1; dependencies := None; result := None;
     agent := Some "postgres"; created_at := now; updated_at := now |}.

(** [{...task, status: 'pending', created_at: new Date(), updated_at: new Date()}]. *)
Definition task_of_descriptor (d : TaskDescriptor) (now : Date) : Task :=
  {| task_id := td_id d; task_type := td_type d; description := td_description d;
     status := pending; priority := td_priority d; dependencies := td_dependencies d;
     result := None; agent := td_agent d; created_at := now; updated_at := now |}.

Definition decomposeGoalIntoTasks (goal_text : string) (ctx : option RequestContext)
  : M (list TaskRef) :=
  try_catch
    (response <- llm_invoke ;;
     parsed <- JSON_parse response ;;
     match parsed with
     | JsonTasks descriptors =>
         map_M (fun d => now <- new_Date ;; alloc_task (task_of_descriptor d now)) descriptors
     | JsonNull => throw "Cannot read properties of null (reading 'map')"
     | _ => throw "tasks.map is not a function"
     end)
    (fun error =>
       now <- new_Date ;;
       t <- alloc_task (fallback_task goal_text now) ;;
       ret [t]).

Definition update_of_descriptor (d : UpdateDescriptor) (now : Date) : MemoryUpdate :=
  {| upd_type := ud_type d; upd_key := ud_key d; upd_value := ud_value d;
     upd_confidence := ud_confidence d; upd_source := ud_source d;
     upd_timestamp := now |}.

Definition extractMemoryUpdates (userMessage agentResponse : string)
  (ctx : option RequestContext) : M (list MemoryUpdate) :=
  try_catch
    (response <- llm_invoke ;;
     parsed <- JSON_parse response ;;
     match parsed with
     | JsonUpdates updates =>
         map_M (fun d => now <- new_Date ;; ret (update_of_descriptor d now)) updates
     | JsonNull => throw "Cannot read properties of null (reading 'updates')"
     | _ => throw "Cannot read properties of undefined (reading 'map')"
     end)
    (fun error => ret []).

(* ================================================================== *)
(** * lib/agentOrchestrator.ts: routing *)

Definition validAgents : list string :=
  ["orchestrator"; "voice"; "crm"; "campaigns"; "postgres"; "tools"].

Definition fallbackRouting (msg : string) : Routing :=
  let messageLower := toLowerCase msg in
  if includes messageLower "campaign" &&
     (includes messageLower "create" || includes messageLower "setup")
  then {| routed_agent := "orchestrator"; routing_confidence := 0.7;
          reasoning := "Complex campaign setup requires orchestration" |}
  else if includes messageLower "call" || includes messageLower "voice"
  then {| routed_agent := "voice"; routing_confidence := 0.7;
          reasoning := "Voice-related keyword routing" |}
  else if includes messageLower "customer" || includes messageLower "loyalty"
  then {| routed_agent := "crm"; routing_confidence := 0.7;
          reasoning := "CRM-related keyword routing" |}
  else if includes messageLower "email" || includes messageLower "marketing"
  then {| routed_agent := "campaigns"; routing_confidence := 0.7;
          reasoning := "Campaign-related keyword routing" |}
  else {| routed_agent := "postgres"; routing_confidence := 0.5;
          reasoning := "Default restaurant operations routing" |}.

(** [context?.session_id || context?.conversation_id || 'default']. *)
Definition session_of (request : AgentRequest) : string :=
  match request_context request with
  | Some c =>
      if str_truthy (ctx_session_id c)
      then str_or (ctx_session_id c) "default"
      else str_or (conversation_id c) "default"
  | None => "default"
  end.

Definition default_routing : Routing :=
  {| routed_agent := "postgres"; routing_confidence := 0.6;
     reasoning := "Defaulted to restaurant operations agent" |}.

Definition routeToAgent (request : AgentRequest) : M Routing :=
  let sessionId := session_of request in
  _ <- getOrCreateMemory sessionId ;;
  try_catch
    (response <- llm_invoke ;;
     parsed <- JSON_parse response ;;
     match parsed with
     | JsonNull => throw "Cannot read properties of null (reading 'agent')"
     | JsonRouting a c r =>
         if negb (existsb (String.eqb a) validAgents)
         then ret default_routing
         else ret {| routed_agent := a; routing_confidence := c; reasoning := r |}
     | _ => ret default_routing
     end)
    (fun error => ret (fallbackRouting (message request))).


(* ================================================================== *)
(** * lib/agentOrchestrator.ts: task execution and dispatch *)

Definition status_eqb (a b : TaskStatus) : bool :=
  match a, b with
  | pending, pending | in_progress, in_progress
  | completed, completed | failed, failed => true
  | _, _ => false
  end.

Definition get_task (w : World) (t : TaskRef) : option Task := nth_error (heap w) t.

Fixpoint update_nth {A : Type} (n : nat) (f : A -> A) (l : list A) : list A :=
  match l, n with
  | [], _ => []
  | x :: rest, O => f x :: rest
  | x :: rest, S n' => x :: update_nth n' f rest
  end.

(** Assignment to a field of the Task object [t]. *)
Definition mutate_task (t : TaskRef) (f : Task -> Task) : M unit :=
  modify (with_heap (update_nth t f)).

Definition set_status (s : TaskStatus) (t : Task) : Task :=
  {| task_id := task_id t; task_type := task_type t; description := description t;
     status := s; priority := priority t; dependencies := dependencies t;
     result := result t; agent := agent t; created_at := created_at t;
     updated_at := updated_at t |}.

Definition set_result (r : AgentResponse) (t : Task) : Task :=
  {| task_id := task_id t; task_type := task_type t; description := description t;
     status := status t; priority := priority t; dependencies := dependencies t;
     result := Some r; agent := agent t; created_at := created_at t;
     updated_at := updated_at t |}.

(** [!t.dependencies || t.dependencies.length === 0]. *)
Definition no_dependencies (t : Task) : bool :=
  match dependencies t with
  | None => true
  | Some [] => true
  | Some (_ :: _) => false
  end.

(** [tasks.find(t => !t.dependencies || t.dependencies.length === 0)], on
    references into the heap [h]. *)
Definition find_first_task (h : list Task) (tasks : list TaskRef) : option TaskRef :=
  find (fun t => match nth_error h t with
                 | Some task => no_dependencies task
                 | None => false
                 end) tasks.

Definition task_field {A : Type} (f : Task -> A) (d : A) (w : World) (t : TaskRef) : A :=
  match get_task w t with
  | Some task => f task
  | None => d
  end.

Definition nl : string := String (ascii_of_nat 10) EmptyString.

Definition orchestrator_error_response (error : Exn) : AgentResponse :=
  {| response := "I understand you have a complex request. Let me break it down and handle it step by step.";
     agent_used := Some "orchestrator"; confidence := 0.5; intent := None;
     next_action := None; needs_human_handoff := None; data := DataError error;
     tasks := None; memory_updates := None |}.

Definition degraded_response (agent_name : option string) (error : Exn) : AgentResponse :=
  {| response := "I apologize, but I'm having trouble processing your request right now. Please try again or contact us directly.";
     agent_used := agent_name; confidence := 0.1; intent := None;
     next_action := None; needs_human_handoff := Some true; data := DataError error;
     tasks := None; memory_updates := None |}.

Section Orchestrate.

(** The dispatcher that [executeOrchestrator] calls back into. *)
Variable executeAgent : option string -> AgentRequest -> M AgentResponse.

(** The body of [if (firstTask) { ... }]. *)
Definition executeTask (firstTask : TaskRef) (request : AgentRequest) : M string :=
  mutate_task firstTask (set_status in_progress) ;;
  taskRequest <- gets (fun w =>
    {| message := task_field description "" w firstTask;
       request_context := request_context request |}) ;;
  assigned <- gets (fun w => task_field agent None w firstTask) ;;
  r <- executeAgent assigned taskRequest ;;
  mutate_task firstTask (set_status completed) ;;
  mutate_task firstTask (set_result r) ;;
  ret (response r).

Definition executeOrchestrator (request : AgentRequest) : M AgentResponse :=
  let sessionId := session_of request in
  mem <- getOrCreateMemory sessionId ;;
  try_catch
    (goalResponse <- llm_invoke ;;
     goalAnalysis <- JSON_parse goalResponse ;;
     complex_goal <-
       match goalAnalysis with
       | JsonNull => throw "Cannot read properties of null (reading 'is_complex')"
       | JsonGoalAnalysis true g _ => ret (Some g)
       | _ => ret None
       end ;;
     match complex_goal with
     | None =>
         routing <- routeToAgent request ;;
         executeAgent (Some (routed_agent routing)) request
     | Some g =>
         task_list <- decomposeGoalIntoTasks g (request_context request) ;;
         for_each (fun t =>
             key <- gets (fun w => task_field task_id "" w t) ;;
             mutate_memory mem (with_memory_tasks (fun ts => map_set ts key t)) ;;
             modify (with_taskQueue (fun q => (q ++ [t])%list)))
           task_list ;;
         mutate_memory mem (with_goals (fun gs => (gs ++
           [{| goal_description := Str g; goal_status := Str "active";
               goal_priority := Number 1 |}])%list)) ;;
         firstTask <- gets (fun w => find_first_task (heap w) task_list) ;;
         executionResult <-
           match firstTask with
           | Some t => executeTask t request
           | None => ret ""
           end ;;
         next_steps <- gets (fun w =>
           map (task_field description "" w) (slice 1 3 task_list)) ;;
         done <- gets (fun w =>
           List.length (filter (fun t => status_eqb (task_field status pending w t) completed)
                          task_list)) ;;
         ret {| response := "I've created a plan to " ++ toLowerCase g ++ ". "
                            ++ executionResult ++ nl ++ nl ++ "Next steps: "
                            ++ join ", " next_steps;
                agent_used := Some "orchestrator"; confidence := 0.9;
                intent := None; next_action := None; needs_human_handoff := None;
                data := DataPlan g (List.length task_list) done;
                tasks := Some task_list; memory_updates := None |}
     end)
    (fun error => ret (orchestrator_error_response error)).

End Orchestrate.

(** [await fetch(endpoint, ...)]: the request body (built from the request
    and a snapshot of the memory by total string tests) does not influence
    the environment's answer and is not represented. *)
Definition fetch (endpoint : string) : M HttpResponse :=
  fun w =>
    match network w with
    | [] => (w, Throw "fetch failed")
    | FetchRejects msg :: _ => (with_network (@tl _) w, Throw msg)
    | FetchResponds r :: _ => (with_network (@tl _) w, Normal r)
    end.

(** [await response.json()]. *)
Definition response_json (r : HttpResponse) : M HandlerData :=
  match body r with
  | Some d => ret d
  | None => throw "Unexpected end of JSON input"
  end.

Definition agent_text (a : option string) : string :=
  match a with
  | Some s => s
  | None => "undefined"
  end.

(** The [switch (agent)] that picks the endpoint. *)
Definition endpoint_of (a : option string) : M string :=
  match a with
  | Some "voice" => ret "/api/agents/voice"
  | Some "crm" => ret "/api/agents/crm"
  | Some "campaigns" => ret "/api/agents/campaigns"
  | Some "postgres" => ret "/api/agents/postgres"
  | Some "tools" => ret "/api/agents/tools"
  | _ => throw ("Unknown agent type: " ++ agent_text a)
  end.

Definition is_orchestrator (a : option string) : bool :=
  match a with
  | Some s => s =? "orchestrator"
  | None => false
  end.

(** The [try] block of [executeAgent], for a handler other than the
    orchestrator; [mem] is the session's memory object. *)
Definition dispatch (a : option string) (request : AgentRequest) (sessionId mem : string)
  : M AgentResponse :=
  endpoint <- endpoint_of a ;;
  http <- fetch endpoint ;;
  (if negb (ok http)
   then throw ("Agent " ++ agent_text a ++ " returned " ++ http_status http
               ++ ": " ++ statusText http)
   else ret tt) ;;
  d <- response_json http ;;
  (if negb (success d)
   then throw (str_or (data_error d)
                 ("Agent " ++ agent_text a ++ " returned unsuccessful response"))
   else ret tt) ;;
  let agentResponse :=
    str_or (data_response d)
      (str_or (data_message d) "Operation completed successfully") in
  now <- new_Date ;;
  mutate_memory mem (with_history (fun h => (h ++
    [{| role := assistant; content := agentResponse; timestamp := now |}])%list)) ;;
  memoryUpdates <- extractMemoryUpdates (message request) agentResponse
                     (request_context request) ;;
  updateMemory sessionId memoryUpdates ;;
  ret {| response := agentResponse;
         agent_used := a;
         confidence := match data_confidence d with
                       | Some c => if Qeq_bool c 0 then 0.8 else c
                       | None => 0.8
                       end;
         intent := data_intent d;
         next_action := data_next_action d;
         needs_human_handoff :=
           Some (match data_needs_human_handoff d with
                 | Some b => b
                 | None => false
                 end);
         data := DataHandler d;
         tasks := None;
         memory_updates := Some memoryUpdates |}.

(** [executeAgent] and [executeOrchestrator] call each other; [fuel] bounds
    the depth of that recursion. *)
Fixpoint executeAgent (fuel : nat) (a : option string) (request : AgentRequest)
  : M AgentResponse :=
  match fuel with
  | O => fun w => (w, OutOfFuel)
  | S fuel' =>
      let sessionId := session_of request in
      mem <- getOrCreateMemory sessionId ;;
      now <- new_Date ;;
      mutate_memory mem (with_history (fun h => (h ++
        [{| role := user; content := message request; timestamp := now |}])%list)) ;;
      if is_orchestrator a
      then executeOrchestrator (executeAgent fuel') request
      else try_catch (dispatch a request sessionId mem)
                     (fun error => ret (degraded_response a error))
  end.

(** Each nested [executeOrchestrator] either finds no answer left and
    returns, or consumes one: the depth of the recursion is bounded by the
    number of answers left. *)
Definition enough_fuel (w : World) : nat := S (List.length (llm w)).

End Orchestrator.

(* ================================================================== *)
(** * app/api/chat: the memory management action *)

Module ChatRoute.
Import Js Orchestrator.
Local Open Scope js_scope.

(** The [case 'clear_memory':] branch of [PATCH]; it contains no [await]. *)
Definition clear_memory (session_id : string) : M unit :=
  clearedMemory <- gets (fun w => getMemory w session_id) ;;
  match clearedMemory with
  | Some _ =>
      mutate_memory session_id (with_history (fun _ => [])) ;;
      mutate_memory session_id (with_facts map_clear) ;;
      mutate_memory session_id (with_preferences map_clear) ;;
      mutate_memory session_id (with_context map_clear) ;;
      mutate_memory session_id (with_goals (fun _ => []))
  | None => ret tt
  end.

End ChatRoute.

(* ================================================================== *)
(** * lib/toolkits/twilio.ts *)

Module Twilio.
Import Js.

(** The outcome of [client.messages.create]. *)
Inductive ClientReply :=
| MessageCreated (sid status : string)
| ClientRejects (msg : string).

Record SMSResult := {
  success : bool;
  messageId : option string;
  sms_status : option string;
  error : option string
}.

(** [sendSMS] catches the client's rejection and reports it in its return
    value: it never throws. *)
Definition sendSMS (to : string) (reply : ClientReply) : SMSResult :=
  match reply with
  | MessageCreated sid st =>
      {| success := true; messageId := Some sid; sms_status := Some st; error := None |}
  | ClientRejects msg =>
      {| success := false; messageId := None; sms_status := None; error := Some msg |}
  end.

End Twilio.

(* ================================================================== *)
(** * app/api/agents/campaigns: data model *)

Module Campaigns.
Import Js.

Inductive CampaignType := email | sms | multi_channel.

Inductive ApprovalStatus := approval_pending | approved | rejected.

Record Customer := {
  id : string;
  customer_name : option string;
  customer_email : option string;
  customer_phone : option string;
  opt_in_email : bool;
  opt_in_sms : bool;
  loyalty_points : Z;
  visit_count : Z
}.

Record Variant := {
  variant_id : string;
  subject : option string;
  content : string;
  target_segment : string;
  performance_score : option Q
}.

Record ExecutionResults := {
  sent : nat;
  delivered : nat;
  opened : option nat;
  clicked : option nat;
  failed : nat;
  errors : list string
}.

Record SegmentCounts := {
  count_total_customers : nat;
  count_sms_subscribers : nat;
  count_email_subscribers : nat;
  count_loyal_customers : nat;
  count_high_value_customers : nat;
  count_recent_customers : nat
}.

(** What [JSON.parse] makes of the model's insight reply: null, or an
    object of which the code later reads [recommended_segments]. *)
Inductive Preferences :=
| PreferencesNull
| PreferencesObject (recommended_segments : option (list string)).

Record CustomerAnalysis := {
  total_customers : nat;
  segments : option SegmentCounts;
  preferences : Preferences
}.

Record CampaignData := {
  type : option CampaignType;
  target_segments : option (list string)
}.

Record CampaignState := {
  campaign_id : string;
  restaurant_id : string;
  goal : string;
  current_step : string;
  steps_completed : list string;
  steps_remaining : list string;
  campaign_data : CampaignData;
  customer_analysis : option CustomerAnalysis;
  content_variants : option (list Variant);
  execution_results : option ExecutionResults;
  memory_context : option Value;
  requires_approval : option bool;
  approval_status : option ApprovalStatus;
  next_actions : option (list string)
}.

(** ** The environment *)

(** A database call returns rows or throws.  The call is the imported
    [executeQuery], taken as any function of its type; the toolkit's own
    [executeQuery] reports a failure by return value and never throws, which
    is the case [DbRows None]. *)
Inductive DbReply (A : Type) : Type :=
| DbThrows (msg : string)
| DbRows (rows : option A).

Arguments DbThrows {A} msg.
Arguments DbRows {A} rows.

Inductive LlmReply (A : Type) : Type :=
| LlmError (msg : string)
| LlmUnparsable
| LlmJson (parsed : A).

Arguments LlmError {A} msg.
Arguments LlmUnparsable {A}.
Arguments LlmJson {A} parsed.

Record VariantJson := {
  json_variant_id : option string;
  json_subject : option string;
  json_content : string;
  json_target_segment : string
}.

Inductive ContentJson :=
| ContentNull
| ContentVariants (variants : list VariantJson)
| ContentOther.

Inductive MonitorJson :=
| MonitorNull
| MonitorObject (next_campaign_recommendations : option (list string)).

(** The outcome of the e-mail branch of the customer loop is taken from the
    environment: [sendEmail] returns a success flag, or an exception is
    raised in the branch.  This is more than the repository's e-mail toolkit
    does (its [sendEmail] catches what its client throws and never rejects);
    there an exception in this branch can only come from
    [personalizeContent]. *)
Inductive EmailReply :=
| EmailReturns (success : bool)
| EmailThrows (msg : string).

(** The answers of the collaborators.  Within one campaign run every call
    site is reached at most once per variant position [i] and customer
    position [j], so an answer indexed by position is as general as an
    answer indexed by time. *)
Record Env := {
  new_campaign_id : string;
  insert_campaign : option Exn;
  query_segment_counts : DbReply SegmentCounts;
  llm_preferences : LlmReply Preferences;
  llm_content : LlmReply ContentJson;
  query_customers : nat -> string -> list string -> DbReply (list Customer);
  sendEmail : nat -> nat -> string -> string -> EmailReply;
  twilio_client : nat -> nat -> Twilio.ClientReply;
  insert_interaction : nat -> nat -> option Exn;
  update_campaign : ExecutionResults -> option Exn;
  llm_monitor : LlmReply MonitorJson
}.

Definition with_step (step : string) (s : CampaignState) : CampaignState :=
  {| campaign_id := campaign_id s; restaurant_id := restaurant_id s; goal := goal s;
     current_step := step; steps_completed := steps_completed s;
     steps_remaining := steps_remaining s; campaign_data := campaign_data s;
     customer_analysis := customer_analysis s; content_variants := content_variants s;
     execution_results := execution_results s; memory_context := memory_context s;
     requires_approval := requires_approval s; approval_status := approval_status s;
     next_actions := next_actions s |}.

Definition with_completed (step : string) (s : CampaignState) : CampaignState :=
  {| campaign_id := campaign_id s; restaurant_id := restaurant_id s; goal := goal s;
     current_step := current_step s;
     steps_completed := (steps_completed s ++ [step])%list;
     steps_remaining := steps_remaining s; campaign_data := campaign_data s;
     customer_analysis := customer_analysis s; content_variants := content_variants s;
     execution_results := execution_results s; memory_context := memory_context s;
     requires_approval := requires_approval s; approval_status := approval_status s;
     next_actions := next_actions s |}.

Definition with_analysis (a : option CustomerAnalysis) (s : CampaignState) : CampaignState :=
  {| campaign_id := campaign_id s; restaurant_id := restaurant_id s; goal := goal s;
     current_step := current_step s; steps_completed := steps_completed s;
     steps_remaining := steps_remaining s; campaign_data := campaign_data s;
     customer_analysis := a; content_variants := content_variants s;
     execution_results := execution_results s; memory_context := memory_context s;
     requires_approval := requires_approval s; approval_status := approval_status s;
     next_actions := next_actions s |}.

Definition with_variants (v : option (list Variant)) (s : CampaignState) : CampaignState :=
  {| campaign_id := campaign_id s; restaurant_id := restaurant_id s; goal := goal s;
     current_step := current_step s; steps_completed := steps_completed s;
     steps_remaining := steps_remaining s; campaign_data := campaign_data s;
     customer_analysis := customer_analysis s; content_variants := v;
     execution_results := execution_results s; memory_context := memory_context s;
     requires_approval := requires_approval s; approval_status := approval_status s;
     next_actions := next_actions s |}.

Definition with_results (r : option ExecutionResults) (s : CampaignState) : CampaignState :=
  {| campaign_id := campaign_id s; restaurant_id := restaurant_id s; goal := goal s;
     current_step := current_step s; steps_completed := steps_completed s;
     steps_remaining := steps_remaining s; campaign_data := campaign_data s;
     customer_analysis := customer_analysis s; content_variants := content_variants s;
     execution_results := r; memory_context := memory_context s;
     requires_approval := requires_approval s; approval_status := approval_status s;
     next_actions := next_actions s |}.

Definition with_next_actions (a : option (list string)) (s : CampaignState) : CampaignState :=
  {| campaign_id := campaign_id s; restaurant_id := restaurant_id s; goal := goal s;
     current_step := current_step s; steps_completed := steps_completed s;
     steps_remaining := steps_remaining s; campaign_data := campaign_data s;
     customer_analysis := customer_analysis s; content_variants := content_variants s;
     execution_results := execution_results s; memory_context := memory_context s;
     requires_approval := requires_approval s; approval_status := approval_status s;
     next_actions := a |}.


(* ================================================================== *)
(** * app/api/agents/campaigns: the workflow steps *)

Definition nat_to_string (n : nat) : string := NilEmpty.string_of_uint (Nat.to_uint n).

Definition analyzeCustomerBase (env : Env) (state : CampaignState) : CampaignState :=
  match query_segment_counts env with
  | DbThrows _ => with_step "analysis_failed" state
  | DbRows first_row =>
      match llm_preferences env with
      | LlmJson prefs =>
          with_analysis
            (Some {| total_customers := match first_row with
                                        | Some row => count_total_customers row
                                        | None => 0
                                        end;
                     segments := first_row;
                     preferences := prefs |})
            (with_completed "analyze_customers" (with_step "analysis_complete" state))
      | _ => with_step "analysis_failed" state
      end
  end.

Fixpoint number_variants (index : nat) (vs : list VariantJson) : list Variant :=
  match vs with
  | [] => []
  | v :: rest =>
      {| variant_id := str_or (json_variant_id v) ("variant_" ++ nat_to_string (index + 1));
         subject := json_subject v;
         content := json_content v;
         target_segment := json_target_segment v;
         performance_score := None |} :: number_variants (S index) rest
  end.

Definition generateCampaignContent (env : Env) (state : CampaignState)
  : Exn + CampaignState :=
  match customer_analysis state with
  | None => inl "Customer analysis required before content generation"
  | Some analysis =>
      match preferences analysis with
      | PreferencesNull =>
          inl "Cannot read properties of null (reading 'recommended_segments')"
      | PreferencesObject _ =>
          match llm_content env with
          | LlmJson (ContentVariants vs) =>
              inr (with_variants (Some (number_variants 0 vs))
                     (with_completed "generate_content"
                        (with_step "content_generated" state)))
          | _ => inr (with_step "content_generation_failed" state)
          end
      end
  end.

Definition buildSegmentQuery (segment restaurant : string) : string * list string :=
  let query := "SELECT * FROM restaurant_customers WHERE restaurant_id = $1" in
  let query :=
    if segment =? "loyal_customers" then query ++ " AND visit_count > 5"
    else if segment =? "high_value_customers" then query ++ " AND total_spent > 100"
    else if segment =? "recent_customers"
    then query ++ " AND last_interaction > NOW() - INTERVAL '30 days'"
    else if segment =? "sms_subscribers"
    then query ++ " AND opt_in_sms = true AND customer_phone IS NOT NULL"
    else if segment =? "email_subscribers"
    then query ++ " AND opt_in_email = true AND customer_email IS NOT NULL"
    else query in
  (query, [restaurant]).

Definition type_is (t : CampaignType) (state : CampaignState) : bool :=
  match type (campaign_data state), t with
  | Some email, email | Some sms, sms | Some multi_channel, multi_channel => true
  | _, _ => false
  end.

(** [results.sent++; results.delivered++]. *)
Definition count_sent (r : ExecutionResults) : ExecutionResults :=
  {| sent := S (sent r); delivered := S (delivered r); opened := opened r;
     clicked := clicked r; failed := failed r; errors := errors r |}.

(** [results.failed++; results.errors.push(text)]. *)
Definition count_failed (text : string) (r : ExecutionResults) : ExecutionResults :=
  {| sent := sent r; delivered := delivered r; opened := opened r;
     clicked := clicked r; failed := S (failed r);
     errors := (errors r ++ [text])%list |}.

(** [{...results, errors: [...results.errors, text]}]. *)
Definition add_error (text : string) (r : ExecutionResults) : ExecutionResults :=
  {| sent := sent r; delivered := delivered r; opened := opened r;
     clicked := clicked r; failed := failed r;
     errors := (errors r ++ [text])%list |}.

(** The test that guards the e-mail send, and the one that guards the SMS
    send when the first fails. *)
Definition email_branch (state : CampaignState) (customer : Customer) : bool :=
  type_is email state && str_truthy (customer_email customer) && opt_in_email customer.

Definition sms_branch (state : CampaignState) (customer : Customer) : bool :=
  type_is sms state && str_truthy (customer_phone customer) && opt_in_sms customer.

(** The inner [try] block for the customer at position [j] of the segment of
    the variant at position [i]: the counters as it leaves them, and the
    exception that ended it, if any.  The return value of the send is
    discarded, as in the source. *)
Definition try_send (env : Env) (state : CampaignState) (i j : nat)
  (variant : Variant) (customer : Customer) (results : ExecutionResults)
  : ExecutionResults * option Exn :=
  let after_send :=
    if email_branch state customer then
      match sendEmail env i j (str_or (customer_email customer) "")
              (str_or (subject variant) "Special Offer from Lullabar") with
      | EmailThrows msg => (results, Some msg)
      | EmailReturns _ => (count_sent results, None)
      end
    else if sms_branch state customer then
      let _ := Twilio.sendSMS (str_or (customer_phone customer) "") (twilio_client env i j) in
      (count_sent results, None)
    else (results, None) in
  match after_send with
  | (r, Some e) => (r, Some e)
  | (r, None) => (r, insert_interaction env i j)
  end.

(** One iteration of the customer loop: the [try] block and its [catch]. *)
Definition process_customer (env : Env) (state : CampaignState) (i j : nat)
  (variant : Variant) (customer : Customer) (results : ExecutionResults)
  : ExecutionResults :=
  match try_send env state i j variant customer results with
  | (r, None) => r
  | (r, Some e) => count_failed ("Customer " ++ id customer ++ ": " ++ e) r
  end.

Fixpoint customers_loop (env : Env) (state : CampaignState) (i j : nat)
  (variant : Variant) (customers : list Customer) (results : ExecutionResults)
  : ExecutionResults :=
  match customers with
  | [] => results
  | customer :: rest =>
      customers_loop env state i (S j) variant rest
        (process_customer env state i j variant customer results)
  end.

(** [customerResult.data || []] for the variant at position [i]. *)
Definition resolve_segment (env : Env) (state : CampaignState) (i : nat) (variant : Variant)
  : Exn + list Customer :=
  let (query, params) := buildSegmentQuery (target_segment variant) (restaurant_id state) in
  match query_customers env i query params with
  | DbThrows msg => inl msg
  | DbRows (Some customers) => inr customers
  | DbRows None => inr []
  end.

(** The loop over the variants: the counters, and the exception that left
    the loop, if any. *)
Fixpoint variants_loop (env : Env) (state : CampaignState) (i : nat)
  (variants : list Variant) (results : ExecutionResults)
  : ExecutionResults * option Exn :=
  match variants with
  | [] => (results, None)
  | variant :: rest =>
      match resolve_segment env state i variant with
      | inl e => (results, Some e)
      | inr customers =>
          variants_loop env state (S i) rest
            (customers_loop env state i 0 variant customers results)
      end
  end.

Definition no_results : ExecutionResults :=
  {| sent := 0; delivered := 0; opened := None; clicked := None; failed := 0; errors := [] |}.

(** The counters [executeCampaign] ends with, before it builds its state. *)
Definition campaign_results (env : Env) (state : CampaignState) (variants : list Variant)
  : ExecutionResults * option Exn :=
  match variants_loop env state 0 variants no_results with
  | (results, Some e) => (results, Some e)
  | (results, None) => (results, update_campaign env results)
  end.

Definition executeCampaign (env : Env) (state : CampaignState) : Exn + CampaignState :=
  match content_variants state with
  | None | Some [] => inl "Content variants required for execution"
  | Some variants =>
      match campaign_results env state variants with
      | (results, None) =>
          inr (with_results (Some results)
                 (with_completed "execute_campaign"
                    (with_step "execution_complete" state)))
      | (results, Some e) =>
          inr (with_results (Some (add_error e results))
                 (with_step "execution_failed" state))
      end
  end.

Definition monitorCampaignResults (env : Env) (state : CampaignState) : CampaignState :=
  match llm_monitor env with
  | LlmJson (MonitorObject recommendations) =>
      with_next_actions recommendations
        (with_completed "monitor_results" (with_step "monitoring_complete" state))
  | _ => with_step "monitoring_failed" state
  end.


(* ================================================================== *)
(** * app/api/agents/campaigns: the workflow graph *)

Inductive Node := analyze_customers | generate_content | execute_campaign | monitor_results.

Inductive Next :=
| Goto (n : Node)
| END
| NoSuchEdge (key : string).

Definition or_else {A : Type} (update current : option A) : option A :=
  match update with
  | Some _ => update
  | None => current
  end.

(** The channels of [createCampaignWorkflow].  A node's return value is
    folded into the graph state key by key with the channel's reducer; a key
    whose value is undefined is not written.  The reducers are [action]
    (replace), [{...state, ...action}] for [customer_analysis] and
    [execution_results], and [[...(state || []), ...action]] for
    [content_variants]. *)
Definition apply_channels (current update : CampaignState) : CampaignState :=
  {| campaign_id := campaign_id update;
     restaurant_id := restaurant_id update;
     goal := goal update;
     current_step := current_step update;
     steps_completed := steps_completed update;
     steps_remaining := steps_remaining update;
     campaign_data := campaign_data update;
     customer_analysis := or_else (customer_analysis update) (customer_analysis current);
     content_variants :=
       match content_variants update with
       | Some action =>
           Some (match content_variants current with
                 | Some old => old
                 | None => []
                 end ++ action)%list
       | None => content_variants current
       end;
     execution_results :=
       match execution_results update, execution_results current with
       | Some action, Some old =>
           Some {| sent := sent action; delivered := delivered action;
                   opened := or_else (opened action) (opened old);
                   clicked := or_else (clicked action) (clicked old);
                   failed := failed action; errors := errors action |}
       | Some action, None => Some action
       | None, old => old
       end;
     memory_context := or_else (memory_context update) (memory_context current);
     requires_approval := or_else (requires_approval update) (requires_approval current);
     approval_status := or_else (approval_status update) (approval_status current);
     next_actions := or_else (next_actions update) (next_actions current) |}.

(** [workflow.addNode(name, step)]. *)
Definition run_node (env : Env) (n : Node) (state : CampaignState) : Exn + CampaignState :=
  match n with
  | analyze_customers => inr (analyzeCustomerBase env state)
  | generate_content => generateCampaignContent env state
  | execute_campaign => executeCampaign env state
  | monitor_results => inr (monitorCampaignResults env state)
  end.

(** [state.requires_approval ? "approval_required" : "execute_campaign"]. *)
Definition approval_gate (state : CampaignState) : string :=
  match requires_approval state with
  | Some true => "approval_required"
  | _ => "execute_campaign"
  end.

(** The edges added by [addConditionalEdges] and [addEdge]. *)
Definition next_node (n : Node) (state : CampaignState) : Next :=
  match n with
  | analyze_customers =>
      if current_step state =? "analysis_complete" then Goto generate_content
      else if current_step state =? "analysis_failed" then END
      else NoSuchEdge (current_step state)
  | generate_content =>
      if approval_gate state =? "execute_campaign" then Goto execute_campaign
      else if approval_gate state =? "approval_required" then END
      else NoSuchEdge (approval_gate state)
  | execute_campaign => Goto monitor_results
  | monitor_results => END
  end.

Inductive Outcome :=
| Finished (final : CampaignState)
| Rejected (error : Exn)
| OutOfFuel.

(** Running the compiled graph from node [n]: the nodes entered, each with
    the graph state it was entered with, and how the run ended. *)
Fixpoint run (env : Env) (fuel : nat) (n : Node) (state : CampaignState)
  : list (Node * CampaignState) * Outcome :=
  match fuel with
  | O => ([], OutOfFuel)
  | S fuel' =>
      match run_node env n state with
      | inl e => ([(n, state)], Rejected e)
      | inr update =>
          let state' := apply_channels state update in
          match next_node n state' with
          | END => ([(n, state)], Finished state')
          | NoSuchEdge key => ([(n, state)], Rejected ("No edge for " ++ key))
          | Goto n' =>
              let (trace, outcome) := run env fuel' n' state' in
              ((n, state) :: trace, outcome)
          end
      end
  end.

(** [workflow.invoke(initialState)] with entry point [analyze_customers];
    the graph has four nodes and no cycle. *)
Definition invoke (env : Env) (initial : CampaignState)
  : list (Node * CampaignState) * Outcome :=
  run env 4 analyze_customers initial.

Record CampaignInput := {
  input_restaurant_id : string;
  input_goal : string;
  campaign_type : CampaignType;
  input_target_segments : option (list string);
  input_memory_context : option Value
}.

Definition initialState (new_id : string) (campaignData : CampaignInput) : CampaignState :=
  {| campaign_id := new_id;
     restaurant_id := input_restaurant_id campaignData;
     goal := input_goal campaignData;
     current_step := "initializing";
     steps_completed := [];
     steps_remaining :=
       ["analyze_customers"; "generate_content"; "execute_campaign"; "monitor_results"];
     campaign_data :=
       {| type := Some (campaign_type campaignData);
          target_segments := Some match input_target_segments campaignData with
                                  | Some l => l
                                  | None => []
                                  end |};
     customer_analysis := None;
     content_variants := None;
     execution_results := None;
     memory_context := input_memory_context campaignData;
     requires_approval := Some false;
     approval_status := Some approved;
     next_actions := None |}.

Inductive CreateResult :=
| Created (campaign : CampaignState)
| CreateFailed (error : string).

Definition createAdvancedCampaign (env : Env) (campaignData : CampaignInput) : CreateResult :=
  match insert_campaign env with
  | Some e => CreateFailed e
  | None =>
      match snd (invoke env (initialState (new_campaign_id env) campaignData)) with
      | Finished final => Created final
      | Rejected e => CreateFailed e
      | OutOfFuel => CreateFailed "workflow did not finish"
      end
  end.

End Campaigns.

(* ================================================================== *)
(** * Vocabulary of the statements, and the inputs of the examples *)

Module RoutingSpec.
Import Js Orchestrator.

(** The routing inference fails: no answer, an error, or a text that is not
    JSON. *)
Inductive InferenceFails : list LlmReply -> Prop :=
| gateway_unavailable : InferenceFails []
| gateway_error : forall msg rest, InferenceFails (LlmError msg :: rest)
| unparsable_output : forall rest, InferenceFails (LlmContent None :: rest).

(** The routing inference answers with a handler name that is not one of
    the known identifiers. *)
Inductive UnknownHandler : list LlmReply -> Prop :=
| unknown_handler : forall a c r rest,
    ~ In a validAgents ->
    UnknownHandler (LlmContent (Some (JsonRouting a c r)) :: rest).

Definition idle (replies : list LlmReply) (answers : list FetchReply) : World :=
  {| memory := []; taskQueue := []; heap := []; llm := replies;
     network := answers; clock := 0%nat |}.

Definition call_request : AgentRequest :=
  {| message := "Please call me back about my order"; request_context := None |}.

Definition billing_reply : LlmReply :=
  LlmContent (Some (JsonRouting "billing" 0.9 "Billing question")).

End RoutingSpec.

Module MemorySpec.
Import Js Orchestrator.

Definition update_type_eqb (a b : UpdateType) : bool :=
  match a, b with
  | fact, fact | preference, preference
  | context_entry, context_entry | goal, goal => true
  | _, _ => false
  end.

(** The update writes the entry [key] of the map of kind [ty]. *)
Definition writes (ty : UpdateType) (key : string) (u : MemoryUpdate) : bool :=
  update_type_eqb (upd_type u) ty && (upd_key u =? key).

(** The last update of the list that writes that entry. *)
Fixpoint last_write (ty : UpdateType) (key : string) (updates : list MemoryUpdate)
  : option MemoryUpdate :=
  match updates with
  | [] => None
  | u :: rest =>
      match last_write ty key rest with
      | Some later => Some later
      | None => if writes ty key u then Some u else None
      end
  end.

Definition fact_of (u : MemoryUpdate) : FactEntry :=
  {| fact_value := upd_value u; fact_confidence := upd_confidence u;
     fact_source := upd_source u; fact_timestamp := upd_timestamp u |}.

Definition preference_of (u : MemoryUpdate) : PreferenceEntry :=
  {| pref_value := upd_value u; pref_confidence := upd_confidence u;
     pref_timestamp := upd_timestamp u |}.

Definition is_goal (u : MemoryUpdate) : bool := update_type_eqb (upd_type u) goal.

(** A property of a value that is neither undefined nor null. *)
Definition property (name : string) (v : Value) : Value :=
  match v with
  | Object fs => field name fs
  | _ => Undefined
  end.

Definition goal_of (u : MemoryUpdate) : Goal :=
  {| goal_description := property "description" (upd_value u);
     goal_status := or (property "status" (upd_value u)) (Str "active");
     goal_priority := or (property "priority" (upd_value u)) (Number 1) |}.

(** Every update of the list can be applied: no goal update carries the
    value undefined or null, on which reading [value.description] throws. *)
Definition applicable (updates : list MemoryUpdate) : bool :=
  forallb (fun u => negb (is_goal u && nullish (upd_value u))) updates.

(** Reorderings that exchange neighbours with different keys. *)
Inductive Reordered : list MemoryUpdate -> list MemoryUpdate -> Prop :=
| reordered_refl : forall l, Reordered l l
| reordered_swap : forall l1 u1 u2 l2,
    upd_key u1 <> upd_key u2 ->
    Reordered (l1 ++ u1 :: u2 :: l2)%list (l1 ++ u2 :: u1 :: l2)%list
| reordered_trans : forall l1 l2 l3,
    Reordered l1 l2 -> Reordered l2 l3 -> Reordered l1 l3.

(** Reading back through [getMemory]. *)
Definition read_fact (w : World) (sid key : string) : option FactEntry :=
  match getMemory w sid with
  | Some m => map_get (facts m) key
  | None => None
  end.

Definition read_preference (w : World) (sid key : string) : option PreferenceEntry :=
  match getMemory w sid with
  | Some m => map_get (preferences m) key
  | None => None
  end.

Definition read_goals (w : World) (sid : string) : list Goal :=
  match getMemory w sid with
  | Some m => goals m
  | None => []
  end.

(** Everything of the orchestrator but the session memories. *)
Definition same_environment (w w' : World) : Prop :=
  taskQueue w' = taskQueue w /\ heap w' = heap w /\ llm w' = llm w /\
  network w' = network w /\ clock w' = clock w.

Definition an_update (ty : UpdateType) (key : string) (v : Value) (t : Date) : MemoryUpdate :=
  {| upd_type := ty; upd_key := key; upd_value := v; upd_confidence := 0.8;
     upd_source := "conversation"; upd_timestamp := t |}.

Definition a_goal (text : string) : Value := Object [("description", Str text)].

(** A goal update without value between two updates of the same fact. *)
Definition unreadable_updates : list MemoryUpdate :=
  [ an_update fact "diet" (Str "vegan") 1;
    an_update goal "g" Null 2;
    an_update fact "diet" (Str "vegetarian") 3 ].

Definition two_facts : list MemoryUpdate :=
  [ an_update fact "diet" (Str "vegan") 1;
    an_update fact "seat" (Str "window") 2 ].

Definition sample_updates : list MemoryUpdate :=
  [ an_update fact "diet" (Str "vegan") 1;
    an_update goal "g" (a_goal "book a table") 2;
    an_update fact "diet" (Str "vegetarian") 3;
    an_update preference "spice" (Str "hot") 4;
    an_update goal "g" (a_goal "book a table") 5 ].

End MemorySpec.

Module TaskSpec.
Import Js Orchestrator RoutingSpec.

(** ** Readiness and the selection the specification describes *)

Definition dependency_list (task : Task) : list string :=
  match dependencies task with
  | Some deps => deps
  | None => []
  end.

(** The status of the task of [tasks] whose id is [dep]. *)
Definition status_of_dependency (h : list Task) (tasks : list TaskRef) (dep : string)
  : option TaskStatus :=
  match find (fun t => match nth_error h t with
                       | Some task => task_id task =? dep
                       | None => false
                       end) tasks with
  | Some t => option_map status (nth_error h t)
  | None => None
  end.

(** A task is ready iff all entries of its dependency set have status
    [completed]. *)
Definition ready (h : list Task) (tasks : list TaskRef) (task : Task) : bool :=
  forallb (fun dep => match status_of_dependency h tasks dep with
                      | Some completed => true
                      | _ => false
                      end) (dependency_list task).

(** The selection in the specification's words: among the ready tasks, the
    first in insertion order among those with the highest priority. *)
Definition spec_select_ready_task (h : list Task) (tasks : list TaskRef) : option TaskRef :=
  fold_left
    (fun best t =>
       match nth_error h t with
       | Some task =>
           if ready h tasks task then
             match best with
             | None => Some t
             | Some b =>
                 match nth_error h b with
                 | Some chosen =>
                     if (priority chosen <? priority task)%Z then Some t else best
                 | None => Some t
                 end
             end
           else best
       | None => best
       end)
    tasks None.

Definition with_priority (p : Z) (t : Task) : Task :=
  {| task_id := task_id t; task_type := task_type t; description := description t;
     status := status t; priority := p; dependencies := dependencies t;
     result := result t; agent := agent t; created_at := created_at t;
     updated_at := updated_at t |}.

(** ** Failing dispatches *)

(** The dispatch fails at the transport level or returns non-success. *)
Inductive DispatchFails : list FetchReply -> Prop :=
| transport_unavailable : DispatchFails []
| transport_error : forall msg rest, DispatchFails (FetchRejects msg :: rest)
| http_error : forall r rest, ok r = false -> DispatchFails (FetchResponds r :: rest)
| body_unreadable : forall r rest,
    ok r = true -> body r = None -> DispatchFails (FetchResponds r :: rest)
| unsuccessful : forall r d rest,
    ok r = true -> body r = Some d -> success d = false ->
    DispatchFails (FetchResponds r :: rest).

(** ** Termination *)

(** The environment only loses answers and the heap only grows. *)
Definition advances (w w' : World) : Prop :=
  (List.length (llm w') <= List.length (llm w))%nat /\
  (List.length (heap w) <= List.length (heap w'))%nat.

(** Started with at most [n] model answers left, the computation ends
    within its recursion bound. *)
Definition halts {A : Type} (n : nat) (m : M A) : Prop :=
  forall w, (List.length (llm w) <= n)%nat ->
    snd (m w) <> OutOfFuel /\ advances w (fst (m w)).

(** ... and it ends by returning a value. *)
Definition returns {A : Type} (n : nat) (m : M A) : Prop :=
  forall w, (List.length (llm w) <= n)%nat ->
    (exists a, snd (m w) = Normal a) /\ advances w (fst (m w)).

(** Two computations do the same when started with at most [n] model
    answers left. *)
Definition agree {A : Type} (n : nat) (m1 m2 : M A) : Prop :=
  forall w, (List.length (llm w) <= n)%nat -> m1 w = m2 w.

(** ** Inputs of the examples *)

Definition a_task (name : string) (p : Z) (deps : option (list string)) : Task :=
  {| task_id := name; task_type := action; description := "Segment the customers";
     status := pending; priority := p; dependencies := deps; result := None;
     agent := Some "crm"; created_at := 0; updated_at := 0 |}.

Definition two_ready_tasks : list Task :=
  [a_task "task_1" 1 None; a_task "task_2" 5 (Some [])].

Definition onboarding_tasks : list Task :=
  [a_task "task_3" 5 (Some ["task_1"; "task_2"]); a_task "task_1" 1 None;
   a_task "task_2" 3 (Some [])].

Definition plan_request : AgentRequest :=
  {| message := "Create a campaign for our loyal customers"; request_context := None |}.

Definition crm_descriptor : TaskDescriptor :=
  {| td_id := "task_1"; td_type := analysis; td_description := "Segment the customers";
     td_priority := 3; td_agent := Some "crm"; td_dependencies := Some [] |}.

(** The model finds the goal complex and plans one task for the customer
    handler; the transport then refuses the connection. *)
Definition refused_dispatch : World :=
  idle [LlmContent (Some (JsonGoalAnalysis true "Win back loyal customers" "multi-step"));
        LlmContent (Some (JsonTasks [crm_descriptor]))]
       [FetchRejects "connect ECONNREFUSED 127.0.0.1:3000"].

End TaskSpec.

Module CampaignSpec.
Import Js Campaigns.

(** ** Counting customers *)

(** The customer is opted into the campaign's channel type. *)
Definition opted_in (state : CampaignState) (c : Customer) : bool :=
  match type (campaign_data state) with
  | Some email => opt_in_email c
  | Some sms => opt_in_sms c
  | Some multi_channel => opt_in_email c || opt_in_sms c
  | None => false
  end.

(** The customer passes one of the two tests that guard a send: the channel
    type is e-mail or SMS, the customer has an address for it and is opted
    into it. *)
Definition reachable (state : CampaignState) (c : Customer) : bool :=
  email_branch state c || sms_branch state c.

(** The customer lists of the segments the loop resolves, from the variant
    at position [i] on: the loop stops at the first query that fails. *)
Fixpoint resolved_segments (env : Env) (state : CampaignState) (i : nat)
  (variants : list Variant) : list (list Customer) :=
  match variants with
  | [] => []
  | variant :: rest =>
      match resolve_segment env state i variant with
      | inl _ => []
      | inr customers => customers :: resolved_segments env state (S i) rest
      end
  end.

Fixpoint count_customers (p : Customer -> bool) (segments : list (list Customer)) : nat :=
  match segments with
  | [] => 0
  | customers :: rest => List.length (filter p customers) + count_customers p rest
  end.

(** ** The approval invariant and the shape of the graph *)

Definition approval_off (state : CampaignState) : Prop :=
  requires_approval state = Some false /\ approval_status state = Some approved.

(** The number of nodes on the longest path from a node to the end. *)
Definition rank (n : Node) : nat :=
  match n with
  | analyze_customers => 4
  | generate_content => 3
  | execute_campaign => 2
  | monitor_results => 1
  end.

(** ** Inputs of the examples *)

Definition a_customer (name : string) (mail phone_number : option string)
  (by_mail by_sms : bool) : Customer :=
  {| id := name; customer_name := Some name; customer_email := mail;
     customer_phone := phone_number; opt_in_email := by_mail; opt_in_sms := by_sms;
     loyalty_points := 120; visit_count := 8 |}.

Definition a_variant (name segment : string) : Variant :=
  {| variant_id := name; subject := Some "We miss you";
     content := "Hi {first_name}, you have {loyalty_points} points";
     target_segment := segment; performance_score := None |}.

Definition a_campaign (channel : CampaignType) (variants : list Variant) : CampaignState :=
  {| campaign_id := "campaign_1"; restaurant_id := "lullabar"; goal := "Win back regulars";
     current_step := "content_generated";
     steps_completed := ["analyze_customers"; "generate_content"];
     steps_remaining := ["analyze_customers"; "generate_content"; "execute_campaign";
                         "monitor_results"];
     campaign_data := {| type := Some channel; target_segments := Some [] |};
     customer_analysis := None; content_variants := Some variants;
     execution_results := None; memory_context := None;
     requires_approval := Some false; approval_status := Some approved;
     next_actions := None |}.

(** An environment in which every collaborator answers and succeeds, with
    the customers of each segment given by [customers_of]. *)
Definition calm (customers_of : string -> list Customer)
  (twilio : nat -> nat -> Twilio.ClientReply) : Env :=
  {| new_campaign_id := "campaign_1";
     insert_campaign := None;
     query_segment_counts := DbRows None;
     llm_preferences := LlmJson (PreferencesObject None);
     llm_content := LlmJson (ContentVariants []);
     query_customers := fun i query params =>
       DbRows (Some (customers_of
         (if query =? fst (buildSegmentQuery "loyal_customers" "lullabar")
          then "loyal_customers"
          else if query =? fst (buildSegmentQuery "sms_subscribers" "lullabar")
          then "sms_subscribers"
          else "")));
     sendEmail := fun i j to subj => EmailReturns true;
     twilio_client := twilio;
     insert_interaction := fun i j => None;
     update_campaign := fun r => None;
     llm_monitor := LlmJson (MonitorObject None) |}.

Definition accepted : nat -> nat -> Twilio.ClientReply :=
  fun i j => Twilio.MessageCreated "SM1" "queued".

(** Three loyal customers, two of them opted into e-mail; one SMS
    subscriber. *)
Definition scenario_customers (segment : string) : list Customer :=
  if segment =? "loyal_customers" then
    [a_customer "ann" (Some "ann@example.com") None true false;
     a_customer "bob" (Some "bob@example.com") (Some "+17025550101") false true;
     a_customer "cho" (Some "cho@example.com") None true false]
  else if segment =? "sms_subscribers" then
    [a_customer "dee" None (Some "+17025550102") false true]
  else [].

Definition scenario_campaign : CampaignState :=
  a_campaign email [a_variant "variant_1" "loyal_customers";
                    a_variant "variant_2" "sms_subscribers"].

(** A loyal customer who opted into e-mail but has no e-mail address. *)
Definition no_address_customers (segment : string) : list Customer :=
  if segment =? "loyal_customers"
  then [a_customer "eve" None (Some "+17025550103") true false]
  else [].

Definition no_address_campaign : CampaignState :=
  a_campaign email [a_variant "variant_1" "loyal_customers"].

(** Two SMS subscribers; the SMS gateway rejects the first message. *)
Definition sms_customers (segment : string) : list Customer :=
  if segment =? "sms_subscribers"
  then [a_customer "fay" None (Some "+1702555") false true;
        a_customer "gus" None (Some "+17025550104") false true]
  else [].

Definition rejects_first : nat -> nat -> Twilio.ClientReply :=
  fun i j =>
    match j with
    | O => Twilio.ClientRejects "The 'To' number +1702555 is not a valid phone number"
    | S _ => Twilio.MessageCreated "SM2" "queued"
    end.

Definition sms_campaign : CampaignState :=
  a_campaign sms [a_variant "variant_1" "sms_subscribers"].

End CampaignSpec.

(* ================================================================== *)
(** * lib/toolkits/postgres.ts *)

Module Postgres.
Import Js.

Definition nl : string := String (ascii_of_nat 10) EmptyString.

(** A template literal, line by line. *)
Definition lines (l : list string) : string := join nl l.

(** A bound parameter ([any] in the source). *)
Inductive SqlParam :=
| SqlNull
| SqlText (s : string)
| SqlNumber (q : Q)
| SqlBool (b : bool)
| SqlArray (items : list string).

Definition opt_text (o : option string) : SqlParam :=
  match o with
  | Some s => SqlText s
  | None => SqlNull
  end.

Definition opt_number (o : option Q) : SqlParam :=
  match o with
  | Some q => SqlNumber q
  | None => SqlNull
  end.

(** A result row: a JavaScript object, column by column. *)
Definition Row := list (string * Value).

(** The connection pool and the server are the environment.  Their answers
    are indexed by the statement they belong to. *)
Inductive ConnectReply :=
| ClientAcquired
| ConnectFails (msg : string).

Inductive QueryReply :=
| QueryRows (rows : list Row) (count : option nat)
| QueryFails (msg : string).

Record Database := {
  connect : string -> ConnectReply;
  answer : string -> list SqlParam -> QueryReply
}.

Record QueryResult := {
  success : bool;
  data : option (list Row);
  error : option string;
  rowCount : option nat
}.

Definition query_failure (msg : string) : QueryResult :=
  {| success := false; data := None; error := Some msg; rowCount := None |}.

(** [executeQuery]: [in_use] counts the clients checked out of the pool.
    The three parts are the [try] block (with the client it acquired, if
    any), the [catch] block and the [finally] block. *)
Definition executeQuery (db : Database) (query : string) (params : list SqlParam)
  (in_use : nat) : nat * QueryResult :=
  let '(acquired, client, outcome) :=
    match connect db query with
    | ConnectFails msg => (in_use, false, inl msg)
    | ClientAcquired =>
        match answer db query params with
        | QueryRows rows count =>
            (S in_use, true,
             inr {| success := true; data := Some rows; error := None;
                    rowCount := Some match count with
                                     | Some n => n
                                     | None => 0%nat
                                     end |})
        | QueryFails msg => (S in_use, true, inl msg)
        end
    end in
  let result :=
    match outcome with
    | inr r => r
    | inl msg => query_failure msg
    end in
  (if client : bool then Nat.pred acquired else acquired, result).

Inductive IdentifierType := by_phone | by_email.

Definition getCustomer_query (restaurant_id identifier : string) (type : IdentifierType)
  : string * list SqlParam :=
  let field := match type with
               | by_phone => "customer_phone"
               | by_email => "customer_email"
               end in
  ("SELECT * FROM restaurant_customers WHERE restaurant_id = $1 AND " ++ field ++ " = $2",
   [SqlText restaurant_id; SqlText identifier]).

Record CustomerData := {
  cd_restaurant_id : string;
  cd_customer_phone : option string;
  cd_customer_email : option string;
  cd_customer_name : option string;
  cd_signup_source : option string;
  cd_tags : option (list string);
  cd_conversation_summary : option string
}.

Definition createOrUpdateCustomer_sql : string :=
  lines
    [ "";
      "    INSERT INTO restaurant_customers ";
      "    (restaurant_id, customer_phone, customer_email, customer_name, signup_source, tags, conversation_summary, created_at, updated_at)";
      "    VALUES ($1, $2, $3, $4, $5, $6, $7, NOW(), NOW())";
      "    ON CONFLICT (restaurant_id, customer_phone) ";
      "    DO UPDATE SET";
      "      customer_email = COALESCE(EXCLUDED.customer_email, restaurant_customers.customer_email),";
      "      customer_name = COALESCE(EXCLUDED.customer_name, restaurant_customers.customer_name),";
      "      tags = EXCLUDED.tags,";
      "      conversation_summary = COALESCE(EXCLUDED.conversation_summary, restaurant_customers.conversation_summary),";
      "      updated_at = NOW()";
      "    RETURNING *";
      "  " ].

(** The destructuring defaults [signup_source = 'api'] and [tags = []]
    apply to an absent field. *)
Definition createOrUpdateCustomer_query (c : CustomerData) : string * list SqlParam :=
  (createOrUpdateCustomer_sql,
   [ SqlText (cd_restaurant_id c);
     opt_text (cd_customer_phone c);
     opt_text (cd_customer_email c);
     opt_text (cd_customer_name c);
     SqlText match cd_signup_source c with
             | Some s => s
             | None => "api"
             end;
     SqlArray match cd_tags c with
              | Some l => l
              | None => []
              end;
     opt_text (cd_conversation_summary c) ]).

Record ConversationData := {
  log_conversation_id : string;
  log_phone : option string;
  log_user_message : string;
  log_agent_response : string;
  log_intent : option string;
  log_confidence_score : option Q
}.

Definition logConversation_sql : string :=
  lines
    [ "";
      "    INSERT INTO conversations ";
      "    (conversation_id, phone, user_message, agent_response, intent, confidence_score, created_at)";
      "    VALUES ($1, $2, $3, $4, $5, $6, NOW())";
      "    RETURNING *";
      "  " ].

Definition logConversation_query (c : ConversationData) : string * list SqlParam :=
  (logConversation_sql,
   [ SqlText (log_conversation_id c);
     opt_text (log_phone c);
     SqlText (log_user_message c);
     SqlText (log_agent_response c);
     opt_text (log_intent c);
     opt_number (log_confidence_score c) ]).

Record ReservationData := {
  res_name : string;
  res_party_size : Q;
  res_reservation_date : string;
  res_reservation_time : string;
  res_phone : option string;
  res_special_requests : option string
}.

Definition createReservation_sql : string :=
  lines
    [ "";
      "    INSERT INTO reservations ";
      "    (name, party_size, reservation_date, reservation_time, phone, special_requests, status, created_at)";
      "    VALUES ($1, $2, $3, $4, $5, $6, 'confirmed', NOW())";
      "    RETURNING *";
      "  " ].

Definition createReservation_query (r : ReservationData) : string * list SqlParam :=
  (createReservation_sql,
   [ SqlText (res_name r);
     SqlNumber (res_party_size r);
     SqlText (res_reservation_date r);
     SqlText (res_reservation_time r);
     opt_text (res_phone r);
     opt_text (res_special_requests r) ]).

(** [if (date)]: an absent or empty date selects the upcoming reservations. *)
Definition getReservations_query (date : option string) : string * list SqlParam :=
  let query := "SELECT * FROM reservations" in
  let '(query, params) :=
    if str_truthy date
    then (query ++ " WHERE reservation_date = $1", [opt_text date])
    else (query ++ " WHERE reservation_date >= CURRENT_DATE", []) in
  (query ++ " ORDER BY reservation_date, reservation_time", params).

(** The toolkit functions proper: build the statement, run it. *)
Definition run (db : Database) (statement : string * list SqlParam) : QueryResult :=
  snd (executeQuery db (fst statement) (snd statement) 0).

(** [executeQuery] as the code of a caller sees it: a call returns a result
    or throws. *)
Definition Callee := string * list SqlParam -> Exn + QueryResult.

(** The toolkit's [executeQuery] as a callee: it always returns. *)
Definition toolkit (db : Database) : Callee := fun statement => inr (run db statement).

Definition getCustomer (db : Database) (restaurant_id identifier : string)
  (type : IdentifierType) : QueryResult :=
  run db (getCustomer_query restaurant_id identifier type).

Definition createOrUpdateCustomer (db : Database) (c : CustomerData) : QueryResult :=
  run db (createOrUpdateCustomer_query c).

Definition logConversation (db : Database) (c : ConversationData) : QueryResult :=
  run db (logConversation_query c).

Definition createReservation (db : Database) (r : ReservationData) : QueryResult :=
  run db (createReservation_query r).

Definition getReservations (db : Database) (date : option string) : QueryResult :=
  run db (getReservations_query date).

End Postgres.


(* ================================================================== *)
(** * app/api/agents/crm *)

Module Crm.
Import Js Postgres.

(** [result.data?.[0]]. *)
Definition first_row (r : QueryResult) : option Row :=
  match data r with
  | Some (row :: _) => Some row
  | _ => None
  end.

(** What the four functions return: [{success: true, ...}] with the rows
    read, or [{success: false, error}]. *)
Inductive CrmBody :=
| CustomerBody (customer : option Row)
| CustomersBody (customers : option (list Row))
| SegmentsBody (segments : option Row)
| FailureBody (error : string).

Definition body_success (b : CrmBody) : bool :=
  match b with
  | FailureBody _ => false
  | _ => true
  end.

Definition createCustomer (executeQuery : Callee) (customerData : CustomerData) : CrmBody :=
  match executeQuery (createOrUpdateCustomer_query customerData) with
  | inr result => CustomerBody (first_row result)
  | inl error => FailureBody error
  end.

Record Filters := {
  f_opt_in_sms : option bool;
  f_opt_in_email : option bool;
  f_tags : option (list string);
  f_search : option string
}.

(** The statement under construction: text, parameters, next index. *)
Definition Builder := (string * list SqlParam * nat)%type.

(** [query += text(paramIndex); params.push(p); paramIndex++]. *)
Definition add_clause (text : string -> string) (p : SqlParam) (b : Builder) : Builder :=
  let '(query, params, paramIndex) := b in
  (query ++ text ("$" ++ Campaigns.nat_to_string paramIndex),
   (params ++ [p])%list, S paramIndex).

Definition has_items (tags : option (list string)) : bool :=
  match tags with
  | Some (_ :: _) => true
  | _ => false
  end.

Definition getCustomers_query (restaurant_id : string) (filters : option Filters)
  : string * list SqlParam :=
  let b : Builder :=
    ("SELECT * FROM restaurant_customers WHERE restaurant_id = $1",
     [SqlText restaurant_id], 2%nat) in
  let b :=
    match filters with
    | None => b
    | Some f =>
        let b := match f_opt_in_sms f with
                 | Some v => add_clause (fun i => " AND opt_in_sms = " ++ i) (SqlBool v) b
                 | None => b
                 end in
        let b := match f_opt_in_email f with
                 | Some v => add_clause (fun i => " AND opt_in_email = " ++ i) (SqlBool v) b
                 | None => b
                 end in
        let b := if has_items (f_tags f)
                 then add_clause (fun i => " AND tags && " ++ i)
                        (SqlArray match f_tags f with
                                  | Some l => l
                                  | None => []
                                  end) b
                 else b in
        if str_truthy (f_search f)
        then add_clause
               (fun i => " AND (customer_name ILIKE " ++ i ++ " OR customer_email ILIKE "
                         ++ i ++ " OR customer_phone ILIKE " ++ i ++ ")")
               (SqlText ("%" ++ str_or (f_search f) "" ++ "%")) b
        else b
    end in
  let '(query, params, _) := b in
  (query ++ " ORDER BY created_at DESC", params).

Definition getCustomers (executeQuery : Callee) (restaurant_id : string)
  (filters : option Filters) : CrmBody :=
  match executeQuery (getCustomers_query restaurant_id filters) with
  | inr result => CustomersBody (data result)
  | inl error => FailureBody error
  end.

Record InteractionData := {
  i_total_spent : option Q;
  i_visit_count_increment : option Q;
  i_loyalty_points_increment : option Q;
  i_notes : option string;
  i_tags : option (list string);
  i_conversation_summary : option string
}.

(** A number is truthy when it is present and not zero. *)
Definition num_truthy (o : option Q) : bool :=
  match o with
  | Some q => negb (Qeq_bool q 0)
  | None => false
  end.

(** [updates.push(text(paramIndex)); params.push(p); paramIndex++]. *)
Definition add_update (text : string -> string) (p : SqlParam)
  (b : list string * list SqlParam * nat) : list string * list SqlParam * nat :=
  let '(updates, params, paramIndex) := b in
  ((updates ++ [text ("$" ++ Campaigns.nat_to_string paramIndex)%string])%list,
   (params ++ [p])%list, S paramIndex).

Definition updateCustomerInteraction_query (restaurant_id : string)
  (customer_phone : option string) (interaction_data : option InteractionData)
  : string * list SqlParam :=
  let b := (["last_interaction = NOW()"; "updated_at = NOW()"],
            [SqlText restaurant_id; opt_text customer_phone], 3%nat) in
  let b :=
    match interaction_data with
    | None => b
    | Some d =>
        let b := match i_total_spent d with
                 | Some v => add_update (fun i => "total_spent = total_spent + " ++ i)
                               (SqlNumber v) b
                 | None => b
                 end in
        let b := if num_truthy (i_visit_count_increment d)
                 then add_update (fun i => "visit_count = visit_count + " ++ i)
                        (opt_number (i_visit_count_increment d)) b
                 else b in
        let b := if num_truthy (i_loyalty_points_increment d)
                 then add_update (fun i => "loyalty_points = loyalty_points + " ++ i)
                        (opt_number (i_loyalty_points_increment d)) b
                 else b in
        let b := if str_truthy (i_notes d)
                 then add_update (fun i => "notes = " ++ i) (opt_text (i_notes d)) b
                 else b in
        let b := match i_tags d with
                 | Some l => add_update (fun i => "tags = " ++ i) (SqlArray l) b
                 | None => b
                 end in
        if str_truthy (i_conversation_summary d)
        then add_update (fun i => "conversation_summary = " ++ i)
               (opt_text (i_conversation_summary d)) b
        else b
    end in
  let '(updates, params, _) := b in
  (lines [ "";
           "      UPDATE restaurant_customers ";
           "      SET " ++ join ", " updates;
           "      WHERE restaurant_id = $1 AND customer_phone = $2";
           "      RETURNING *";
           "    " ],
   params).

Definition updateCustomerInteraction (executeQuery : Callee) (restaurant_id : string)
  (customer_phone : option string) (interaction_data : option InteractionData) : CrmBody :=
  match executeQuery
          (updateCustomerInteraction_query restaurant_id customer_phone interaction_data) with
  | inr result => CustomerBody (first_row result)
  | inl error => FailureBody error
  end.

Definition getCustomerSegments_sql : string :=
  lines
    [ "";
      "      SELECT ";
      "        COUNT(*) as total_customers,";
      "        COUNT(*) FILTER (WHERE opt_in_sms = true) as sms_subscribers,";
      "        COUNT(*) FILTER (WHERE opt_in_email = true) as email_subscribers,";
      "        COUNT(*) FILTER (WHERE visit_count > 5) as loyal_customers,";
      "        COUNT(*) FILTER (WHERE total_spent > 100) as high_value_customers,";
      "        COUNT(*) FILTER (WHERE last_interaction > NOW() - INTERVAL '30 days') as recent_customers";
      "      FROM restaurant_customers ";
      "      WHERE restaurant_id = $1";
      "    " ].

Definition getCustomerSegments (executeQuery : Callee) (restaurant_id : string) : CrmBody :=
  match executeQuery (getCustomerSegments_sql, [SqlText restaurant_id]) with
  | inr result => SegmentsBody (first_row result)
  | inl error => FailureBody error
  end.

(** ** The route handlers *)

(** The JSON body of a POST, as far as the handler reads it. *)
Record CrmPayload := {
  action : string;
  p_restaurant_id : string;
  p_customer_phone : option string;
  p_customer_email : option string;
  p_customer_name : option string;
  p_signup_source : option string;
  p_tags : option (list string);
  p_conversation_summary : option string;
  p_filters : option Filters;
  p_interaction_data : option InteractionData
}.

Record Reply := {
  status : nat;
  body : CrmBody
}.

(** [NextResponse.json(body)] answers with status 200. *)
Definition json (b : CrmBody) : Reply := {| status := 200; body := b |}.

Definition customer_of_payload (p : CrmPayload) : CustomerData :=
  {| cd_restaurant_id := p_restaurant_id p;
     cd_customer_phone := p_customer_phone p;
     cd_customer_email := p_customer_email p;
     cd_customer_name := p_customer_name p;
     cd_signup_source := p_signup_source p;
     cd_tags := p_tags p;
     cd_conversation_summary := p_conversation_summary p |}.

(** [POST]: [payload] is what [request.json()] gives, [None] when it
    throws. *)
Definition POST (executeQuery : Callee) (payload : option CrmPayload) : Reply :=
  match payload with
  | None => {| status := 500; body := FailureBody "Internal server error" |}
  | Some p =>
      if action p =? "create_customer"
      then json (createCustomer executeQuery (customer_of_payload p))
      else if action p =? "get_customers"
      then json (getCustomers executeQuery (p_restaurant_id p) (p_filters p))
      else if action p =? "update_interaction"
      then json (updateCustomerInteraction executeQuery (p_restaurant_id p)
                   (p_customer_phone p) (p_interaction_data p))
      else if action p =? "get_segments"
      then json (getCustomerSegments executeQuery (p_restaurant_id p))
      else {| status := 400; body := FailureBody "Invalid action" |}
  end.

(** [GET]: the two search parameters, [None] when absent. *)
Definition GET (executeQuery : Callee) (restaurant_id action_param : option string) : Reply :=
  let chosen := str_or action_param "get_customers" in
  if negb (str_truthy restaurant_id)
  then {| status := 400; body := FailureBody "restaurant_id required" |}
  else if chosen =? "get_customers"
  then json (getCustomers executeQuery (str_or restaurant_id "") None)
  else if chosen =? "get_segments"
  then json (getCustomerSegments executeQuery (str_or restaurant_id ""))
  else {| status := 400; body := FailureBody "Invalid action" |}.

End Crm.


(* ================================================================== *)
(** * lib/agentOrchestrator.ts: the request pipeline *)

Module RequestPipeline.
Import Js Orchestrator.
Local Open Scope js_scope.

(** [l.slice(-n)]. *)
Definition slice_last {A : Type} (n : nat) (l : list A) : list A :=
  skipn (List.length l - n) l.

Record MemoryContext := {
  recent_facts : list (string * FactEntry);
  recent_preferences : list (string * PreferenceEntry);
  active_goals : list Goal;
  recent_conversation : list HistoryEntry
}.

(** [g.status === 'active']. *)
Definition is_active (g : Goal) : bool :=
  match goal_status g with
  | Str s => s =? "active"
  | _ => false
  end.

Definition buildMemoryContext (m : AgentMemory) : MemoryContext :=
  {| recent_facts := slice_last 5 (facts m);
     recent_preferences := slice_last 3 (preferences m);
     active_goals := filter is_active (goals m);
     recent_conversation := slice_last 4 (conversation_history m) |}.

Definition determineCRMAction (msg : string) : string :=
  let messageLower := toLowerCase msg in
  if includes messageLower "create" || includes messageLower "add" then "create_customer"
  else if includes messageLower "find" || includes messageLower "search" then "get_customers"
  else if includes messageLower "update" || includes messageLower "interaction"
  then "update_interaction"
  else if includes messageLower "segment" || includes messageLower "analytics"
  then "get_segments"
  else "get_customers".

Definition determineCampaignAction (msg : string) : string :=
  let messageLower := toLowerCase msg in
  if includes messageLower "create" || includes messageLower "new campaign"
  then "create_campaign"
  else if includes messageLower "execute" || includes messageLower "send"
  then "execute_campaign"
  else if includes messageLower "review" || includes messageLower "response"
  then "process_review"
  else if includes messageLower "approve" then "approve_review_response"
  else "get_campaigns".

Definition determineToolAction (msg : string) : string :=
  let messageLower := toLowerCase msg in
  if includes messageLower "keyword" || includes messageLower "sms" then "sms_keyword"
  else if includes messageLower "review" then "review_response"
  else if includes messageLower "segment" then "customer_segments"
  else "sms_keyword".

(** The response of [processRequest]: the response of [executeAgent], whose
    [data] has received the key [routing]. *)
Record ProcessedResponse := {
  answered : AgentResponse;
  routing : Routing
}.

(** [context?.phone]. *)
Definition phone_of (request : AgentRequest) : option string :=
  match request_context request with
  | Some c => phone c
  | None => None
  end.

Definition processRequest (fuel : nat) (executeQuery : Postgres.Callee)
  (request : AgentRequest) : M ProcessedResponse :=
  let sessionId := session_of request in
  routed <- routeToAgent request ;;
  r <- executeAgent fuel (Some (routed_agent routed)) request ;;
  try_catch
    (_ <- lift (executeQuery (Postgres.logConversation_query
         {| Postgres.log_conversation_id := sessionId;
            Postgres.log_phone := phone_of request;
            Postgres.log_user_message := message request;
            Postgres.log_agent_response := response r;
            Postgres.log_intent := intent r;
            Postgres.log_confidence_score := Some (confidence r) |})) ;;
     ret tt)
    (fun error => ret tt) ;;
  ret {| answered := r; routing := routed |}.

End RequestPipeline.


Module PipelineSpec.
Import Js Orchestrator RoutingSpec.

(** The conversation history of a session. *)
Definition history (w : World) (sid : string) : list HistoryEntry :=
  conversation_history (deref w sid).

(** The handlers [executeAgent] has an endpoint for. *)
Definition handlers : list string := ["voice"; "crm"; "campaigns"; "postgres"; "tools"].

(** The handler answers the next dispatch with HTTP success, a JSON body
    [d] and [success] set. *)
Inductive HandlerSucceeds (d : HandlerData) : list FetchReply -> Prop :=
| handler_succeeds : forall r rest,
    ok r = true -> body r = Some d -> success d = true ->
    HandlerSucceeds d (FetchResponds r :: rest).

(** The text [executeAgent] takes from a handler's answer:
    [data.response || data.message || 'Operation completed successfully']. *)
Definition handler_text (d : HandlerData) : string :=
  str_or (data_response d) (str_or (data_message d) "Operation completed successfully").

(** The memory extraction answers with the update descriptors [ds]. *)
Definition ExtractionYields (ds : list UpdateDescriptor) (replies : list LlmReply) : Prop :=
  exists rest, replies = LlmContent (Some (JsonUpdates ds)) :: rest.

Definition read_context (w : World) (sid key : string) : option Value :=
  match getMemory w sid with
  | Some m => map_get (context m) key
  | None => None
  end.

(** A task as [decomposeGoalIntoTasks] leaves it. *)
Definition fresh (t : Task) : Prop := status t = pending /\ result t = None.

(** The history entries [executeAgent] writes. *)
Definition user_entry (request : AgentRequest) (w : World) : HistoryEntry :=
  {| role := user; content := message request; timestamp := clock w |}.

Definition assistant_entry (text : string) (w : World) : HistoryEntry :=
  {| role := assistant; content := text; timestamp := clock w |}.

(** What a session has learnt: the four fields [updateMemory] writes. *)
Definition knowledge (w : World) (sid : string)
  : Map FactEntry * Map PreferenceEntry * Map Value * list Goal :=
  let m := deref w sid in (facts m, preferences m, context m, goals m).

(** The computation wrote nothing but, possibly, consumed answers of the
    environment. *)
Definition quiet (w w' : World) : Prop :=
  memory w' = memory w /\ taskQueue w' = taskQueue w /\ heap w' = heap w.

(** Who said what in a session, without the timestamps. *)
Definition transcript (w : World) (sid : string) : list (Role * string) :=
  map (fun e => (role e, content e)) (history w sid).

(** A goal descriptor whose value is null or undefined. *)
Definition unreadable_goal (d : UpdateDescriptor) : bool :=
  match ud_type d with
  | goal => nullish (ud_value d)
  | _ => false
  end.

(** A memory that holds two facts. *)
Definition a_memory : AgentMemory :=
  {| session_id := "s1"; conversation_history := [];
     facts := [("diet", {| fact_value := Str "vegan"; fact_confidence := 0.8;
                           fact_source := "conversation"; fact_timestamp := 1%nat |});
               ("seat", {| fact_value := Str "window"; fact_confidence := 0.8;
                           fact_source := "conversation"; fact_timestamp := 2%nat |})];
     preferences := []; context := []; goals := []; memory_tasks := [] |}.

Definition a_handler_answer (text : string) : HandlerData :=
  {| success := true; data_error := None; data_response := Some text;
     data_message := None; data_confidence := None; data_intent := Some "reservation";
     data_next_action := None; data_needs_human_handoff := None |}.

Definition http_ok (d : HandlerData) : FetchReply :=
  FetchResponds {| ok := true; http_status := "200"; statusText := "OK"; body := Some d |}.

Definition table_request : AgentRequest :=
  {| message := "Can I get reservations for tonight?";
     request_context :=
       Some {| restaurant_id := Some "lullabar"; phone := None; email := None;
               conversation_id := None; previous_intent := None;
               ctx_session_id := Some "s1" |} |}.

Definition a_null_goal : UpdateDescriptor :=
  {| ud_type := goal; ud_key := "g"; ud_value := Null; ud_confidence := 0.8;
     ud_source := "conversation" |}.

Definition a_fact (key : string) (v : string) : UpdateDescriptor :=
  {| ud_type := fact; ud_key := key; ud_value := Str v; ud_confidence := 0.8;
     ud_source := "conversation" |}.

End PipelineSpec.


(* ================================================================== *)
(** * Vocabulary of the statements about the database code *)

Module SqlSpec.
Import Js Postgres.

Definition digit_of (c : ascii) : option nat :=
  let n := nat_of_ascii c in
  if (48 <=? n)%nat && (n <=? 57)%nat then Some (n - 48)%nat else None.

Inductive Scan := Outside | Dollar | Number (n : nat).

Definition after (c : ascii) : Scan :=
  if (c =? "$")%char then Dollar else Outside.

(** The placeholders [$n] of a statement text, in order of appearance. *)
Fixpoint placeholders_from (st : Scan) (s : string) : list nat :=
  match s with
  | EmptyString =>
      match st with
      | Number n => [n]
      | _ => []
      end
  | String c rest =>
      match digit_of c, st with
      | Some d, Dollar => placeholders_from (Number d) rest
      | Some d, Number n => placeholders_from (Number (10 * n + d)) rest
      | Some d, Outside => placeholders_from Outside rest
      | None, Number n => n :: placeholders_from (after c) rest
      | None, _ => placeholders_from (after c) rest
      end
  end.

Definition placeholders (s : string) : list nat := placeholders_from Outside s.

(** The text refers to the parameters [$1 .. $n], each at least once and to
    no other, where [n] is the number of parameters bound. *)
Definition binds_exactly {P : Type} (statement : string * list P) : bool :=
  let used := placeholders (fst statement) in
  let n := List.length (snd statement) in
  forallb (fun p => (1 <=? p)%nat && (p <=? n)%nat) used &&
  forallb (fun i => existsb (Nat.eqb i) used) (seq 1 n).

(** A database that cannot be reached. *)
Definition unreachable (msg : string) : Database :=
  {| connect := fun _ => ConnectFails msg;
     answer := fun _ _ => QueryFails msg |}.

Definition segments_request : Crm.CrmPayload :=
  {| Crm.action := "get_segments"; Crm.p_restaurant_id := "lullabar";
     Crm.p_customer_phone := None; Crm.p_customer_email := None;
     Crm.p_customer_name := None; Crm.p_signup_source := None;
     Crm.p_tags := None; Crm.p_conversation_summary := None;
     Crm.p_filters := None; Crm.p_interaction_data := None |}.

Definition the_crm_actions : list string :=
  ["create_customer"; "get_customers"; "update_interaction"; "get_segments"].

End SqlSpec.


(* ================================================================== *)
(** * app/api/agents/campaigns: the route handler *)

Module CampaignRoute.
Import Js Campaigns.

(** The JSON body of a POST, as far as the handler reads it: the action,
    the fields [createAdvancedCampaign] takes, and [campaign_id]. *)
Record CampaignPayload := {
  action : string;
  input : CampaignInput;
  requested_campaign_id : string
}.

Inductive CampaignBody :=
| CreateBody (r : CreateResult)
| StatusBody (campaign : option CampaignState)
| ErrorBody (error : string).

Record Reply := {
  status : nat;
  body : CampaignBody
}.

(** [POST]: [payload] is what [request.json()] gives, [None] when it
    throws; [activeWorkflows] is the map of the orchestrator object. *)
Definition POST (env : Env) (activeWorkflows : Map CampaignState)
  (payload : option CampaignPayload) : Reply :=
  match payload with
  | None => {| status := 500; body := ErrorBody "Internal server error" |}
  | Some p =>
      if action p =? "create_advanced_campaign"
      then {| status := 200; body := CreateBody (createAdvancedCampaign env (input p)) |}
      else if action p =? "get_campaign_status"
      then {| status := 200;
              body := StatusBody (map_get activeWorkflows (requested_campaign_id p)) |}
      else {| status := 400; body := ErrorBody "Invalid action" |}
  end.

End CampaignRoute.

(* ================================================================== *)
(** * lib/toolkits: e-mail through Resend *)

Module Email.
Import Js.

(** [to: string | string[]]. *)
Inductive Recipients :=
| One (address : string)
| Many (addresses : list string).

Record EmailMessage := {
  to : Recipients;
  subject : string;
  html : option string;
  text : option string;
  from : option string
}.

(** The object handed to [resend.emails.send]. *)
Record EmailData := {
  data_from : string;
  data_to : list string;
  data_subject : string;
  data_html : option string;
  data_text : option string
}.

(** The client either resolves to [{data, error}] or throws. *)
Inductive SendReply :=
| Responds (id : option string) (error : option string)
| SendThrows (msg : string).

Record SendResult := {
  success : bool;
  messageId : option string;
  error : option string
}.

Definition emailData_of (fromEmail : string) (m : EmailMessage) : EmailData :=
  {| data_from := str_or (from m) fromEmail;
     data_to := match to m with
                | One address => [address]
                | Many addresses => addresses
                end;
     data_subject := subject m;
     data_html := if str_truthy (html m) then html m else None;
     data_text := if str_truthy (html m) then None
                  else if str_truthy (text m) then text m
                  else Some (subject m) |}.

(** The [try] block of [sendEmail]. *)
Definition sendEmail_try (fromEmail : string) (send : EmailData -> SendReply)
  (m : EmailMessage) : Exn + SendResult :=
  match send (emailData_of fromEmail m) with
  | Responds id error => inr {| success := true; messageId := id; error := error |}
  | SendThrows msg => inl msg
  end.

(** [sendEmail]: the promise it returns settles with a value or rejects. *)
Definition sendEmail (fromEmail : string) (send : EmailData -> SendReply)
  (m : EmailMessage) : Exn + SendResult :=
  match sendEmail_try fromEmail send m with
  | inr r => inr r
  | inl msg => inr {| success := false; messageId := None; error := Some msg |}
  end.

(** [Promise.allSettled]. *)
Inductive Settled (A : Type) : Type :=
| fulfilled (value : A)
| rejected (reason : Exn).

Arguments fulfilled {A} value.
Arguments rejected {A} reason.

Definition allSettled {A : Type} (promises : list (Exn + A)) : list (Settled A) :=
  map (fun p => match p with
                | inr v => fulfilled v
                | inl e => rejected e
                end) promises.

Definition is_fulfilled {A : Type} (s : Settled A) : bool :=
  match s with
  | fulfilled _ => true
  | rejected _ => false
  end.

Record BulkResult := {
  bulk_success : bool;
  bulk_sent : nat;
  bulk_failed : nat;
  bulk_results : list (Settled SendResult)
}.

(** [sendBulkEmail]: no step of its [try] block throws. *)
Definition sendBulkEmail (fromEmail : string) (send : EmailData -> SendReply)
  (messages : list EmailMessage) : BulkResult :=
  let results := allSettled (map (sendEmail fromEmail send) messages) in
  {| bulk_success := true;
     bulk_sent := List.length (filter is_fulfilled results);
     bulk_failed := List.length (filter (fun r => negb (is_fulfilled r)) results);
     bulk_results := results |}.

End Email.

(* ================================================================== *)
(** * Vocabulary of the statements about the routes *)

Module RouteSpec.
Import Js Orchestrator.

(** [response.ok] of the transport for an HTTP status. *)
Definition ok_of_status (status : nat) : bool :=
  (200 <=? status)%nat && (status <=? 299)%nat.

Definition a_campaign_request (act : string) : CampaignRoute.CampaignPayload :=
  {| CampaignRoute.action := act;
     CampaignRoute.input :=
       {| Campaigns.input_restaurant_id := "lullabar";
          Campaigns.input_goal := "Win back regulars";
          Campaigns.campaign_type := Campaigns.email;
          Campaigns.input_target_segments := None;
          Campaigns.input_memory_context := None |};
     CampaignRoute.requested_campaign_id := "" |}.

End RouteSpec.


(* ================================================================== *)
(** * Vocabulary of the statements about a campaign run *)

Module CampaignRunSpec.
Import Js Campaigns.

(** The counters agree with each other: everything sent counts as
    delivered, every failure has its error text, and opens and clicks are
    not recorded. *)
Definition consistent (extra_errors : nat) (r : ExecutionResults) : Prop :=
  delivered r = sent r /\
  List.length (errors r) = (failed r + extra_errors)%nat /\
  opened r = None /\ clicked r = None.

(** The customer analysis does not complete: the segment query throws, or
    the inference errors or returns text that is not JSON. *)
Definition AnalysisFails (env : Env) : Prop :=
  (exists msg, query_segment_counts env = DbThrows msg) \/
  (exists msg, llm_preferences env = LlmError msg) \/
  llm_preferences env = LlmUnparsable.

(** The customer analysis completes with insights that are an object. *)
Definition AnalysisCompletes (env : Env) : Prop :=
  (exists rows, query_segment_counts env = DbRows rows) /\
  (exists segments, llm_preferences env = LlmJson (PreferencesObject segments)).

(** The content generation yields the variants [vs]. *)
Definition ContentYields (env : Env) (vs : list VariantJson) : Prop :=
  llm_content env = LlmJson (ContentVariants vs).

(** The content generation yields no variant: the inference fails, or it
    answers with no variants array or an empty one. *)
Definition ContentFails (env : Env) : Prop :=
  match llm_content env with
  | LlmJson (ContentVariants (_ :: _)) => False
  | _ => True
  end.

Definition a_variant_json (segment : string) : VariantJson :=
  {| json_variant_id := None; json_subject := Some "We miss you";
     json_content := "Come back for 10% off"; json_target_segment := segment |}.

Definition an_input : CampaignInput :=
  {| input_restaurant_id := "lullabar"; input_goal := "Win back regulars";
     campaign_type := email; input_target_segments := None;
     input_memory_context := None |}.

(** The variants [executeCampaign] iterates over. *)
Definition variants_of (state : CampaignState) : list Variant :=
  match content_variants state with
  | Some variants => variants
  | None => []
  end.

(** The segment query of the variant at position [i] throws [e]. *)
Definition SegmentQueryThrows (env : Env) (state : CampaignState) (i : nat) (e : Exn)
  : Prop :=
  exists v : Variant,
    nth_error (variants_of state) i = Some v /\
    query_customers env i
      (fst (buildSegmentQuery (target_segment v) (restaurant_id state)))
      (snd (buildSegmentQuery (target_segment v) (restaurant_id state)))
    = DbThrows e.

(** The first segment query that throws is the one at position [i], with
    [e]. *)
Definition QueryThrowsFirst (env : Env) (state : CampaignState) (i : nat) (e : Exn)
  : Prop :=
  SegmentQueryThrows env state i e /\
  forall (k : nat) (e' : Exn), (k < i)%nat -> ~ SegmentQueryThrows env state k e'.

Definition NoQueryThrows (env : Env) (state : CampaignState) : Prop :=
  forall (i : nat) (e : Exn), ~ SegmentQueryThrows env state i e.

(** An environment in which the inference of the customer analysis fails. *)
Definition inference_down (env : Env) : Env :=
  {| new_campaign_id := new_campaign_id env;
     insert_campaign := insert_campaign env;
     query_segment_counts := query_segment_counts env;
     llm_preferences := LlmError "inference gateway unavailable";
     llm_content := llm_content env;
     query_customers := query_customers env;
     sendEmail := sendEmail env;
     twilio_client := twilio_client env;
     insert_interaction := insert_interaction env;
     update_campaign := update_campaign env;
     llm_monitor := llm_monitor env |}.

(** An environment in which the content generation yields [vs]. *)
Definition writing (vs : list VariantJson) (env : Env) : Env :=
  {| new_campaign_id := new_campaign_id env;
     insert_campaign := insert_campaign env;
     query_segment_counts := query_segment_counts env;
     llm_preferences := llm_preferences env;
     llm_content := LlmJson (ContentVariants vs);
     query_customers := query_customers env;
     sendEmail := sendEmail env;
     twilio_client := twilio_client env;
     insert_interaction := insert_interaction env;
     update_campaign := update_campaign env;
     llm_monitor := llm_monitor env |}.

End CampaignRunSpec.


(* ================================================================== *)
(** * Vocabulary of the statements about plans *)

Module PlanSpec.
Import Js Orchestrator.

(** The computation leaves the task objects and the task queue alone. *)
Definition leaves_tasks {A : Type} (m : M A) : Prop :=
  forall w, heap (fst (m w)) = heap w /\ taskQueue (fst (m w)) = taskQueue w.

(** From [w] to [w'] task objects were only created and tasks were only
    queued: every task object of [w] is as it was, and the queue of [w] is
    a prefix of the queue of [w']. *)
Definition only_adds (w w' : World) : Prop :=
  (exists created, heap w' = (heap w ++ created)%list) /\
  (exists queued, taskQueue w' = (taskQueue w ++ queued)%list).

(** The goal analysis finds the request complex, with main goal [g]. *)
Definition PlansGoal (g : string) (replies : list LlmReply) : Prop :=
  exists reasoning rest,
    replies = LlmContent (Some (JsonGoalAnalysis true g reasoning)) :: rest.

(** The task is still as it was planned. *)
Definition untouched_task (w : World) (t : TaskRef) : Prop :=
  task_field status pending w t = pending /\ task_field result None w t = None.

(** Two planned tasks: the first waits for the second, the second is
    ready. *)
Definition second_first : list TaskDescriptor :=
  [ {| td_id := "task_1"; td_type := action; td_description := "Send the offer";
       td_priority := 1; td_agent := Some "campaigns";
       td_dependencies := Some ["task_2"] |};
    {| td_id := "task_2"; td_type := analysis; td_description := "Segment the customers";
       td_priority := 2; td_agent := Some "crm"; td_dependencies := None |} ].

Definition planning_world : World :=
  RoutingSpec.idle
    [ LlmContent (Some (JsonGoalAnalysis true "Win back loyal customers" "multi-step"));
      LlmContent (Some (JsonTasks second_first)) ]
    [ FetchRejects "connect ECONNREFUSED 127.0.0.1:3000" ].

End PlanSpec.


(* ================================================================== *)
(** * app/api/health: the health check *)

Module Health.
Import Js Postgres.

Definition version_sql : string := "SELECT NOW() as current_time, version() as pg_version".

Definition tables_sql : string :=
  lines
  [ "";
    "      SELECT table_name ";
    "      FROM information_schema.tables ";
    "      WHERE table_schema = 'public' ";
    "      AND table_name IN ('restaurants', 'customers', 'conversations', 'agent_memory', 'campaigns')";
    "      ORDER BY table_name";
    "    " ].

Definition requiredTables : list string :=
  ["restaurants"; "customers"; "conversations"; "agent_memory"; "campaigns"].

(** [s.split(' ')]. *)
Fixpoint split_spaces (s : string) : list string :=
  match s with
  | EmptyString => [EmptyString]
  | String c rest =>
      let parts := split_spaces rest in
      if (c =? " ")%char then EmptyString :: parts
      else match parts with
           | p :: ps => String c p :: ps
           | [] => [String c EmptyString]
           end
  end.

(** [result.data?.[0]]. *)
Definition first_row (r : QueryResult) : option Row :=
  match data r with
  | Some (row :: _) => Some row
  | _ => None
  end.

(** [result.data?.[0]?.current_time]. *)
Definition timestamp_of (r : QueryResult) : Value :=
  match first_row r with
  | Some row => field "current_time" row
  | None => Undefined
  end.

(** [result.data?.[0]?.pg_version?.split(' ').slice(0, 2).join(' ')]: a
    value that is neither absent nor a string has no [split]. *)
Definition version_of (r : QueryResult) : Exn + option string :=
  match first_row r with
  | None => inr None
  | Some row =>
      match field "pg_version" row with
      | Undefined | Null => inr None
      | Str s => inr (Some (join " " (slice 0 2 (split_spaces s))))
      | _ => inl "result.data?.[0]?.pg_version?.split is not a function"
      end
  end.

(** [tableCheck.data?.map(row => row.table_name) || []]. *)
Definition existing_of (tableCheck : QueryResult) : list Value :=
  match data tableCheck with
  | Some rows => map (field "table_name") rows
  | None => []
  end.

(** [existingTables.includes(table)]. *)
Definition includes_table (existingTables : list Value) (table : string) : bool :=
  existsb (fun v => match v with
                    | Str s => s =? table
                    | _ => false
                    end) existingTables.

Record Report := {
  connected : bool;
  timestamp : Value;
  version : option string;
  existing : list Value;
  missing : list string;
  allTablesExist : bool;
  setup_message : string
}.

Inductive HealthBody :=
| Healthy (report : Report)
| Unhealthy (error : string).

Record Reply := {
  status : nat;
  body : HealthBody
}.

Definition unhealthy (error : Exn) : Reply :=
  {| status := 500; body := Unhealthy error |}.

Definition GET (executeQuery : Callee) : Reply :=
  match executeQuery (version_sql, []) with
  | inl error => unhealthy error
  | inr result =>
      match executeQuery (tables_sql, []) with
      | inl error => unhealthy error
      | inr tableCheck =>
          let existingTables := existing_of tableCheck in
          let missingTables :=
            filter (fun table => negb (includes_table existingTables table)) requiredTables in
          match version_of result with
          | inl error => unhealthy error
          | inr v =>
              {| status := 200;
                 body := Healthy
                   {| connected := true;
                      timestamp := timestamp_of result;
                      version := v;
                      existing := existingTables;
                      missing := missingTables;
                      allTablesExist := (List.length missingTables =? 0)%nat;
                      setup_message :=
                        if (0 <? List.length missingTables)%nat
                        then "Some tables are missing. Run database setup."
                        else "All required tables exist" |} |}
          end
      end
  end.

End Health.

(* ================================================================== *)
(** * app/api/setup/database: the schema setup *)

Module Setup.
Import Js Postgres.

Definition dq : string := String (ascii_of_nat 34) EmptyString.

Definition queries : list string :=
  [ "CREATE EXTENSION IF NOT EXISTS " ++ dq ++ "uuid-ossp" ++ dq;
    lines
    [ "CREATE TABLE IF NOT EXISTS restaurants (";
      "        id SERIAL PRIMARY KEY,";
      "        name VARCHAR(255) NOT NULL,";
      "        address TEXT,";
      "        phone VARCHAR(20),";
      "        email VARCHAR(255),";
      "        settings JSONB DEFAULT '{}',";
      "        created_at TIMESTAMP DEFAULT CURRENT_TIMESTAMP,";
      "        updated_at TIMESTAMP DEFAULT CURRENT_TIMESTAMP";
      "      )" ];
    lines
    [ "CREATE TABLE IF NOT EXISTS customers (";
      "        id SERIAL PRIMARY KEY,";
      "        restaurant_id INTEGER REFERENCES restaurants(id),";
      "        name VARCHAR(255),";
      "        email VARCHAR(255),";
      "        phone VARCHAR(20),";
      "        preferences JSONB DEFAULT '{}',";
      "        segment VARCHAR(50),";
      "        loyalty_points INTEGER DEFAULT 0,";
      "        visit_count INTEGER DEFAULT 0,";
      "        last_visit TIMESTAMP,";
      "        created_at TIMESTAMP DEFAULT CURRENT_TIMESTAMP,";
      "        updated_at TIMESTAMP DEFAULT CURRENT_TIMESTAMP";
      "      )" ];
    lines
    [ "CREATE TABLE IF NOT EXISTS agent_memory (";
      "        id SERIAL PRIMARY KEY,";
      "        session_id VARCHAR(255) UNIQUE NOT NULL,";
      "        customer_id INTEGER REFERENCES customers(id),";
      "        conversation_history JSONB DEFAULT '[]',";
      "        facts JSONB DEFAULT '{}',";
      "        preferences JSONB DEFAULT '{}',";
      "        context JSONB DEFAULT '{}',";
      "        goals JSONB DEFAULT '[]',";
      "        tasks JSONB DEFAULT '{}',";
      "        created_at TIMESTAMP DEFAULT CURRENT_TIMESTAMP,";
      "        updated_at TIMESTAMP DEFAULT CURRENT_TIMESTAMP";
      "      )" ];
    lines
    [ "CREATE TABLE IF NOT EXISTS conversations (";
      "        id SERIAL PRIMARY KEY,";
      "        session_id VARCHAR(255),";
      "        customer_id INTEGER REFERENCES customers(id),";
      "        agent_type VARCHAR(50),";
      "        input TEXT,";
      "        output TEXT,";
      "        confidence_score FLOAT,";
      "        memory_updates JSONB,";
      "        metadata JSONB DEFAULT '{}',";
      "        created_at TIMESTAMP DEFAULT CURRENT_TIMESTAMP";
      "      )" ];
    lines
    [ "CREATE TABLE IF NOT EXISTS campaigns (";
      "        id SERIAL PRIMARY KEY,";
      "        restaurant_id INTEGER REFERENCES restaurants(id),";
      "        name VARCHAR(255) NOT NULL,";
      "        description TEXT,";
      "        target_segment VARCHAR(50),";
      "        status VARCHAR(20) DEFAULT 'draft',";
      "        content JSONB,";
      "        metrics JSONB DEFAULT '{}',";
      "        execution_date TIMESTAMP,";
      "        created_at TIMESTAMP DEFAULT CURRENT_TIMESTAMP,";
      "        updated_at TIMESTAMP DEFAULT CURRENT_TIMESTAMP";
      "      )" ];
    lines
    [ "CREATE TABLE IF NOT EXISTS menu_items (";
      "        id SERIAL PRIMARY KEY,";
      "        restaurant_id INTEGER REFERENCES restaurants(id),";
      "        name VARCHAR(255) NOT NULL,";
      "        description TEXT,";
      "        price DECIMAL(10,2),";
      "        category VARCHAR(100),";
      "        ingredients JSONB DEFAULT '[]',";
      "        allergens JSONB DEFAULT '[]',";
      "        available BOOLEAN DEFAULT true,";
      "        created_at TIMESTAMP DEFAULT CURRENT_TIMESTAMP,";
      "        updated_at TIMESTAMP DEFAULT CURRENT_TIMESTAMP";
      "      )" ];
    "CREATE INDEX IF NOT EXISTS idx_customers_restaurant ON customers(restaurant_id)";
    "CREATE INDEX IF NOT EXISTS idx_conversations_session ON conversations(session_id)";
    "CREATE INDEX IF NOT EXISTS idx_agent_memory_session ON agent_memory(session_id)";
    "CREATE INDEX IF NOT EXISTS idx_campaigns_restaurant ON campaigns(restaurant_id)" ].

Definition sample_restaurant_sql : string :=
  lines
  [ "";
    "        INSERT INTO restaurants (name, phone, email, address) ";
    "        VALUES ($1, $2, $3, $4) ";
    "        ON CONFLICT DO NOTHING";
    "        RETURNING id";
    "      " ].

Definition sample_menu_sql : string :=
  lines
  [ "";
    "        INSERT INTO menu_items (restaurant_id, name, description, price, category, ingredients, allergens) ";
    "        VALUES ";
    "          (1, 'Pad Thai', 'Traditional Thai stir-fried noodles with shrimp', 16.99, 'Entrees', $1, $2),";
    "          (1, 'Green Curry', 'Spicy coconut curry with chicken and vegetables', 18.99, 'Entrees', $3, '[]'),";
    "          (1, 'Tom Yum Soup', 'Hot and sour Thai soup with shrimp', 12.99, 'Soups', $4, $5),";
    "          (1, 'Mango Sticky Rice', 'Traditional Thai dessert', 8.99, 'Desserts', $6, '[]')";
    "        ON CONFLICT DO NOTHING";
    "      " ].

Definition sample_menu_params : list SqlParam :=
  [ SqlText ("[" ++ dq ++ "rice noodles" ++ dq ++ "," ++ dq ++ "shrimp" ++ dq ++ "," ++ dq ++ "bean sprouts" ++ dq ++ "," ++ dq ++ "peanuts" ++ dq ++ "]");
    SqlText ("[" ++ dq ++ "shellfish" ++ dq ++ "," ++ dq ++ "peanuts" ++ dq ++ "]");
    SqlText ("[" ++ dq ++ "chicken" ++ dq ++ "," ++ dq ++ "coconut milk" ++ dq ++ "," ++ dq ++ "thai basil" ++ dq ++ "," ++ dq ++ "bamboo shoots" ++ dq ++ "]");
    SqlText ("[" ++ dq ++ "shrimp" ++ dq ++ "," ++ dq ++ "lemongrass" ++ dq ++ "," ++ dq ++ "lime leaves" ++ dq ++ "," ++ dq ++ "mushrooms" ++ dq ++ "]");
    SqlText ("[" ++ dq ++ "shellfish" ++ dq ++ "]");
    SqlText ("[" ++ dq ++ "sticky rice" ++ dq ++ "," ++ dq ++ "coconut milk" ++ dq ++ "," ++ dq ++ "fresh mango" ++ dq ++ "]") ].

Definition sample_restaurant_params : list SqlParam :=
  [ SqlText "Lullabar Thai Fusion & Izakaya";
    SqlText "+19388888496";
    SqlText "info@lullabarlv.com";
    SqlText "6590 S Rainbow Blvd, Las Vegas, NV 89118" ].

Record Entry := {
  entry_query : string;
  entry_success : bool;
  entry_error : option string
}.

(** [query.substring(0, 50) + '...']. *)
Definition shorten (query : string) : string := substring 0 50 query ++ "...".

(** One iteration of the loop over the statements: its [try] and [catch]. *)
Definition run_statement (executeQuery : Callee) (query : string) : Entry :=
  match executeQuery (query, []) with
  | inr _ => {| entry_query := shorten query; entry_success := true; entry_error := None |}
  | inl error =>
      {| entry_query := shorten query; entry_success := false; entry_error := Some error |}
  end.

(** The [try] block around the sample data and its [catch]. *)
Definition insert_samples (executeQuery : Callee) : Entry :=
  match executeQuery (sample_restaurant_sql, sample_restaurant_params) with
  | inl error =>
      {| entry_query := "Sample data insertion"; entry_success := false;
         entry_error := Some error |}
  | inr _ =>
      match executeQuery (sample_menu_sql, sample_menu_params) with
      | inl error =>
          {| entry_query := "Sample data insertion"; entry_success := false;
             entry_error := Some error |}
      | inr _ =>
          {| entry_query := "Sample data insertion"; entry_success := true;
             entry_error := None |}
      end
  end.

Record Reply := {
  status : nat;
  success : bool;
  message : string;
  results : list Entry;
  tablesCreated : list string
}.

Definition POST (executeQuery : Callee) : Reply :=
  {| status := 200;
     success := true;
     message := "Database setup completed";
     results := (map (run_statement executeQuery) queries ++ [insert_samples executeQuery])%list;
     tablesCreated :=
       ["restaurants"; "customers"; "agent_memory"; "conversations"; "campaigns";
        "menu_items"] |}.

End Setup.


(* ================================================================== *)
(** * Properties of the routing engine *)

Module RoutingProofs.
Import Js Orchestrator RoutingSpec.

Lemma valid_agent_test (a : string) :
  existsb (String.eqb a) validAgents = false <-> ~ In a validAgents.
Proof.
  split.
  - intros E H.
    assert (X : existsb (String.eqb a) validAgents = true).
    { apply existsb_exists. exists a. split; [exact H | apply String.eqb_refl]. }
    congruence.
  - intros H. destruct (existsb (String.eqb a) validAgents) eqn:E; [|reflexivity].
    apply existsb_exists in E. destruct E as [x [Hin Heq]].
    apply String.eqb_eq in Heq. subst x. contradiction.
Qed.

Lemma getOrCreateMemory_llm (sid : string) (w : World) :
  llm (fst (getOrCreateMemory sid w)) = llm w /\
  snd (getOrCreateMemory sid w) = Normal sid.
Proof.
  unfold getOrCreateMemory, bind, gets, modify, ret.
  destruct (map_has (memory w) sid); simpl; auto.
Qed.

(** C2, as amended. When the routing inference errors or returns text that
    is not JSON, [routeToAgent] returns the keyword heuristic's result for
    the raw message; when it returns a handler name outside the known
    identifiers, [routeToAgent] returns the fixed default (the operations
    handler, confidence 0.6) without consulting the heuristic. *)
Theorem routeToAgent_failure_paths :
  forall (request : AgentRequest) (w : World),
    (InferenceFails (llm w) ->
     snd (routeToAgent request w) = Normal (fallbackRouting (message request))) /\
    (UnknownHandler (llm w) ->
     snd (routeToAgent request w) = Normal default_routing).
Proof.
  intros request w.
  destruct (getOrCreateMemory_llm (session_of request) w) as [Hl Hr].
  split; intro H;
    unfold routeToAgent; cbv zeta; unfold bind at 1;
    destruct (getOrCreateMemory (session_of request) w) as [w1 c];
    simpl in Hl, Hr; subst c;
    unfold try_catch, bind, llm_invoke, JSON_parse, ret, throw;
    rewrite Hl; inversion H; subst; simpl; try reflexivity.
  match goal with
  | Hn : ~ In _ validAgents |- _ =>
      apply valid_agent_test in Hn; simpl in Hn; rewrite Hn
  end.
  reflexivity.
Qed.

Lemma routeToAgent_failure_paths_witness :
  snd (routeToAgent call_request (idle [LlmContent None] [])) =
    Normal (fallbackRouting (message call_request)) /\
  snd (routeToAgent call_request (idle [billing_reply] [])) = Normal default_routing.
Proof.
  split.
  - apply (proj1 (routeToAgent_failure_paths call_request (idle [LlmContent None] []))).
    simpl. constructor.
  - apply (proj2 (routeToAgent_failure_paths call_request (idle [billing_reply] []))).
    simpl. constructor. simpl. intros H.
    repeat (destruct H as [H | H]; [discriminate H |]). exact H.
Defined.

(** C2, as stated, fails: on "Please call me back about my order" the
    heuristic picks the voice handler, but an answer naming the unknown
    handler "billing" makes [routeToAgent] return the fixed default. *)
Lemma routeToAgent_unknown_handler_skips_heuristic :
  UnknownHandler (llm (idle [billing_reply] [])) /\
  routed_agent (fallbackRouting (message call_request)) = "voice" /\
  snd (routeToAgent call_request (idle [billing_reply] [])) = Normal default_routing /\
  snd (routeToAgent call_request (idle [billing_reply] []))
    <> Normal (fallbackRouting (message call_request)).
Proof.
  split; [|split; [|split]].
  - simpl. constructor. simpl. intros H.
    repeat (destruct H as [H | H]; [discriminate H |]). exact H.
  - reflexivity.
  - reflexivity.
  - vm_compute. discriminate.
Qed.

(** The heuristic on sample messages: the keyword sets are tried in the
    order campaign creation, voice, customer and loyalty, marketing. *)
Example fallbackRouting_reservation :
  fallbackRouting "Can I get reservations for tonight?"
  = {| routed_agent := "postgres"; routing_confidence := 0.5;
       reasoning := "Default restaurant operations routing" |}.
Proof. reflexivity. Qed.

Example fallbackRouting_campaign_setup :
  routed_agent (fallbackRouting "Setup an EMAIL CAMPAIGN for loyalty members")
  = "orchestrator".
Proof. reflexivity. Qed.

Example fallbackRouting_voice_before_crm :
  routed_agent (fallbackRouting "call the customer") = "voice".
Proof. reflexivity. Qed.

Example fallbackRouting_crm_before_marketing :
  routed_agent (fallbackRouting "loyalty email") = "crm".
Proof. reflexivity. Qed.

Example routeToAgent_gateway_down :
  snd (routeToAgent
         {| message := "Can I get reservations for tonight?"; request_context := None |}
         (idle [LlmError "timeout"] []))
  = Normal (fallbackRouting "Can I get reservations for tonight?").
Proof. reflexivity. Qed.

Local Open Scope Q_scope.

(** C8. For every message, the confidence returned by the fallback routing
    path is strictly positive and at most 0.7. *)
Theorem fallbackRouting_confidence_bounds :
  forall msg : string,
    0 < routing_confidence (fallbackRouting msg) /\
    routing_confidence (fallbackRouting msg) <= 0.7.
Proof.
  intro msg. unfold fallbackRouting.
  repeat match goal with
         | |- context [if ?b then _ else _] => destruct b
         end; simpl; split; reflexivity || discriminate.
Qed.

End RoutingProofs.

(* ================================================================== *)
(** * Properties of the memory store *)

Module MemoryProofs.
Import Js Orchestrator MemorySpec.

Section MapLaws.
Variable V : Type.
Implicit Types (m : Map V) (k : string) (v : V).

Lemma map_get_set m k v k' :
  map_get (map_set m k v) k' = if k =? k' then Some v else map_get m k'.
Proof.
  induction m as [|[k0 v0] rest IH]; simpl.
  - reflexivity.
  - destruct (k0 =? k) eqn:E0; simpl.
    + apply String.eqb_eq in E0. subst k0.
      destruct (k =? k'); reflexivity.
    + rewrite IH. destruct (k0 =? k') eqn:E1; [|reflexivity].
      apply String.eqb_eq in E1. subst k0. rewrite String.eqb_sym, E0. reflexivity.
Qed.

Lemma map_get_set_same m k v : map_get (map_set m k v) k = Some v.
Proof. rewrite map_get_set, String.eqb_refl. reflexivity. Qed.

Lemma map_get_set_other m k v k' :
  k <> k' -> map_get (map_set m k v) k' = map_get m k'.
Proof.
  intro H. rewrite map_get_set. apply String.eqb_neq in H. rewrite H. reflexivity.
Qed.

End MapLaws.

(** ** The store *)

Lemma mutate_memory_present (ref : string) (f : AgentMemory -> AgentMemory)
  (w : World) (m : AgentMemory) :
  getMemory w ref = Some m ->
  snd (mutate_memory ref f w) = Normal tt /\
  getMemory (fst (mutate_memory ref f w)) ref = Some (f m) /\
  (forall other, other <> ref ->
     getMemory (fst (mutate_memory ref f w)) other = getMemory w other).
Proof.
  unfold getMemory, mutate_memory, modify. simpl. intro H. rewrite H.
  split; [reflexivity|]. split.
  - apply map_get_set_same.
  - intros other Ho. apply map_get_set_other. congruence.
Qed.

Lemma mutate_memory_absent (ref : string) (f : AgentMemory -> AgentMemory) (w : World) :
  getMemory w ref = None -> mutate_memory ref f w = (w, Normal tt).
Proof.
  unfold getMemory, mutate_memory, modify, with_memory. intro H. rewrite H.
  destruct w; reflexivity.
Qed.

Lemma getOrCreateMemory_spec (sid : string) (w : World) :
  snd (getOrCreateMemory sid w) = Normal sid /\
  getMemory (fst (getOrCreateMemory sid w)) sid = Some (deref w sid) /\
  (forall other, other <> sid ->
     getMemory (fst (getOrCreateMemory sid w)) other = getMemory w other).
Proof.
  unfold getOrCreateMemory, bind, gets, modify, ret, deref, getMemory, map_has.
  destruct (map_get (memory w) sid) eqn:E; simpl.
  - rewrite E. auto.
  - split; [reflexivity|]. split.
    + apply map_get_set_same.
    + intros other Ho. apply map_get_set_other. congruence.
Qed.

(** ** The update loop *)

Lemma get_property (v : Value) (name : string) :
  nullish v = false -> get v name = inr (property name v).
Proof. destruct v; simpl; intro H; try discriminate; reflexivity. Qed.

Lemma apply_update_goal (m : AgentMemory) (u : MemoryUpdate) :
  upd_type u = goal -> nullish (upd_value u) = false ->
  apply_update m u = inr (with_goals (fun gs => (gs ++ [goal_of u])%list) m).
Proof.
  intros Ht Hv. unfold apply_update. rewrite Ht.
  rewrite !get_property by exact Hv. reflexivity.
Qed.

Lemma updateMemory_loop_spec (updates : list MemoryUpdate) :
  applicable updates = true ->
  forall m : AgentMemory,
  exists m' : AgentMemory,
    updateMemory_loop m updates = (m', None) /\
    (forall key,
       map_get (facts m') key =
       match last_write fact key updates with
       | Some u => Some (fact_of u)
       | None => map_get (facts m) key
       end) /\
    (forall key,
       map_get (preferences m') key =
       match last_write preference key updates with
       | Some u => Some (preference_of u)
       | None => map_get (preferences m) key
       end) /\
    goals m' = (goals m ++ map goal_of (filter is_goal updates))%list.
Proof.
  induction updates as [|u rest IH]; intros Happ m.
  - exists m. simpl. rewrite app_nil_r. auto.
  - simpl in Happ. apply andb_true_iff in Happ. destruct Happ as [Hu Hrest].
    specialize (IH Hrest).
    assert (Hstep : exists m1,
      apply_update m u = inr m1 /\
      (forall key, map_get (facts m1) key =
         if writes fact key u then Some (fact_of u) else map_get (facts m) key) /\
      (forall key, map_get (preferences m1) key =
         if writes preference key u then Some (preference_of u)
         else map_get (preferences m) key) /\
      goals m1 = (goals m ++ if is_goal u then [goal_of u] else [])%list).
    { unfold writes, is_goal in *. destruct (upd_type u) eqn:Et; simpl in *.
      - eexists. split; [unfold apply_update; rewrite Et; reflexivity|].
        simpl. rewrite app_nil_r. repeat split; auto.
        intro key. apply map_get_set.
      - eexists. split; [unfold apply_update; rewrite Et; reflexivity|].
        simpl. rewrite app_nil_r. repeat split; auto.
        intro key. apply map_get_set.
      - eexists. split; [unfold apply_update; rewrite Et; reflexivity|].
        simpl. rewrite app_nil_r. repeat split; auto.
      - apply negb_true_iff in Hu.
        eexists. split; [apply apply_update_goal; assumption|].
        simpl. repeat split; auto. }
    destruct Hstep as [m1 [Hm1 [Hf [Hp Hg]]]].
    destruct (IH m1) as [m' [Hloop [Hf' [Hp' Hg']]]].
    exists m'. simpl. rewrite Hm1. split; [exact Hloop|].
    split; [|split].
    + intro key. rewrite Hf'. destruct (last_write fact key rest); [reflexivity|].
      rewrite Hf. destruct (writes fact key u); reflexivity.
    + intro key. rewrite Hp'. destruct (last_write preference key rest); [reflexivity|].
      rewrite Hp. destruct (writes preference key u); reflexivity.
    + rewrite Hg', Hg. destruct (is_goal u); simpl.
      * rewrite <- app_assoc. reflexivity.
      * rewrite app_nil_r. reflexivity.
Qed.

(** ** Reordering *)

Lemma writes_same_key (ty : UpdateType) (key : string) (u1 u2 : MemoryUpdate) :
  upd_key u1 <> upd_key u2 -> writes ty key u1 = true -> writes ty key u2 = false.
Proof.
  unfold writes. intros Hk H1.
  apply andb_true_iff in H1. destruct H1 as [_ H1]. apply String.eqb_eq in H1.
  apply andb_false_iff. right. apply String.eqb_neq. congruence.
Qed.

Lemma last_write_reordered (ty : UpdateType) (key : string) (l l' : list MemoryUpdate) :
  Reordered l l' -> last_write ty key l = last_write ty key l'.
Proof.
  induction 1 as [l | l1 u1 u2 l2 Hk | l1 l2 l3 _ IH1 _ IH2].
  - reflexivity.
  - induction l1 as [|x l1 IH]; simpl.
    + destruct (last_write ty key l2); [reflexivity|].
      destruct (writes ty key u1) eqn:E1, (writes ty key u2) eqn:E2; try reflexivity.
      rewrite (writes_same_key ty key u1 u2 Hk E1) in E2. discriminate.
    + rewrite IH. reflexivity.
  - congruence.
Qed.

Lemma applicable_reordered (l l' : list MemoryUpdate) :
  Reordered l l' -> applicable l = applicable l'.
Proof.
  unfold applicable.
  induction 1 as [l | l1 u1 u2 l2 Hk | l1 l2 l3 _ IH1 _ IH2].
  - reflexivity.
  - rewrite !forallb_app. simpl.
    f_equal. rewrite !andb_assoc. f_equal. apply andb_comm.
  - congruence.
Qed.

(** ** [updateMemory] *)

Lemma read_fact_deref (w : World) (sid key : string) :
  read_fact w sid key = map_get (facts (deref w sid)) key.
Proof. unfold read_fact, deref. destruct (getMemory w sid); reflexivity. Qed.

Lemma read_preference_deref (w : World) (sid key : string) :
  read_preference w sid key = map_get (preferences (deref w sid)) key.
Proof. unfold read_preference, deref. destruct (getMemory w sid); reflexivity. Qed.

Lemma read_goals_deref (w : World) (sid : string) :
  read_goals w sid = goals (deref w sid).
Proof. unfold read_goals, deref. destruct (getMemory w sid); reflexivity. Qed.

Lemma deref_present (w : World) (sid : string) (m : AgentMemory) :
  getMemory w sid = Some m -> deref w sid = m.
Proof. unfold deref. intro H. rewrite H. reflexivity. Qed.

Lemma updateMemory_run (sid : string) (updates : list MemoryUpdate) (w : World)
  (m' : AgentMemory) :
  updateMemory_loop (deref w sid) updates = (m', None) ->
  exists w', updateMemory sid updates w = (w', Normal tt) /\ getMemory w' sid = Some m'.
Proof.
  intro Hloop.
  destruct (getOrCreateMemory_spec sid w) as [Hc [Hget _]].
  unfold updateMemory. unfold bind at 1.
  destruct (getOrCreateMemory sid w) as [w1 c]. simpl in Hc, Hget. subst c.
  unfold bind at 1, gets at 1.
  rewrite (deref_present w1 sid _ Hget), Hloop.
  destruct (mutate_memory_present sid (fun _ => m') w1 _ Hget) as [Hc' [Hget' _]].
  unfold bind. destruct (mutate_memory sid (fun _ => m') w1) as [w2 c'].
  simpl in Hc', Hget'. subst c'. exists w2. simpl. auto.
Qed.

(** C7, as amended. For every list of memory updates in which no goal update
    carries the value undefined or null, applied to a session: [updateMemory]
    returns; reading back a fact or a preference yields the entry written by
    the last update of that kind and key in the list (or what was stored
    before, when there is none); the entry read back at every key is the same
    after any reordering that exchanges updates with different keys (the
    order of the entries in the Maps is not: it follows first insertion); and
    every goal update appends one new goal, so two goal updates with the same
    description give two goals. *)
Theorem updateMemory_last_write_wins :
  forall (w : World) (sid : string) (updates : list MemoryUpdate),
    applicable updates = true ->
    let w' := fst (updateMemory sid updates w) in
    snd (updateMemory sid updates w) = Normal tt /\
    (forall key,
       read_fact w' sid key =
       match last_write fact key updates with
       | Some u => Some (fact_of u)
       | None => read_fact w sid key
       end) /\
    (forall key,
       read_preference w' sid key =
       match last_write preference key updates with
       | Some u => Some (preference_of u)
       | None => read_preference w sid key
       end) /\
    (forall updates', Reordered updates updates' ->
       forall key,
         read_fact (fst (updateMemory sid updates' w)) sid key = read_fact w' sid key /\
         read_preference (fst (updateMemory sid updates' w)) sid key
           = read_preference w' sid key) /\
    read_goals w' sid = (read_goals w sid ++ map goal_of (filter is_goal updates))%list /\
    List.length (read_goals w' sid)
      = (List.length (read_goals w sid) + List.length (filter is_goal updates))%nat.
Proof.
  intros w sid updates Happ w'.
  assert (Hall : forall us, applicable us = true ->
    snd (updateMemory sid us w) = Normal tt /\
    (forall key, read_fact (fst (updateMemory sid us w)) sid key =
       match last_write fact key us with
       | Some u => Some (fact_of u)
       | None => read_fact w sid key
       end) /\
    (forall key, read_preference (fst (updateMemory sid us w)) sid key =
       match last_write preference key us with
       | Some u => Some (preference_of u)
       | None => read_preference w sid key
       end) /\
    read_goals (fst (updateMemory sid us w)) sid
      = (read_goals w sid ++ map goal_of (filter is_goal us))%list).
  { intros us Hus.
    destruct (updateMemory_loop_spec us Hus (deref w sid)) as [m' [Hloop [Hf [Hp Hg]]]].
    destruct (updateMemory_run sid us w m' Hloop) as [w1 [Hrun Hget]].
    rewrite Hrun. simpl.
    split; [reflexivity|].
    split; [|split].
    - intro key. rewrite (read_fact_deref w).
      unfold read_fact. rewrite Hget. apply Hf.
    - intro key. rewrite (read_preference_deref w).
      unfold read_preference. rewrite Hget. apply Hp.
    - rewrite (read_goals_deref w). unfold read_goals at 1. rewrite Hget. exact Hg. }
  destruct (Hall updates Happ) as [Hc [Hf [Hp Hg]]].
  subst w'.
  split; [exact Hc|]. split; [exact Hf|]. split; [exact Hp|]. split; [|split].
  - intros updates' Hre key.
    assert (Happ' : applicable updates' = true)
      by (rewrite <- (applicable_reordered updates updates' Hre); exact Happ).
    destruct (Hall updates' Happ') as [_ [Hf' [Hp' _]]].
    rewrite Hf', Hp', Hf, Hp.
    rewrite !(last_write_reordered _ key updates updates' Hre). auto.
  - exact Hg.
  - rewrite Hg, length_app, length_map. reflexivity.
Qed.

Lemma updateMemory_last_write_wins_witness :
  let w' := fst (updateMemory "s1" sample_updates (RoutingSpec.idle [] [])) in
  read_fact w' "s1" "diet"
    = Some (fact_of (an_update fact "diet" (Str "vegetarian") 3)) /\
  List.length (read_goals w' "s1") = 2%nat.
Proof.
  pose proof (updateMemory_last_write_wins (RoutingSpec.idle [] []) "s1" sample_updates
                eq_refl) as H.
  cbv zeta in H. destruct H as [_ [Hf [_ [_ [_ Hlen]]]]].
  split.
  - rewrite (Hf "diet"). reflexivity.
  - rewrite Hlen. reflexivity.
Defined.

(** C7, as stated, fails: a goal update whose value is null makes
    [updateMemory] throw at that update: the goal is not appended and the
    later update of [diet] is not applied, so [diet] reads back the first
    value, not the last of the list.
    And two fact updates with different keys, exchanged, leave Maps that
    differ in the order of their entries, which [buildMemoryContext] hands
    on. *)
Lemma updateMemory_unreadable_goal_loses_updates :
  (exists (w' : World) (e : Exn),
     updateMemory "s1" unreadable_updates (RoutingSpec.idle [] []) = (w', Throw e) /\
     last_write fact "diet" unreadable_updates
       = Some (an_update fact "diet" (Str "vegetarian") 3) /\
     read_fact w' "s1" "diet" = Some (fact_of (an_update fact "diet" (Str "vegan") 1)) /\
     List.length (filter is_goal unreadable_updates) = 1%nat /\
     read_goals w' "s1" = []) /\
  (Reordered two_facts (rev two_facts) /\
   applicable two_facts = true /\
   map fst (RequestPipeline.recent_facts
              (RequestPipeline.buildMemoryContext
                 (deref (fst (updateMemory "s1" two_facts (RoutingSpec.idle [] []))) "s1")))
     = ["diet"; "seat"] /\
   map fst (RequestPipeline.recent_facts
              (RequestPipeline.buildMemoryContext
                 (deref (fst (updateMemory "s1" (rev two_facts) (RoutingSpec.idle [] [])))
                    "s1")))
     = ["seat"; "diet"]).
Proof.
  split.
  - eexists. eexists. split; [vm_compute; reflexivity|]. repeat split.
  - split; [|repeat split].
    apply (reordered_swap [] _ _ []). discriminate.
Qed.

(** ** Clearing a session *)

Lemma mutate_memory_run (ref : string) (f : AgentMemory -> AgentMemory)
  (w : World) (m : AgentMemory) :
  getMemory w ref = Some m ->
  exists w', mutate_memory ref f w = (w', Normal tt) /\
    getMemory w' ref = Some (f m) /\
    (forall other, other <> ref -> getMemory w' other = getMemory w other) /\
    same_environment w w'.
Proof.
  intro H. eexists. split; [reflexivity|].
  unfold getMemory in *. simpl. rewrite H.
  split; [apply map_get_set_same|]. split.
  - intros other Ho. apply map_get_set_other. congruence.
  - repeat split.
Qed.


End MemoryProofs.

(* ================================================================== *)
(** * Properties of the task selection *)

Module SelectionProofs.
Import Js Orchestrator TaskSpec.

Lemma no_dependencies_ready (h : list Task) (tasks : list TaskRef) (task : Task) :
  no_dependencies task = true -> ready h tasks task = true.
Proof.
  unfold no_dependencies, ready, dependency_list.
  destruct (dependencies task) as [[|d deps]|]; simpl; intro H;
    try reflexivity; discriminate.
Qed.

Lemma find_first_split {A : Type} (p : A -> bool) (l : list A) (x : A) :
  List.find p l = Some x ->
  p x = true /\
  exists pre post, l = (pre ++ x :: post)%list /\ forall y, In y pre -> p y = false.
Proof.
  induction l as [|a rest IH]; simpl; intro H; [discriminate|].
  destruct (p a) eqn:Ea.
  - injection H as ->. split; [exact Ea|].
    exists [], rest. split; [reflexivity|]. intros y [].
  - destruct (IH H) as [Hp [pre [post [Hl Hpre]]]].
    split; [exact Hp|].
    exists (a :: pre), post. split; [rewrite Hl; reflexivity|].
    intros y [Hy|Hy]; [subst y; exact Ea | apply Hpre; exact Hy].
Qed.

Lemma find_first_task_priority (f : Task -> Z) (h : list Task) (tasks : list TaskRef) :
  find_first_task (map (fun t => with_priority (f t) t) h) tasks = find_first_task h tasks.
Proof.
  unfold find_first_task, find. induction tasks as [|t rest IH]; simpl; [reflexivity|].
  rewrite nth_error_map. destruct (nth_error h t) as [task|]; simpl.
  - unfold no_dependencies at 1. simpl. fold (no_dependencies task).
    destruct (no_dependencies task); [reflexivity | exact IH].
  - exact IH.
Qed.

(** C3, as amended. The task selected for execution is the first task in
    insertion order that declares no dependency (no list, or an empty one).
    It is ready, and a task one of whose dependencies is not completed is
    never selected.  The priority is not consulted: changing the priorities
    does not change the selection. *)
Theorem find_first_task_selects_first_without_dependencies :
  forall (h : list Task) (tasks : list TaskRef) (t : TaskRef),
    find_first_task h tasks = Some t ->
    (exists task pre post,
        nth_error h t = Some task /\
        tasks = (pre ++ t :: post)%list /\
        no_dependencies task = true /\
        (forall t' task', In t' pre -> nth_error h t' = Some task' ->
                          no_dependencies task' = false) /\
        ready h tasks task = true) /\
    (forall t' task', nth_error h t' = Some task' ->
                      ready h tasks task' = false -> t' <> t) /\
    (forall f : Task -> Z,
        find_first_task (map (fun x => with_priority (f x) x) h) tasks = Some t).
Proof.
  intros h tasks t H.
  pose proof H as H'. unfold find_first_task, find in H'.
  apply find_first_split in H'. destruct H' as [Hp [pre [post [Hl Hpre]]]].
  destruct (nth_error h t) as [task|] eqn:Et; [|discriminate].
  split; [|split].
  - exists task, pre, post. repeat split; auto.
    + intros t' task' Hin Ht'. specialize (Hpre t' Hin). rewrite Ht' in Hpre. exact Hpre.
    + apply no_dependencies_ready. exact Hp.
  - intros t' task' Ht' Hr Heq. subst t'. rewrite Et in Ht'. injection Ht' as <-.
    rewrite (no_dependencies_ready h tasks task Hp) in Hr. discriminate.
  - intro f. rewrite find_first_task_priority. exact H.
Qed.

Lemma find_first_task_selects_first_without_dependencies_witness :
  find_first_task onboarding_tasks [0; 1; 2]%nat = Some 1%nat /\
  0%nat <> 1%nat /\
  find_first_task (map (fun x => with_priority 0 x) onboarding_tasks) [0; 1; 2]%nat
    = Some 1%nat.
Proof.
  destruct (find_first_task_selects_first_without_dependencies
              onboarding_tasks [0; 1; 2]%nat 1%nat eq_refl) as [_ [Hr Hp]].
  split; [reflexivity|]. split.
  - apply (Hr 0%nat (a_task "task_3" 5 (Some ["task_1"; "task_2"]))); reflexivity.
  - apply (Hp (fun _ => 0%Z)).
Defined.

(** C3, as stated, fails: of two ready tasks the code selects the first in
    insertion order although the second has the higher priority. *)
Lemma find_first_task_ignores_priority :
  ready two_ready_tasks [0; 1]%nat (a_task "task_1" 1 None) = true /\
  ready two_ready_tasks [0; 1]%nat (a_task "task_2" 5 (Some [])) = true /\
  spec_select_ready_task two_ready_tasks [0; 1]%nat = Some 1%nat /\
  find_first_task two_ready_tasks [0; 1]%nat = Some 0%nat /\
  find_first_task two_ready_tasks [0; 1]%nat
    <> spec_select_ready_task two_ready_tasks [0; 1]%nat.
Proof.
  repeat split; try reflexivity. vm_compute. discriminate.
Qed.

End SelectionProofs.

(* ================================================================== *)
(** * Termination of the dispatch *)

Module Halting.
Import Js Orchestrator TaskSpec.
Local Open Scope js_scope.

Lemma advances_refl (w : World) : advances w w.
Proof. split; apply Nat.le_refl. Qed.

Lemma advances_same (w w' : World) :
  llm w' = llm w -> heap w' = heap w -> advances w w'.
Proof. intros Hl Hh. unfold advances. rewrite Hl, Hh. split; apply Nat.le_refl. Qed.

Lemma advances_trans (w1 w2 w3 : World) :
  advances w1 w2 -> advances w2 w3 -> advances w1 w3.
Proof. intros [A1 B1] [A2 B2]. split; eapply Nat.le_trans; eassumption. Qed.

Section Combinators.
Context {A B : Type}.
Variable n : nat.

Lemma returns_halts (m : M A) : returns n m -> halts n m.
Proof.
  intros H w Hw. destruct (H w Hw) as [[a Ha] Hadv].
  split; [rewrite Ha; discriminate | exact Hadv].
Qed.

Lemma returns_ret (a : A) : returns n (ret a).
Proof. intros w _. split; [exists a; reflexivity | apply advances_refl]. Qed.

Lemma halts_throw (e : Exn) : halts n (@throw A e).
Proof. intros w _. split; [discriminate | apply advances_refl]. Qed.

Lemma returns_gets (f : World -> A) : returns n (gets f).
Proof. intros w _. split; [exists (f w); reflexivity | apply advances_refl]. Qed.

Lemma halts_bind (m : M A) (k : A -> M B) :
  halts n m -> (forall a, halts n (k a)) -> halts n (bind m k).
Proof.
  intros Hm Hk w Hw. unfold bind.
  destruct (Hm w Hw) as [Hne Hadv]. destruct (m w) as [w' c]. simpl in *.
  destruct c as [a| |]; simpl.
  - destruct (Hk a w') as [Hne' Hadv'].
    + destruct Hadv as [Hl _]. eapply Nat.le_trans; eassumption.
    + split; [exact Hne' | eapply advances_trans; eassumption].
  - split; [discriminate | exact Hadv].
  - contradiction.
Qed.

Lemma returns_bind (m : M A) (k : A -> M B) :
  returns n m -> (forall a, returns n (k a)) -> returns n (bind m k).
Proof.
  intros Hm Hk w Hw. unfold bind.
  destruct (Hm w Hw) as [[a Ha] Hadv]. destruct (m w) as [w' c]. simpl in *.
  subst c. destruct (Hk a w') as [Hr Hadv'].
  - destruct Hadv as [Hl _]. eapply Nat.le_trans; eassumption.
  - split; [exact Hr | eapply advances_trans; eassumption].
Qed.

Lemma halts_lift (r : Exn + A) : halts n (lift r).
Proof. destruct r; [apply halts_throw | apply returns_halts, returns_ret]. Qed.

End Combinators.

Section Catch.
Context {A : Type}.
Variable n : nat.

Lemma halts_try_catch (body : M A) (handler : Exn -> M A) :
  halts n body -> (forall e, halts n (handler e)) -> halts n (try_catch body handler).
Proof.
  intros Hb Hh w Hw. unfold try_catch.
  destruct (Hb w Hw) as [Hne Hadv]. destruct (body w) as [w' c]. simpl in *.
  destruct c as [a|e|]; simpl.
  - split; [discriminate | exact Hadv].
  - destruct (Hh e w') as [Hne' Hadv'].
    + destruct Hadv as [Hl _]. eapply Nat.le_trans; eassumption.
    + split; [exact Hne' | eapply advances_trans; eassumption].
  - contradiction.
Qed.

Lemma returns_try_catch (body : M A) (handler : Exn -> M A) :
  halts n body -> (forall e, returns n (handler e)) -> returns n (try_catch body handler).
Proof.
  intros Hb Hh w Hw. unfold try_catch.
  destruct (Hb w Hw) as [Hne Hadv]. destruct (body w) as [w' c]. simpl in *.
  destruct c as [a|e|]; simpl.
  - split; [exists a; reflexivity | exact Hadv].
  - destruct (Hh e w') as [Hr Hadv'].
    + destruct Hadv as [Hl _]. eapply Nat.le_trans; eassumption.
    + split; [exact Hr | eapply advances_trans; eassumption].
  - contradiction.
Qed.

(** A model call consumes an answer before its continuation runs. *)
Lemma halts_llm_bind (k : option LlmJson -> M A) :
  (forall n', n = S n' -> forall c, halts n' (k c)) -> halts n (bind llm_invoke k).
Proof.
  intros Hk w Hw. unfold bind, llm_invoke.
  destruct (llm w) as [|reply rest] eqn:E.
  - simpl. split; [discriminate | apply advances_refl].
  - assert (Hadv : advances w (with_llm (@tl _) w)).
    { split; simpl; [rewrite E; simpl; apply Nat.le_succ_diag_r | apply Nat.le_refl]. }
    destruct reply as [msg|c]; simpl.
    + split; [discriminate | exact Hadv].
    + simpl in Hw. destruct n as [|n']; [inversion Hw|].
      destruct (Hk n' eq_refl c (with_llm (@tl _) w)) as [Hne Hadv'].
      * simpl. rewrite E. simpl. apply le_S_n. exact Hw.
      * split; [exact Hne | eapply advances_trans; eassumption].
Qed.

Lemma halts_for_each {X : Type} (f : X -> M unit) (l : list X) :
  (forall x, halts n (f x)) -> halts n (for_each f l).
Proof.
  intro Hf. induction l as [|x rest IH]; simpl.
  - apply returns_halts, returns_ret.
  - apply halts_bind; [apply Hf | intro; exact IH].
Qed.

Lemma returns_for_each {X : Type} (f : X -> M unit) (l : list X) :
  (forall x, returns n (f x)) -> returns n (for_each f l).
Proof.
  intro Hf. induction l as [|x rest IH]; simpl.
  - apply returns_ret.
  - apply returns_bind; [apply Hf | intro; exact IH].
Qed.

Lemma returns_map_M {X : Type} (f : X -> M A) (l : list X) :
  (forall x, returns n (f x)) -> returns n (map_M f l).
Proof.
  intro Hf. induction l as [|x rest IH]; simpl.
  - apply returns_ret.
  - apply returns_bind; [apply Hf | intro].
    apply returns_bind; [exact IH | intro; apply returns_ret].
Qed.

End Catch.

Lemma returns_modify (n : nat) (f : World -> World) :
  (forall w, advances w (f w)) -> returns n (modify f).
Proof. intros Hf w _. split; [exists tt; reflexivity | apply Hf]. Qed.

Lemma length_update_nth {A : Type} (i : nat) (f : A -> A) (l : list A) :
  List.length (update_nth i f l) = List.length l.
Proof.
  revert i. induction l as [|x rest IH]; intros [|i]; simpl; try reflexivity.
  rewrite IH. reflexivity.
Qed.

Lemma returns_mutate_memory (n : nat) (ref : string) (f : AgentMemory -> AgentMemory) :
  returns n (mutate_memory ref f).
Proof. apply returns_modify. intro w. apply advances_same; reflexivity. Qed.

Lemma returns_mutate_task (n : nat) (t : TaskRef) (f : Task -> Task) :
  returns n (mutate_task t f).
Proof.
  apply returns_modify. intro w. split; simpl.
  - apply Nat.le_refl.
  - rewrite length_update_nth. apply Nat.le_refl.
Qed.

Lemma returns_alloc_task (n : nat) (t : Task) : returns n (alloc_task t).
Proof.
  intros w _. unfold alloc_task. simpl. split; [eexists; reflexivity|].
  split; simpl; [apply Nat.le_refl|]. rewrite length_app. apply Nat.le_add_r.
Qed.

Lemma returns_getOrCreateMemory (n : nat) (sid : string) :
  returns n (getOrCreateMemory sid).
Proof.
  unfold getOrCreateMemory.
  apply returns_bind; [apply returns_gets | intro present].
  apply returns_bind; [|intro; apply returns_ret].
  destruct (negb present); [|apply returns_ret].
  apply returns_modify. intro w. apply advances_same; reflexivity.
Qed.

Lemma halts_fetch (n : nat) (endpoint : string) : halts n (fetch endpoint).
Proof.
  intros w _. unfold fetch. destruct (network w) as [|[msg|r] rest]; simpl;
    (split; [discriminate | apply advances_same; reflexivity]).
Qed.

Lemma halts_updateMemory (n : nat) (sid : string) (updates : list MemoryUpdate) :
  halts n (updateMemory sid updates).
Proof.
  unfold updateMemory.
  apply halts_bind; [apply returns_halts, returns_getOrCreateMemory | intro ref].
  apply halts_bind; [apply returns_halts, returns_gets | intro m0].
  destruct (updateMemory_loop m0 updates) as [m1 thrown].
  apply halts_bind; [apply returns_halts, returns_mutate_memory | intro].
  destruct thrown; [apply halts_throw | apply returns_halts, returns_ret].
Qed.

(** One step of a proof that a computation halts or returns. *)
Ltac halting_step :=
  match goal with
  | |- returns _ (ret _) => apply returns_ret
  | |- returns _ (gets _) => apply returns_gets
  | |- returns _ new_Date => apply returns_gets
  | |- returns _ (getOrCreateMemory _) => apply returns_getOrCreateMemory
  | |- returns _ (mutate_memory _ _) => apply returns_mutate_memory
  | |- returns _ (mutate_task _ _) => apply returns_mutate_task
  | |- returns _ (alloc_task _) => apply returns_alloc_task
  | |- returns _ (modify (with_taskQueue _)) =>
      apply returns_modify; intro; apply advances_same; reflexivity
  | |- returns _ (map_M _ _) => apply returns_map_M; intro
  | |- returns _ (for_each _ _) => apply returns_for_each; intro
  | |- returns _ (try_catch _ _) => apply returns_try_catch; [|intro]
  | |- returns _ (bind _ _) => apply returns_bind; [|intro]
  | |- halts _ (throw _) => apply halts_throw
  | |- halts _ (lift _) => apply halts_lift
  | |- halts _ (fetch _) => apply halts_fetch
  | |- halts _ (updateMemory _ _) => apply halts_updateMemory
  | |- halts _ (bind llm_invoke _) => apply halts_llm_bind; intros ? ? ?
  | |- halts _ (try_catch _ _) => apply halts_try_catch; [|intro]
  | |- halts _ (bind _ _) => apply halts_bind; [|intro]
  | |- halts _ (match ?x with _ => _ end) => destruct x
  | |- returns _ (match ?x with _ => _ end) => destruct x
  | |- halts _ _ => apply returns_halts
  end.

Ltac halting := repeat halting_step.

Lemma halts_JSON_parse (n : nat) (c : option LlmJson) : halts n (JSON_parse c).
Proof. unfold JSON_parse. halting. Qed.

Lemma halts_response_json (n : nat) (r : HttpResponse) : halts n (response_json r).
Proof. unfold response_json. halting. Qed.

Lemma halts_endpoint_of (n : nat) (a : option string) : halts n (endpoint_of a).
Proof.
  unfold endpoint_of.
  repeat match goal with
         | |- halts _ (match ?x with _ => _ end) => destruct x
         end; try apply halts_throw; apply returns_halts, returns_ret.
Qed.

Lemma returns_decomposeGoalIntoTasks (n : nat) (g : string) (ctx : option RequestContext) :
  returns n (decomposeGoalIntoTasks g ctx).
Proof. unfold decomposeGoalIntoTasks, JSON_parse. halting. Qed.

Lemma returns_extractMemoryUpdates (n : nat) (u a : string) (ctx : option RequestContext) :
  returns n (extractMemoryUpdates u a ctx).
Proof. unfold extractMemoryUpdates, JSON_parse. halting. Qed.

Lemma returns_routeToAgent (n : nat) (request : AgentRequest) :
  returns n (routeToAgent request).
Proof. unfold routeToAgent, JSON_parse. cbv zeta. halting. Qed.

Ltac halting_call :=
  match goal with
  | |- halts _ (JSON_parse _) => apply halts_JSON_parse
  | |- halts _ (response_json _) => apply halts_response_json
  | |- halts _ (endpoint_of _) => apply halts_endpoint_of
  | |- returns _ (decomposeGoalIntoTasks _ _) => apply returns_decomposeGoalIntoTasks
  | |- returns _ (extractMemoryUpdates _ _ _) => apply returns_extractMemoryUpdates
  | |- returns _ (routeToAgent _) => apply returns_routeToAgent
  | _ => halting_step
  end.

Lemma halts_dispatch (n : nat) (a : option string) (request : AgentRequest)
  (sid mem : string) :
  halts n (dispatch a request sid mem).
Proof. unfold dispatch. cbv zeta. repeat halting_call. Qed.

Section Recursion.
Variable exec : option string -> AgentRequest -> M AgentResponse.

Lemma returns_executeTask (n : nat) (t : TaskRef) (request : AgentRequest) :
  (forall a r, returns n (exec a r)) -> returns n (executeTask exec t request).
Proof.
  intro Hexec. unfold executeTask. repeat halting_call. apply Hexec.
Qed.

Lemma returns_executeOrchestrator (n : nat) (request : AgentRequest) :
  (forall n', n = S n' -> forall a r, returns n' (exec a r)) ->
  returns n (executeOrchestrator exec request).
Proof.
  intro Hexec. unfold executeOrchestrator. cbv zeta.
  apply returns_bind; [apply returns_getOrCreateMemory | intro mem].
  apply returns_try_catch; [|intro; apply returns_ret].
  apply halts_llm_bind. intros n' Hn goalResponse.
  apply halts_bind; [apply halts_JSON_parse | intro goalAnalysis].
  apply halts_bind; [repeat halting_call | intro complex_goal].
  destruct complex_goal as [g|].
  - repeat halting_call. apply returns_executeTask. apply (Hexec n' Hn).
  - repeat halting_call. apply (Hexec n' Hn).
Qed.

End Recursion.

(** Started with fewer model answers left than fuel, [executeAgent] returns
    a response: it neither throws nor exhausts its recursion bound. *)
Lemma returns_executeAgent (n : nat) :
  forall (a : option string) (request : AgentRequest),
    returns n (executeAgent (S n) a request).
Proof.
  induction n as [|n IH]; intros a request; simpl; cbv zeta;
    (apply returns_bind; [apply returns_getOrCreateMemory | intro mem]);
    (apply returns_bind; [apply returns_gets | intro now]);
    (apply returns_bind; [apply returns_mutate_memory | intros _]);
    (destruct (is_orchestrator a);
     [ apply returns_executeOrchestrator
     | apply returns_try_catch; [apply halts_dispatch | intro; apply returns_ret] ]).
  - intros n' Hn. discriminate Hn.
  - intros n' Hn. injection Hn as <-. exact IH.
Qed.

(** Any handler other than the orchestrator is dispatched within one unit of
    fuel. *)
Lemma returns_executeAgent_handler (n fuel : nat) (a : option string)
  (request : AgentRequest) :
  is_orchestrator a = false -> returns n (executeAgent (S fuel) a request).
Proof.
  intro Ha. simpl; cbv zeta. rewrite Ha.
  apply returns_bind; [apply returns_getOrCreateMemory | intro mem].
  apply returns_bind; [apply returns_gets | intro now].
  apply returns_bind; [apply returns_mutate_memory | intros _].
  apply returns_try_catch; [apply halts_dispatch | intro; apply returns_ret].
Qed.

(** ** The amount of fuel does not matter once it suffices *)

Section Agreement.
Context {A B : Type}.
Variable n : nat.

Lemma agree_refl (m : M A) : agree n m m.
Proof. intros w _. reflexivity. Qed.

Lemma agree_bind (m : M A) (k1 k2 : A -> M B) :
  halts n m -> (forall a, agree n (k1 a) (k2 a)) -> agree n (bind m k1) (bind m k2).
Proof.
  intros Hm Hk w Hw. unfold bind.
  destruct (Hm w Hw) as [_ [Hl _]]. destruct (m w) as [w' c]. simpl in Hl.
  destruct c as [a| |]; try reflexivity.
  apply Hk. eapply Nat.le_trans; eassumption.
Qed.

Lemma agree_bind_left (m1 m2 : M A) (k : A -> M B) :
  agree n m1 m2 -> agree n (bind m1 k) (bind m2 k).
Proof. intros H w Hw. unfold bind. rewrite (H w Hw). reflexivity. Qed.

Lemma agree_try_catch (b1 b2 : M A) (h : Exn -> M A) :
  agree n b1 b2 -> agree n (try_catch b1 h) (try_catch b2 h).
Proof. intros H w Hw. unfold try_catch. rewrite (H w Hw). reflexivity. Qed.

Lemma agree_llm_bind (k1 k2 : option LlmJson -> M A) :
  (forall n', n = S n' -> forall c, agree n' (k1 c) (k2 c)) ->
  agree n (bind llm_invoke k1) (bind llm_invoke k2).
Proof.
  intros Hk w Hw. unfold bind, llm_invoke.
  destruct (llm w) as [|[msg|c] rest] eqn:E; try reflexivity.
  simpl in Hw. destruct n as [|n']; [inversion Hw|].
  apply (Hk n' eq_refl c). simpl. rewrite E. simpl. apply le_S_n. exact Hw.
Qed.

End Agreement.

Section AgreeingDispatchers.
Variables exec1 exec2 : option string -> AgentRequest -> M AgentResponse.

Lemma agree_executeTask (n : nat) (t : TaskRef) (request : AgentRequest) :
  (forall a r, agree n (exec1 a r) (exec2 a r)) ->
  agree n (executeTask exec1 t request) (executeTask exec2 t request).
Proof.
  intro H. unfold executeTask.
  apply agree_bind; [repeat halting_call | intro].
  apply agree_bind; [repeat halting_call | intro taskRequest].
  apply agree_bind; [repeat halting_call | intro assigned].
  apply agree_bind_left. apply H.
Qed.

Lemma agree_executeOrchestrator (n : nat) (request : AgentRequest) :
  (forall n', n = S n' -> forall a r, agree n' (exec1 a r) (exec2 a r)) ->
  agree n (executeOrchestrator exec1 request) (executeOrchestrator exec2 request).
Proof.
  intro H. unfold executeOrchestrator. cbv zeta.
  apply agree_bind; [apply returns_halts, returns_getOrCreateMemory | intro mem].
  apply agree_try_catch. apply agree_llm_bind. intros n' Hn goalResponse.
  apply agree_bind; [apply halts_JSON_parse | intro goalAnalysis].
  apply agree_bind; [repeat halting_call | intro complex_goal].
  destruct complex_goal as [g|].
  - apply agree_bind; [repeat halting_call | intro task_list].
    apply agree_bind; [repeat halting_call | intro].
    apply agree_bind; [repeat halting_call | intro].
    apply agree_bind; [repeat halting_call | intro firstTask].
    apply agree_bind_left. destruct firstTask as [t|]; [|apply agree_refl].
    apply agree_executeTask. apply (H n' Hn).
  - apply agree_bind; [repeat halting_call | intro routing]. apply (H n' Hn).
Qed.

End AgreeingDispatchers.

(** Any fuel above the number of model answers left gives the same run. *)
Lemma executeAgent_fuel (n : nat) :
  forall (m : nat) (a : option string) (request : AgentRequest),
    (n <= m)%nat -> agree n (executeAgent (S n) a request) (executeAgent (S m) a request).
Proof.
  induction n as [|n IH]; intros m a request Hm;
    simpl; cbv zeta;
    (apply agree_bind; [apply returns_halts, returns_getOrCreateMemory | intro mem]);
    (apply agree_bind; [apply returns_halts, returns_gets | intro now]);
    (apply agree_bind; [apply returns_halts, returns_mutate_memory | intros _]);
    (destruct (is_orchestrator a); [|apply agree_refl]);
    apply agree_executeOrchestrator.
  - intros n' Hn. discriminate Hn.
  - intros n' Hn a' r'. injection Hn as <-.
    destruct m as [|m]; [inversion Hm|].
    apply IH. apply le_S_n. exact Hm.
Qed.

End Halting.

(* ================================================================== *)
(** * Properties of the dispatch and of task execution *)

Module DispatchProofs.
Import Js Orchestrator TaskSpec Halting.
Local Open Scope js_scope.

Lemma getOrCreateMemory_run (sid : string) (w : World) :
  exists g, getOrCreateMemory sid w = (with_memory g w, Normal sid).
Proof.
  unfold getOrCreateMemory, bind, gets, modify, ret.
  destruct (map_has (memory w) sid); simpl.
  - exists (fun store => store). destruct w; reflexivity.
  - eexists. reflexivity.
Qed.

Lemma executeAgent_prelude (fuel : nat) (a : option string) (request : AgentRequest)
  (w : World) :
  exists f,
    executeAgent (S fuel) a request w =
    (if is_orchestrator a
     then executeOrchestrator (executeAgent fuel) request
     else try_catch (dispatch a request (session_of request) (session_of request))
                    (fun error => ret (degraded_response a error)))
      (with_memory f w).
Proof.
  simpl. unfold bind at 1.
  destruct (getOrCreateMemory_run (session_of request) w) as [g Hg]. rewrite Hg.
  unfold bind at 1, new_Date, gets. unfold bind at 1, mutate_memory, modify.
  eexists (fun store => _ (g store)). reflexivity.
Qed.

Lemma endpoint_of_pure (a : option string) (w : World) :
  (exists ep, endpoint_of a w = (w, Normal ep)) \/
  (exists e, endpoint_of a w = (w, Throw e)).
Proof.
  unfold endpoint_of.
  repeat match goal with
         | |- context [match ?x with _ => _ end] => destruct x
         end;
    solve [left; eexists; reflexivity | right; eexists; reflexivity].
Qed.

Lemma dispatch_throws (a : option string) (request : AgentRequest) (sid mem : string)
  (w : World) :
  DispatchFails (network w) ->
  exists w' e, dispatch a request sid mem w = (w', Throw e).
Proof.
  intro Hfail. unfold dispatch. unfold bind at 1.
  destruct (endpoint_of_pure a w) as [[ep H]|[e H]]; rewrite H;
    [|eexists; eexists; reflexivity].
  unfold bind at 1, fetch.
  inversion Hfail as [E | msg rest E | r rest Hok E | r rest Hok Hbody E
                      | r d rest Hok Hbody Hs E];
    try (eexists; eexists; reflexivity).
  - unfold bind at 1. rewrite Hok. simpl. eexists; eexists; reflexivity.
  - unfold bind at 1. rewrite Hok. simpl.
    unfold bind at 1, response_json. rewrite Hbody.
    eexists; eexists; reflexivity.
  - unfold bind at 1. rewrite Hok. simpl.
    unfold bind at 1, response_json. rewrite Hbody. simpl.
    unfold bind at 1. rewrite Hs. simpl.
    eexists; eexists; reflexivity.
Qed.

(** A failing dispatch to a handler is answered with the degraded response. *)
Lemma executeAgent_degraded (fuel : nat) (a : option string) (request : AgentRequest)
  (w : World) :
  is_orchestrator a = false -> DispatchFails (network w) ->
  exists w' e, executeAgent (S fuel) a request w = (w', Normal (degraded_response a e)).
Proof.
  intros Ha Hfail.
  destruct (executeAgent_prelude fuel a request w) as [f Hf].
  rewrite Hf, Ha. unfold try_catch.
  destruct (dispatch_throws a request (session_of request) (session_of request)
              (with_memory f w) Hfail) as [w' [e He]].
  rewrite He. exists w', e. reflexivity.
Qed.

(** C6. Every dispatch to a handler other than the orchestrator returns a
    response (it neither throws nor fails to terminate); when the dispatch
    fails at the transport level or returns non-success, the response is the
    degraded one, with confidence 0.1 and the human-handoff flag set. *)
Theorem executeAgent_always_answers :
  forall (fuel : nat) (a : option string) (request : AgentRequest) (w : World),
    is_orchestrator a = false ->
    exists (w' : World) (r : AgentResponse),
      executeAgent (S fuel) a request w = (w', Normal r) /\
      (DispatchFails (network w) ->
       exists e, r = degraded_response a e /\
                 confidence r = 0.1 /\ needs_human_handoff r = Some true).
Proof.
  intros fuel a request w Ha.
  destruct (returns_executeAgent_handler (List.length (llm w)) fuel a request Ha w
              (Nat.le_refl _)) as [[r Hr] _].
  destruct (executeAgent (S fuel) a request w) as [w' c] eqn:E. simpl in Hr. subst c.
  exists w', r. split; [reflexivity|].
  intro Hfail.
  destruct (executeAgent_degraded fuel a request w Ha Hfail) as [w2 [e He]].
  rewrite He in E. injection E as _ <-.
  exists e. repeat split.
Qed.

Lemma executeAgent_always_answers_witness :
  exists (w' : World) (r : AgentResponse),
    executeAgent 1 (Some "crm") plan_request
      (RoutingSpec.idle [] [FetchRejects "connect ECONNREFUSED 127.0.0.1:3000"])
      = (w', Normal r) /\
    needs_human_handoff r = Some true.
Proof.
  destruct (executeAgent_always_answers 0 (Some "crm") plan_request
              (RoutingSpec.idle [] [FetchRejects "connect ECONNREFUSED 127.0.0.1:3000"])
              eq_refl) as [w' [r [Hrun Hfail]]].
  exists w', r. split; [exact Hrun|].
  destruct Hfail as [e [_ [_ Hh]]]; [simpl; constructor | exact Hh].
Defined.

(** ** Task execution *)

Lemma nth_error_update_nth {A : Type} (i : nat) (f : A -> A) (l : list A) (x : A) :
  nth_error l i = Some x -> nth_error (update_nth i f l) i = Some (f x).
Proof.
  revert i. induction l as [|y rest IH]; intros [|i]; simpl; intro H;
    try discriminate.
  - injection H as ->. reflexivity.
  - apply IH. exact H.
Qed.

Lemma nth_error_present {A : Type} (i : nat) (l l' : list A) (x : A) :
  nth_error l i = Some x -> (List.length l <= List.length l')%nat ->
  exists y, nth_error l' i = Some y.
Proof.
  intros H Hlen.
  assert (Hi : (i < List.length l)%nat) by (apply nth_error_Some; congruence).
  destruct (nth_error l' i) as [y|] eqn:E; [exists y; reflexivity|].
  apply nth_error_None in E. lia.
Qed.

(** C1, as amended. Executing a task marks it [in_progress], dispatches it
    once to its assigned handler with the task description as the message,
    then marks it [completed] and stores the response the dispatch returned.
    The dispatch always returns: a failed dispatch returns the degraded
    response, so the task of a failed dispatch also ends [completed], never
    [failed]; nothing is retried. *)
Theorem executeTask_completes_after_any_dispatch :
  forall (n : nat) (request : AgentRequest) (w : World) (t : TaskRef) (task : Task),
    get_task w t = Some task ->
    (List.length (llm w) <= n)%nat ->
    let started := with_heap (update_nth t (set_status in_progress)) w in
    let taskRequest :=
      {| message := description task; request_context := request_context request |} in
    task_field status pending started t = in_progress /\
    exists (dispatched : World) (r : AgentResponse),
      executeAgent (S n) (agent task) taskRequest started = (dispatched, Normal r) /\
      executeTask (executeAgent (S n)) t request w =
        (with_heap (update_nth t (set_result r))
           (with_heap (update_nth t (set_status completed)) dispatched),
         Normal (response r)) /\
      (let w' := fst (executeTask (executeAgent (S n)) t request w) in
       task_field status pending w' t = completed /\
       task_field result None w' t = Some r) /\
      (is_orchestrator (agent task) = false -> DispatchFails (network w) ->
       exists e, r = degraded_response (agent task) e).
Proof.
  intros n request w t task Ht Hn started taskRequest.
  assert (Hstarted : get_task started t = Some (set_status in_progress task)).
  { unfold get_task, started. simpl. apply nth_error_update_nth. exact Ht. }
  split.
  { unfold task_field. rewrite Hstarted. reflexivity. }
  destruct (returns_executeAgent n (agent task) taskRequest started Hn)
    as [[r Hr] [_ Hheap]].
  destruct (executeAgent (S n) (agent task) taskRequest started)
    as [dispatched c] eqn:E.
  simpl in Hr, Hheap. subst c.
  exists dispatched, r. split; [reflexivity|].
  assert (Hrun : executeTask (executeAgent (S n)) t request w =
    (with_heap (update_nth t (set_result r))
       (with_heap (update_nth t (set_status completed)) dispatched),
     Normal (response r))).
  { unfold executeTask, bind, mutate_task, modify, gets.
    fold started. unfold task_field. rewrite Hstarted.
    change (description (set_status in_progress task)) with (description task).
    change (agent (set_status in_progress task)) with (agent task).
    fold taskRequest. rewrite E. reflexivity. }
  split; [exact Hrun|]. split.
  - rewrite Hrun. simpl.
    destruct (nth_error_present t (heap started) (heap dispatched) _ Hstarted Hheap)
      as [x Hx].
    unfold task_field, get_task. simpl.
    rewrite (nth_error_update_nth t (set_result r) _ (set_status completed x)
               (nth_error_update_nth t (set_status completed) _ x Hx)).
    split; reflexivity.
  - intros Ha Hfail.
    destruct (executeAgent_degraded n (agent task) taskRequest started Ha Hfail)
      as [w2 [e He]].
    rewrite He in E. injection E as _ <-. exists e. reflexivity.
Qed.

Lemma executeTask_completes_after_any_dispatch_witness :
  let w := with_heap (fun _ => [a_task "task_1" 3 None])
             (RoutingSpec.idle [] [FetchRejects "connect ECONNREFUSED 127.0.0.1:3000"]) in
  let w' := fst (executeTask (executeAgent 1) 0 plan_request w) in
  task_field status pending w' 0 = completed /\
  exists e, task_field result None w' 0 = Some (degraded_response (Some "crm") e).
Proof.
  intros w w'.
  destruct (executeTask_completes_after_any_dispatch 0 plan_request w 0
              (a_task "task_1" 3 None) eq_refl (Nat.le_refl _))
    as [_ [dispatched [r [_ [_ [[Hs Hr] Hd]]]]]].
  split; [exact Hs|].
  destruct (Hd eq_refl) as [e He]; [simpl; constructor|].
  exists e. subst w'. rewrite Hr, He. reflexivity.
Defined.

(** C1, as stated, fails: the plan's only task is dispatched to the customer
    handler, the transport refuses the connection, and the task ends
    [completed] with the degraded response as its result, not [failed]. *)
Lemma failed_dispatch_leaves_task_completed :
  let w' := fst (executeAgent (enough_fuel refused_dispatch) (Some "orchestrator")
                   plan_request refused_dispatch) in
  DispatchFails (network refused_dispatch) /\
  option_map status (get_task w' 0) = Some completed /\
  option_map status (get_task w' 0) <> Some failed /\
  option_map result (get_task w' 0)
    = Some (Some (degraded_response (Some "crm") "connect ECONNREFUSED 127.0.0.1:3000")).
Proof.
  split; [simpl; constructor|].
  split; [vm_compute; reflexivity|].
  split; [vm_compute; discriminate | vm_compute; reflexivity].
Qed.

End DispatchProofs.

(* ================================================================== *)
(** * Properties of the campaign execution *)

Module CampaignProofs.
Import Js Campaigns CampaignSpec.
Local Open Scope nat_scope.

Section Accounting.
Variable env : Env.
Variable state : CampaignState.

(** Every interaction-log write succeeds. *)
Hypothesis log_writes_succeed : forall i j, insert_interaction env i j = None.

Lemma process_customer_skips (i j : nat) (variant : Variant) (c : Customer)
  (r : ExecutionResults) :
  reachable state c = false -> process_customer env state i j variant c r = r.
Proof.
  unfold reachable, process_customer, try_send. intro H.
  apply orb_false_iff in H. destruct H as [He Hs]. rewrite He, Hs.
  rewrite log_writes_succeed. reflexivity.
Qed.

Lemma process_customer_counts (i j : nat) (variant : Variant) (c : Customer)
  (r : ExecutionResults) :
  reachable state c = true ->
  sent (process_customer env state i j variant c r)
    + failed (process_customer env state i j variant c r)
  = S (sent r + failed r).
Proof.
  unfold reachable, process_customer, try_send. intro H.
  destruct (email_branch state c).
  - destruct (sendEmail env i j _ _); simpl.
    + rewrite log_writes_succeed. simpl. reflexivity.
    + lia.
  - simpl in H. rewrite H. rewrite log_writes_succeed. simpl. reflexivity.
Qed.

Lemma customers_loop_counts (i : nat) (variant : Variant) (customers : list Customer) :
  forall (j : nat) (r : ExecutionResults),
    sent (customers_loop env state i j variant customers r)
      + failed (customers_loop env state i j variant customers r)
    = sent r + failed r + List.length (filter (reachable state) customers).
Proof.
  induction customers as [|c rest IH]; intros j r; simpl.
  - lia.
  - rewrite IH. destruct (reachable state c) eqn:E; simpl.
    + rewrite (process_customer_counts i j variant c r E). lia.
    + rewrite (process_customer_skips i j variant c r E). lia.
Qed.

Lemma variants_loop_counts (variants : list Variant) :
  forall (i : nat) (r : ExecutionResults),
    sent (fst (variants_loop env state i variants r))
      + failed (fst (variants_loop env state i variants r))
    = sent r + failed r
      + count_customers (reachable state) (resolved_segments env state i variants).
Proof.
  induction variants as [|v rest IH]; intros i r; simpl.
  - lia.
  - destruct (resolve_segment env state i v) as [e|customers]; simpl.
    + lia.
    + rewrite IH, customers_loop_counts. lia.
Qed.

Lemma executeCampaign_counts (variants : list Variant) :
  content_variants state = Some variants -> variants <> [] ->
  exists final results,
    executeCampaign env state = inr final /\
    execution_results final = Some results /\
    sent results + failed results
      = count_customers (reachable state) (resolved_segments env state 0 variants).
Proof.
  intros Hv Hne. unfold executeCampaign. rewrite Hv.
  destruct variants as [|v rest]; [contradiction|].
  pose proof (variants_loop_counts (v :: rest) 0 no_results) as Hcount.
  unfold campaign_results.
  destruct (variants_loop env state 0 (v :: rest) no_results) as [results thrown].
  simpl in Hcount.
  destruct thrown as [e|]; [|destruct (update_campaign env results) as [e|]];
    eexists; eexists; (split; [reflexivity|]); (split; [reflexivity|]);
    simpl; exact Hcount.
Qed.

End Accounting.

(** C4, as amended. For every campaign execution in which every
    interaction-log write succeeds, the final results satisfy [sent + failed]
    = the number of customers, across the segments resolved, for whom the
    campaign's channel type is e-mail or SMS, who have an address for that
    channel and who are opted into it; any other customer of a resolved
    segment is skipped: the results, and so [sent], [failed] and [errors],
    are left as they were. *)
Theorem executeCampaign_accounts_for_reachable_customers :
  forall (env : Env) (state : CampaignState) (variants : list Variant),
    (forall i j, insert_interaction env i j = None) ->
    content_variants state = Some variants ->
    variants <> [] ->
    (exists final results,
        executeCampaign env state = inr final /\
        execution_results final = Some results /\
        sent results + failed results
          = count_customers (reachable state) (resolved_segments env state 0 variants)) /\
    (forall i j variant c r,
        reachable state c = false ->
        process_customer env state i j variant c r = r).
Proof.
  intros env state variants Hlog Hv Hne. split.
  - apply executeCampaign_counts; assumption.
  - intros i j variant c r. apply process_customer_skips. exact Hlog.
Qed.

Lemma executeCampaign_accounts_for_reachable_customers_witness :
  exists final results,
    executeCampaign (calm scenario_customers accepted) scenario_campaign = inr final /\
    execution_results final = Some results /\
    sent results + failed results = 2.
Proof.
  destruct (executeCampaign_accounts_for_reachable_customers
              (calm scenario_customers accepted) scenario_campaign
              [a_variant "variant_1" "loyal_customers";
               a_variant "variant_2" "sms_subscribers"]
              (fun i j => eq_refl) eq_refl)
    as [[final [results [Hrun [Hres Hsum]]]] _].
  - discriminate.
  - exists final, results. split; [exact Hrun|]. split; [exact Hres|].
    rewrite Hsum. reflexivity.
Defined.

(** C4, as stated, fails: a loyal customer opted into e-mail who has no
    e-mail address is opted into the campaign's channel, yet is skipped and
    counted neither as sent nor as failed. *)
Lemma executeCampaign_skips_opted_in_without_address :
  exists final results,
    executeCampaign (calm no_address_customers accepted) no_address_campaign = inr final /\
    execution_results final = Some results /\
    count_customers (opted_in no_address_campaign)
      (resolved_segments (calm no_address_customers accepted) no_address_campaign 0
         [a_variant "variant_1" "loyal_customers"]) = 1 /\
    sent results + failed results = 0 /\
    sent results + failed results
      <> count_customers (opted_in no_address_campaign)
           (resolved_segments (calm no_address_customers accepted) no_address_campaign 0
              [a_variant "variant_1" "loyal_customers"]).
Proof.
  eexists. eexists. split; [vm_compute; reflexivity|].
  split; [reflexivity|]. split; [vm_compute; reflexivity|].
  split; [reflexivity | vm_compute; discriminate].
Qed.

(** C5 on the SMS channel. The gateway rejects the message to the first of
    two SMS subscribers: [sendSMS] reports the failure in its return value,
    the campaign loop discards that value, and the customer is counted as
    sent and delivered; [failed] stays 0 and no error text is recorded.  The
    second customer is still processed. *)
Theorem executeCampaign_counts_rejected_sms_as_sent :
  Twilio.success (Twilio.sendSMS "+1702555" (rejects_first 0 0)) = false /\
  Twilio.error (Twilio.sendSMS "+1702555" (rejects_first 0 0))
    = Some "The 'To' number +1702555 is not a valid phone number" /\
  exists final,
    executeCampaign (calm sms_customers rejects_first) sms_campaign = inr final /\
    execution_results final
      = Some {| sent := 2; delivered := 2; opened := None; clicked := None;
                failed := 0; errors := [] |}.
Proof.
  split; [reflexivity|]. split; [reflexivity|].
  eexists. split; vm_compute; reflexivity.
Qed.

(* ================================================================== *)
(** * Properties of the campaign workflow *)

Section Workflow.
Variable env : Env.

Lemma run_node_keeps_approval (n : Node) (s u : CampaignState) :
  run_node env n s = inr u ->
  requires_approval u = requires_approval s /\ approval_status u = approval_status s.
Proof.
  destruct n; simpl.
  - unfold analyzeCustomerBase. intro H. injection H as <-.
    destruct (query_segment_counts env); [split; reflexivity|].
    destruct (llm_preferences env); split; reflexivity.
  - unfold generateCampaignContent.
    destruct (customer_analysis s) as [analysis|]; [|discriminate].
    destruct (preferences analysis); [discriminate|].
    destruct (llm_content env) as [| |[| |]]; intro H; injection H as <-;
      split; reflexivity.
  - unfold executeCampaign.
    destruct (content_variants s) as [[|v rest]|]; try discriminate.
    destruct (campaign_results env s (v :: rest)) as [results [e|]];
      intro H; injection H as <-; split; reflexivity.
  - unfold monitorCampaignResults. intro H. injection H as <-.
    destruct (llm_monitor env) as [| |[|]]; split; reflexivity.
Qed.

Lemma apply_channels_approval (s u : CampaignState) :
  approval_off s ->
  requires_approval u = requires_approval s ->
  approval_status u = approval_status s ->
  approval_off (apply_channels s u).
Proof.
  intros [Hr Ha] Er Ea. unfold approval_off, apply_channels. simpl.
  rewrite Er, Ea, Hr, Ha. split; reflexivity.
Qed.

Lemma approval_gate_open (s : CampaignState) :
  approval_off s -> next_node generate_content s = Goto execute_campaign.
Proof.
  intros [Hr _]. unfold next_node, approval_gate. rewrite Hr. reflexivity.
Qed.

Lemma run_head (fuel : nat) (n : Node) (s : CampaignState) :
  exists rest, fst (run env (S fuel) n s) = (n, s) :: rest.
Proof.
  simpl. destruct (run_node env n s) as [e|u]; [eexists; reflexivity|].
  destruct (next_node n (apply_channels s u)); try (eexists; reflexivity).
  destruct (run env fuel n0 (apply_channels s u)). eexists; reflexivity.
Qed.

(** What a run from node [n] does when the approval flag is off and the
    fuel covers the rest of the graph. *)
Lemma run_spec (fuel : nat) :
  forall (n : Node) (s : CampaignState),
    approval_off s -> rank n <= fuel ->
    snd (run env fuel n s) <> OutOfFuel /\
    (forall n' s', In (n', s') (fst (run env fuel n s)) -> approval_off s') /\
    (forall final, snd (run env fuel n s) = Finished final -> approval_off final) /\
    (forall pre s0 post update,
        fst (run env fuel n s) = (pre ++ (generate_content, s0) :: post)%list ->
        generateCampaignContent env s0 = inr update ->
        exists s' rest, post = (execute_campaign, s') :: rest).
Proof.
  induction fuel as [|fuel IH]; intros n s Hoff Hrank.
  - destruct n; simpl in Hrank; lia.
  - simpl. destruct (run_node env n s) as [e|u] eqn:Enode.
    + simpl. split; [discriminate|]. split; [|split].
      * intros n' s' [H|[]]. injection H as <- <-. exact Hoff.
      * discriminate.
      * intros pre s0 post update Htrace Hgen.
        destruct pre as [|p pre]; simpl in Htrace.
        -- injection Htrace as -> -> <-. simpl in Enode. congruence.
        -- destruct pre; discriminate.
    + destruct (run_node_keeps_approval n s u Enode) as [Er Ea].
      pose proof (apply_channels_approval s u Hoff Er Ea) as Hoff'.
      set (s1 := apply_channels s u) in *.
      assert (Hnext : n = generate_content -> next_node n s1 = Goto execute_campaign)
        by (intros ->; apply approval_gate_open; exact Hoff').
      destruct (next_node n s1) as [n1| |key] eqn:Enext.
      * assert (Hrank1 : rank n1 <= fuel).
        { destruct n; simpl in Enext, Hrank.
          - repeat match type of Enext with
                   | context [if ?b then _ else _] => destruct b
                   end; try discriminate.
            injection Enext as <-. simpl. lia.
          - injection (Hnext eq_refl) as ->. simpl. lia.
          - injection Enext as <-. simpl. lia.
          - discriminate. }
        destruct (IH n1 s1 Hoff' Hrank1) as [Hfuel [Hall [Hfin Hgate]]].
        assert (Hhead : exists rest, fst (run env fuel n1 s1) = (n1, s1) :: rest).
        { destruct fuel as [|fuel']; [destruct n1; simpl in Hrank1; lia|].
          apply run_head. }
        destruct (run env fuel n1 s1) as [trace outcome]. simpl in *.
        split; [exact Hfuel|]. split; [|split].
        -- intros n' s' [H|H]; [injection H as <- <-; exact Hoff | eapply Hall; exact H].
        -- exact Hfin.
        -- intros pre s0 post update Htrace Hgen.
           destruct pre as [|p pre]; simpl in Htrace.
           ++ injection Htrace as -> -> <-.
              injection (Hnext eq_refl) as ->.
              destruct Hhead as [rest ->]. eexists; eexists; reflexivity.
           ++ injection Htrace as _ Htrace. eapply Hgate; eassumption.
      * simpl. split; [discriminate|]. split; [|split].
        -- intros n' s' [H|[]]. injection H as <- <-. exact Hoff.
        -- intros final H. injection H as <-. exact Hoff'.
        -- intros pre s0 post update Htrace Hgen.
           destruct pre as [|p pre]; simpl in Htrace.
           ++ injection Htrace as -> -> <-.
              discriminate (Hnext eq_refl).
           ++ destruct pre; discriminate.
      * simpl. split; [discriminate|]. split; [|split].
        -- intros n' s' [H|[]]. injection H as <- <-. exact Hoff.
        -- discriminate.
        -- intros pre s0 post update Htrace Hgen.
           destruct pre as [|p pre]; simpl in Htrace.
           ++ injection Htrace as -> -> <-.
              discriminate (Hnext eq_refl).
           ++ destruct pre; discriminate.
Qed.

End Workflow.

Lemma initialState_approval_off (new_id : string) (campaignData : CampaignInput) :
  approval_off (initialState new_id campaignData).
Proof. split; reflexivity. Qed.

(** C10. A campaign created through [createAdvancedCampaign] starts with
    [requires_approval = false] and [approval_status = 'approved']; the
    workflow terminates; no node is entered with, returns, or leaves a state
    whose [requires_approval] is true; so the approval gate is never taken:
    whenever [generate_content] returns (in particular with step
    [content_generated]) the edge taken leads to [execute_campaign], which is
    the next node entered. *)
Theorem approval_gate_never_taken :
  forall (env : Env) (campaignData : CampaignInput),
    let initial := initialState (new_campaign_id env) campaignData in
    requires_approval initial = Some false /\
    approval_status initial = Some approved /\
    snd (invoke env initial) <> OutOfFuel /\
    (forall n s, In (n, s) (fst (invoke env initial)) ->
       requires_approval s = Some false /\
       forall u, run_node env n s = inr u ->
         requires_approval u = Some false /\
         requires_approval (apply_channels s u) = Some false) /\
    (forall final, snd (invoke env initial) = Finished final ->
       requires_approval final = Some false) /\
    (forall s u, In (generate_content, s) (fst (invoke env initial)) ->
       generateCampaignContent env s = inr u ->
       next_node generate_content (apply_channels s u) = Goto execute_campaign) /\
    (forall pre s post u,
       fst (invoke env initial) = (pre ++ (generate_content, s) :: post)%list ->
       generateCampaignContent env s = inr u ->
       exists s' rest, post = (execute_campaign, s') :: rest).
Proof.
  intros env campaignData initial.
  pose proof (initialState_approval_off (new_campaign_id env) campaignData) as Hoff.
  fold initial in Hoff.
  destruct (run_spec env 4 analyze_customers initial Hoff (Nat.le_refl _))
    as [Hfuel [Hall [Hfin Hgate]]].
  fold (invoke env initial) in Hfuel, Hall, Hfin, Hgate.
  assert (Hstep : forall n s u, approval_off s -> run_node env n s = inr u ->
            requires_approval u = Some false /\ approval_off (apply_channels s u)).
  { intros n s u Hs Hu. destruct (run_node_keeps_approval env n s u Hu) as [Er Ea].
    split; [rewrite Er; apply Hs | apply apply_channels_approval; assumption]. }
  split; [apply Hoff|]. split; [apply Hoff|]. split; [exact Hfuel|].
  split; [|split; [|split]].
  - intros n s Hin. split; [apply (Hall n s Hin)|].
    intros u Hu. destruct (Hstep n s u (Hall n s Hin) Hu) as [H1 H2].
    split; [exact H1 | apply H2].
  - intros final H. apply (Hfin final H).
  - intros s u Hin Hu. apply approval_gate_open.
    apply (Hstep generate_content s u (Hall _ s Hin) Hu).
  - exact Hgate.
Qed.

End CampaignProofs.

(* ================================================================== *)
(** * Further properties of the memory store and of the routing *)

Module StoreProofs.
Import Js Orchestrator RoutingSpec MemorySpec PipelineSpec MemoryProofs.

(** X1. [getOrCreateMemory] is idempotent: a second call for the same
    session changes nothing.  The first call leaves an existing memory as it
    is, creates an empty one otherwise, and touches no other session. *)
Theorem getOrCreateMemory_idempotent :
  forall (sid : string) (w : World),
    let w1 := fst (getOrCreateMemory sid w) in
    getOrCreateMemory sid w1 = (w1, Normal sid) /\
    getMemory w1 sid = Some match getMemory w sid with
                            | Some m => m
                            | None => empty_memory sid
                            end /\
    (forall other, other <> sid -> getMemory w1 other = getMemory w other) /\
    same_environment w w1.
Proof.
  intros sid w w1.
  destruct (getOrCreateMemory_spec sid w) as [_ [Hget Hother]]. fold w1 in Hget, Hother.
  split; [|split; [|split]].
  - unfold getOrCreateMemory at 1, bind, gets, modify, ret.
    unfold map_has. unfold getMemory in Hget. rewrite Hget. reflexivity.
  - exact Hget.
  - exact Hother.
  - subst w1. unfold getOrCreateMemory, bind, gets, modify, ret.
    destruct (map_has (memory w) sid); simpl; repeat split.
Qed.

Lemma lower_ascii_idempotent (c : ascii) : lower_ascii (lower_ascii c) = lower_ascii c.
Proof. destruct c as [[] [] [] [] [] [] [] []]; reflexivity. Qed.

Lemma toLowerCase_idempotent (s : string) : toLowerCase (toLowerCase s) = toLowerCase s.
Proof.
  induction s as [|c s IH]; simpl; [reflexivity|].
  rewrite lower_ascii_idempotent, IH. reflexivity.
Qed.

(** The keyword heuristic does not depend on letter case: a message and
    its lower-case form are routed alike, and so are any two messages with
    the same lower-case form. *)
Theorem fallbackRouting_ignores_case :
  forall m : string,
    fallbackRouting (toLowerCase m) = fallbackRouting m /\
    forall m' : string, toLowerCase m' = toLowerCase m ->
                        fallbackRouting m' = fallbackRouting m.
Proof.
  intro m. split.
  - unfold fallbackRouting. rewrite toLowerCase_idempotent. reflexivity.
  - intros m' H. unfold fallbackRouting. rewrite H. reflexivity.
Qed.

Lemma fallbackRouting_known (m : string) :
  In (routed_agent (fallbackRouting m)) validAgents.
Proof.
  unfold fallbackRouting.
  repeat match goal with
         | |- context [if ?b then _ else _] => destruct b
         end; simpl; auto 10.
Qed.

Lemma routeToAgent_run (request : AgentRequest) (w : World) :
  exists (w' : World) (r : Routing),
    routeToAgent request w = (w', Normal r) /\
    In (routed_agent r) validAgents /\
    (llm w' = llm w \/ llm w' = tl (llm w)) /\
    taskQueue w' = taskQueue w /\ heap w' = heap w /\ network w' = network w /\
    memory w' = memory (fst (getOrCreateMemory (session_of request) w)).
Proof.
  unfold routeToAgent; cbv zeta; unfold bind at 1.
  destruct (DispatchProofs.getOrCreateMemory_run (session_of request) w) as [g Hg].
  rewrite Hg. unfold try_catch, bind, llm_invoke, JSON_parse, ret, throw. simpl.
  destruct (llm w) as [|[msg|[parsed|]] rest] eqn:E; simpl.
  - eexists; eexists. split; [reflexivity|].
    split; [apply fallbackRouting_known|]. simpl. rewrite E. auto.
  - eexists; eexists. split; [reflexivity|].
    split; [apply fallbackRouting_known|]. simpl. rewrite E. auto.
  - destruct parsed as [|a c r| | | |]; simpl;
      try (eexists; eexists; split; [reflexivity|];
           split; [first [apply fallbackRouting_known | simpl; auto 10]|];
           simpl; rewrite E; auto).
    destruct (existsb (String.eqb a) validAgents) eqn:Ev;
      pose proof Ev as Ev'; simpl in Ev'; rewrite Ev'; simpl.
    + eexists; eexists. split; [reflexivity|]. split.
      * simpl. apply existsb_exists in Ev. destruct Ev as [x [Hin Hx]].
        apply String.eqb_eq in Hx. subst x. exact Hin.
      * simpl. rewrite E. auto.
    + eexists; eexists. split; [reflexivity|]. split; [simpl; auto 10|].
      simpl. rewrite E. auto.
  - eexists; eexists. split; [reflexivity|].
    split; [apply fallbackRouting_known|]. simpl. rewrite E. auto.
Qed.

(** X2. Whatever the model answers, [routeToAgent] returns (it never
    throws) one of the six known handlers; it consumes at most one model
    answer and leaves the task queue, the task objects and the transport
    untouched; of the memories it touches only the one of the request's
    session, which it creates empty when there is none. *)
Theorem routeToAgent_known_handler :
  forall (request : AgentRequest) (w : World),
    exists (w' : World) (r : Routing),
      routeToAgent request w = (w', Normal r) /\
      In (routed_agent r) validAgents /\
      (llm w' = llm w \/ llm w' = tl (llm w)) /\
      taskQueue w' = taskQueue w /\ heap w' = heap w /\ network w' = network w /\
      getMemory w' (session_of request) = Some (deref w (session_of request)) /\
      (forall other, other <> session_of request -> getMemory w' other = getMemory w other).
Proof.
  intros request w.
  destruct (routeToAgent_run request w)
    as [w' [r [Hrun [Hin [Hllm [Hq [Hh [Hn Hm]]]]]]]].
  destruct (getOrCreateMemory_spec (session_of request) w) as [_ [Hget Hother]].
  exists w', r. repeat (split; [assumption|]).
  unfold getMemory in *. rewrite Hm. split; [exact Hget | exact Hother].
Qed.

(** ** Goal decomposition *)

Lemma with_heap_app (l1 l2 : list Task) (w : World) :
  with_heap (fun h => (h ++ l2)%list) (with_heap (fun h => (h ++ l1)%list) w)
  = with_heap (fun h => (h ++ l1 ++ l2)%list) w.
Proof. unfold with_heap. simpl. rewrite <- app_assoc. reflexivity. Qed.

Lemma with_heap_nil (w : World) : with_heap (fun h => (h ++ [])%list) w = w.
Proof. destruct w. unfold with_heap. simpl. rewrite app_nil_r. reflexivity. Qed.

Lemma allocate_descriptors (ds : list TaskDescriptor) :
  forall w : World,
    map_M (fun d => bind new_Date (fun now => alloc_task (task_of_descriptor d now))) ds w
    = (with_heap (fun h => (h ++ map (fun d => task_of_descriptor d (clock w)) ds)%list) w,
       Normal (seq (List.length (heap w)) (List.length ds))).
Proof.
  induction ds as [|d ds IH]; intro w; simpl.
  - unfold ret. rewrite with_heap_nil. reflexivity.
  - unfold bind at 1. unfold bind at 1, new_Date, gets, alloc_task.
    unfold bind at 1. rewrite IH. unfold ret. simpl.
    rewrite length_app. simpl. rewrite Nat.add_1_r.
    f_equal. apply (with_heap_app [task_of_descriptor d (clock w)]).
Qed.

Lemma decomposeGoalIntoTasks_run (g : string) (ctx : option RequestContext) (w : World) :
  exists (new_tasks : list Task) (w' : World),
    decomposeGoalIntoTasks g ctx w
      = (w', Normal (seq (List.length (heap w)) (List.length new_tasks))) /\
    heap w' = (heap w ++ new_tasks)%list /\
    Forall fresh new_tasks /\
    memory w' = memory w /\ taskQueue w' = taskQueue w /\ network w' = network w /\
    match llm w with
    | LlmContent (Some (JsonTasks ds)) :: _ =>
        exists now, new_tasks = map (fun d => task_of_descriptor d now) ds
    | _ => exists now, new_tasks = [fallback_task g now]
    end.
Proof.
  assert (Hfallback : forall w1 : World,
    heap w1 = heap w -> memory w1 = memory w -> taskQueue w1 = taskQueue w ->
    network w1 = network w ->
    exists new_tasks w',
      bind new_Date (fun now => bind (alloc_task (fallback_task g now))
                                  (fun t => ret [t])) w1
        = (w', Normal (seq (List.length (heap w)) (List.length new_tasks))) /\
      heap w' = (heap w ++ new_tasks)%list /\ Forall fresh new_tasks /\
      memory w' = memory w /\ taskQueue w' = taskQueue w /\ network w' = network w /\
      exists now, new_tasks = [fallback_task g now]).
  { intros w1 Hh Hm Hq Hn.
    exists [fallback_task g (clock w1)]. eexists. split.
    - unfold bind, new_Date, gets, alloc_task, ret. rewrite Hh. reflexivity.
    - simpl. rewrite Hh. repeat split; auto.
      + constructor; [split; reflexivity | constructor].
      + eexists; reflexivity. }
  unfold decomposeGoalIntoTasks, try_catch. unfold bind at 1. unfold llm_invoke.
  destruct (llm w) as [|[msg|[parsed|]] rest] eqn:E.
  - apply Hfallback; reflexivity.
  - apply Hfallback; reflexivity.
  - unfold bind at 1, JSON_parse, ret.
    destruct parsed as [| | |ds| |];
      try (apply Hfallback; reflexivity).
    rewrite allocate_descriptors.
    exists (map (fun d => task_of_descriptor d (clock (with_llm (@tl _) w))) ds).
    eexists. split; [rewrite length_map; reflexivity|].
    simpl. repeat split; auto.
    + apply Forall_forall. intros t Ht. apply in_map_iff in Ht.
      destruct Ht as [d [<- _]]. split; reflexivity.
    + eexists; reflexivity.
  - unfold bind at 1, JSON_parse, throw. apply Hfallback; reflexivity.
Qed.


(** ** More on [updateMemory] *)

Lemma StoreProofs_getOrCreate (sid : string) (w : World) :
  exists w1,
    getOrCreateMemory sid w = (w1, Normal sid) /\
    getMemory w1 sid = Some (deref w sid) /\
    (forall other, other <> sid -> getMemory w1 other = getMemory w other) /\
    same_environment w w1.
Proof.
  destruct (getOrCreateMemory_spec sid w) as [Hc [Hget Hother]].
  destruct (getOrCreateMemory sid w) as [w1 c] eqn:E. simpl in *. subst c.
  exists w1. split; [reflexivity|]. split; [exact Hget|]. split; [exact Hother|].
  revert E. unfold getOrCreateMemory, bind, gets, modify, ret.
  destruct (map_has (memory w) sid); simpl; intro E; injection E as <-; repeat split.
Qed.

Lemma apply_update_frame (m m' : AgentMemory) (u : MemoryUpdate) :
  apply_update m u = inr m' ->
  session_id m' = session_id m /\
  conversation_history m' = conversation_history m /\
  memory_tasks m' = memory_tasks m.
Proof.
  unfold apply_update.
  destruct (upd_type u);
    try (intro H; injection H as <-; repeat split).
  destruct (get (upd_value u) "description"), (get (upd_value u) "status"),
           (get (upd_value u) "priority"); intro H; try discriminate;
    injection H as <-; repeat split.
Qed.

Lemma updateMemory_loop_frame (updates : list MemoryUpdate) :
  forall m : AgentMemory,
    session_id (fst (updateMemory_loop m updates)) = session_id m /\
    conversation_history (fst (updateMemory_loop m updates)) = conversation_history m /\
    memory_tasks (fst (updateMemory_loop m updates)) = memory_tasks m.
Proof.
  induction updates as [|u rest IH]; intro m; simpl; [auto|].
  destruct (apply_update m u) as [e|m1] eqn:E; simpl; [auto|].
  destruct (apply_update_frame m m1 u E) as [H1 [H2 H3]].
  destruct (IH m1) as [I1 [I2 I3]]. rewrite I1, I2, I3. auto.
Qed.

Lemma updateMemory_loop_context (updates : list MemoryUpdate) :
  applicable updates = true ->
  forall (m : AgentMemory) (key : string),
    map_get (context (fst (updateMemory_loop m updates))) key =
    match last_write context_entry key updates with
    | Some u => Some (upd_value u)
    | None => map_get (context m) key
    end.
Proof.
  induction updates as [|u rest IH]; intros Happ m key; [reflexivity|].
  simpl in Happ. apply andb_true_iff in Happ. destruct Happ as [Hu Hrest].
  assert (Hstep : exists m1, apply_update m u = inr m1 /\
            map_get (context m1) key =
            if writes context_entry key u then Some (upd_value u)
            else map_get (context m) key).
  { unfold writes, is_goal in *. destruct (upd_type u) eqn:Et; simpl in *.
    - eexists. split; [unfold apply_update; rewrite Et; reflexivity | reflexivity].
    - eexists. split; [unfold apply_update; rewrite Et; reflexivity | reflexivity].
    - eexists. split; [unfold apply_update; rewrite Et; reflexivity|].
      simpl. apply map_get_set.
    - apply negb_true_iff in Hu.
      eexists. split; [apply apply_update_goal; assumption | reflexivity]. }
  destruct Hstep as [m1 [Hm1 Hc]]. simpl. rewrite Hm1. rewrite (IH Hrest m1 key).
  destruct (last_write context_entry key rest); [reflexivity|].
  rewrite Hc. destruct (writes context_entry key u); reflexivity.
Qed.

Lemma updateMemory_loop_app (l1 l2 : list MemoryUpdate) :
  forall m : AgentMemory,
    updateMemory_loop m (l1 ++ l2) =
    match updateMemory_loop m l1 with
    | (m1, None) => updateMemory_loop m1 l2
    | (m1, Some e) => (m1, Some e)
    end.
Proof.
  induction l1 as [|u rest IH]; intro m; simpl; [reflexivity|].
  destruct (apply_update m u); [reflexivity | apply IH].
Qed.

Lemma apply_update_unreadable_goal (m : AgentMemory) (u : MemoryUpdate) :
  is_goal u = true -> nullish (upd_value u) = true ->
  exists e, apply_update m u = inl e.
Proof.
  unfold is_goal, apply_update. destruct (upd_type u); try discriminate.
  intros _ H. destruct (upd_value u); try discriminate; simpl; eexists; reflexivity.
Qed.

(** What [updateMemory] does to the world, given what its loop does to the
    memory object. *)
Lemma updateMemory_run_any (sid : string) (updates : list MemoryUpdate) (w : World)
  (m' : AgentMemory) (thrown : option Exn) :
  updateMemory_loop (deref w sid) updates = (m', thrown) ->
  exists w',
    updateMemory sid updates w
      = (w', match thrown with
             | None => Normal tt
             | Some e => Throw e
             end) /\
    getMemory w' sid = Some m' /\
    (forall other, other <> sid -> getMemory w' other = getMemory w other) /\
    same_environment w w'.
Proof.
  intro Hloop.
  destruct (StoreProofs_getOrCreate sid w) as [w1 [Hrun [Hget [Hother Henv]]]].
  unfold updateMemory. unfold bind at 1. rewrite Hrun.
  unfold bind at 1, gets at 1.
  rewrite (deref_present w1 sid _ Hget), Hloop.
  destruct (mutate_memory_run sid (fun _ => m') w1 _ Hget) as [w2 [R2 [G2 [O2 S2]]]].
  unfold bind. rewrite R2. exists w2.
  split; [destruct thrown; reflexivity|]. split; [exact G2|]. split.
  - intros other Ho. rewrite (O2 other Ho). apply Hother. exact Ho.
  - unfold same_environment in *.
    destruct Henv as [? [? [? [? ?]]]], S2 as [? [? [? [? ?]]]].
    repeat split; congruence.
Qed.

Lemma updateMemory_eq (sid : string) (updates : list MemoryUpdate) (w : World) :
  updateMemory sid updates w =
  (fst (mutate_memory sid (fun _ => fst (updateMemory_loop (deref w sid) updates))
          (fst (getOrCreateMemory sid w))),
   match snd (updateMemory_loop (deref w sid) updates) with
   | None => Normal tt
   | Some e => Throw e
   end).
Proof.
  destruct (StoreProofs_getOrCreate sid w) as [w1 [Hrun [Hget _]]].
  unfold updateMemory. unfold bind at 1. rewrite Hrun. cbn [fst].
  unfold bind at 1, gets at 1. rewrite (deref_present w1 sid _ Hget).
  destruct (updateMemory_loop (deref w sid) updates) as [m' thrown]. cbn [fst snd].
  destruct (mutate_memory_run sid (fun _ => m') w1 _ Hget) as [w2 [R2 _]].
  unfold bind. rewrite !R2. destruct thrown; reflexivity.
Qed.

(** X4. A goal update whose value is null or undefined ends [updateMemory]
    with an exception at that update: the updates before it stay applied
    (the store is exactly the one the earlier updates alone produce) and the
    updates after it are lost, whatever they are. *)
Theorem updateMemory_stops_at_unreadable_goal :
  forall (w : World) (sid : string) (earlier later : list MemoryUpdate) (u : MemoryUpdate),
    applicable earlier = true ->
    is_goal u = true ->
    nullish (upd_value u) = true ->
    exists (w' : World) (e : Exn),
      updateMemory sid earlier w = (w', Normal tt) /\
      updateMemory sid (earlier ++ u :: later) w = (w', Throw e).
Proof.
  intros w sid earlier later u Happ Hg Hn.
  destruct (updateMemory_loop_spec earlier Happ (deref w sid)) as [m' [Hloop _]].
  destruct (apply_update_unreadable_goal m' u Hg Hn) as [e He].
  rewrite !updateMemory_eq, updateMemory_loop_app, Hloop. simpl. rewrite He. simpl.
  eexists. exists e. split; reflexivity.
Qed.

Lemma updateMemory_stops_at_unreadable_goal_witness :
  exists (w' : World) (e : Exn),
    updateMemory "s1" [an_update fact "diet" (Str "vegan") 1] (idle [] []) = (w', Normal tt) /\
    updateMemory "s1"
      ([an_update fact "diet" (Str "vegan") 1] ++
       an_update goal "g" Null 2 :: [an_update fact "diet" (Str "vegetarian") 3]) (idle [] [])
      = (w', Throw e).
Proof.
  apply (updateMemory_stops_at_unreadable_goal (idle [] []) "s1"
           [an_update fact "diet" (Str "vegan") 1]
           [an_update fact "diet" (Str "vegetarian") 3]
           (an_update goal "g" Null 2)); reflexivity.
Defined.

(** X5. Whatever the updates, and whether or not the loop ends with an
    exception, [updateMemory] touches only the facts, preferences, context
    and goals of its own session: the conversation history and the task map
    of the session, the memory of every other session, and the rest of the
    orchestrator are as before. *)
Theorem updateMemory_frame :
  forall (w : World) (sid : string) (updates : list MemoryUpdate),
    let w' := fst (updateMemory sid updates w) in
    history w' sid = history w sid /\
    memory_tasks (deref w' sid) = memory_tasks (deref w sid) /\
    (forall other, other <> sid -> getMemory w' other = getMemory w other) /\
    same_environment w w'.
Proof.
  intros w sid updates.
  destruct (updateMemory_loop (deref w sid) updates) as [m' thrown] eqn:Hloop.
  destruct (updateMemory_run_any sid updates w m' thrown Hloop)
    as [w1 [Hrun [Hget [Hother Henv]]]].
  cbv zeta. rewrite Hrun. simpl fst. unfold history.
  rewrite (deref_present w1 sid m' Hget).
  pose proof (updateMemory_loop_frame updates (deref w sid)) as F.
  rewrite Hloop in F. simpl in F. destruct F as [_ [F2 F3]].
  repeat split; try assumption; apply Henv.
Qed.

(** Context entries follow the last write: after a list of updates that
    can all be applied, the context value read back at a key is the value of
    the last context update with that key, or what was stored before when
    the list has none. *)
Theorem updateMemory_context_last_write :
  forall (w : World) (sid : string) (updates : list MemoryUpdate),
    applicable updates = true ->
    exists w',
      updateMemory sid updates w = (w', Normal tt) /\
      forall key,
        read_context w' sid key =
        match last_write context_entry key updates with
        | Some u => Some (upd_value u)
        | None => read_context w sid key
        end.
Proof.
  intros w sid updates Happ.
  destruct (updateMemory_loop_spec updates Happ (deref w sid)) as [m' [Hloop _]].
  destruct (updateMemory_run_any sid updates w m' None Hloop) as [w' [Hrun [Hget _]]].
  exists w'. split; [exact Hrun|]. intro key.
  unfold read_context at 1. rewrite Hget.
  pose proof (updateMemory_loop_context updates Happ (deref w sid) key) as C.
  rewrite Hloop in C. simpl in C. rewrite C.
  destruct (last_write context_entry key updates); [reflexivity|].
  unfold read_context, deref. destruct (getMemory w sid); reflexivity.
Qed.

Lemma updateMemory_context_last_write_witness :
  exists w',
    updateMemory "s1"
      [an_update context_entry "table" (Str "4") 1;
       an_update context_entry "table" (Str "7") 2] (idle [] []) = (w', Normal tt) /\
    forall key,
      read_context w' "s1" key =
      match last_write context_entry key
              [an_update context_entry "table" (Str "4") 1;
               an_update context_entry "table" (Str "7") 2] with
      | Some u => Some (upd_value u)
      | None => read_context (idle [] []) "s1" key
      end.
Proof.
  apply (updateMemory_context_last_write (idle [] []) "s1"
           [an_update context_entry "table" (Str "4") 1;
            an_update context_entry "table" (Str "7") 2]).
  reflexivity.
Defined.

End StoreProofs.

(* ================================================================== *)
(** * Properties of the request pipeline *)

Module PipelineProofs.
Import Js Orchestrator RoutingSpec MemorySpec PipelineSpec RequestPipeline.

Lemma slice_last_suffix {A : Type} (n : nat) (l : list A) :
  exists older, l = (older ++ slice_last n l)%list /\
                List.length (slice_last n l) = Nat.min n (List.length l).
Proof.
  unfold slice_last. exists (firstn (List.length l - n) l). split.
  - symmetry. apply firstn_skipn.
  - rewrite length_skipn. lia.
Qed.

(** X6. The memory context handed to the handlers holds the last five
    entries of the fact map, the last three of the preference map and the
    last four of the conversation history (all of them when there are
    fewer), in their stored order, and exactly the goals whose status is
    the string 'active'. *)
Theorem buildMemoryContext_recent :
  forall m : AgentMemory,
    let c := buildMemoryContext m in
    (exists older, facts m = (older ++ recent_facts c)%list) /\
    List.length (recent_facts c) = Nat.min 5 (List.length (facts m)) /\
    (exists older, preferences m = (older ++ recent_preferences c)%list) /\
    List.length (recent_preferences c) = Nat.min 3 (List.length (preferences m)) /\
    (exists older, conversation_history m = (older ++ recent_conversation c)%list) /\
    List.length (recent_conversation c) = Nat.min 4 (List.length (conversation_history m)) /\
    (forall g, In g (active_goals c) <->
               In g (goals m) /\ goal_status g = Str "active").
Proof.
  intro m. cbv zeta. unfold buildMemoryContext. simpl.
  destruct (slice_last_suffix 5 (facts m)) as [o1 [E1 L1]].
  destruct (slice_last_suffix 3 (preferences m)) as [o2 [E2 L2]].
  destruct (slice_last_suffix 4 (conversation_history m)) as [o3 [E3 L3]].
  repeat split; eauto.
  - apply filter_In in H. apply H.
  - apply filter_In in H. destruct H as [_ H]. unfold is_active in H.
    destruct (goal_status g); try discriminate.
    apply String.eqb_eq in H. congruence.
  - intros [Hin Hs]. apply filter_In. split; [exact Hin|].
    unfold is_active. rewrite Hs. reflexivity.
Qed.

Lemma map_set_keys {V : Type} (fs : Map V) (k : string) (v : V) :
  map_has fs k = true -> map fst (map_set fs k v) = map fst fs.
Proof.
  unfold map_has. induction fs as [|[k' v'] rest IH]; simpl; [discriminate|].
  destruct (k' =? k)%string eqn:E; simpl; [reflexivity|].
  intro H. rewrite (IH H). reflexivity.
Qed.

Lemma slice_last_map {A B : Type} (f : A -> B) (n : nat) (l : list A) :
  map f (slice_last n l) = slice_last n (map f l).
Proof. unfold slice_last. rewrite length_map. symmetry. apply skipn_map. Qed.

(** X7. Recency in the memory context is by first insertion: a fact update
    for a key the session already holds replaces the value in place and
    leaves the keys of the recent facts, and their order, unchanged; an old
    fact that is updated again does not become recent. *)
Theorem overwritten_fact_keeps_its_place :
  forall (m m' : AgentMemory) (u : MemoryUpdate),
    upd_type u = fact ->
    map_has (facts m) (upd_key u) = true ->
    apply_update m u = inr m' ->
    map fst (recent_facts (buildMemoryContext m')) =
    map fst (recent_facts (buildMemoryContext m)) /\
    map_get (facts m') (upd_key u) = Some (fact_of u).
Proof.
  intros m m' u Ht Hhas. unfold apply_update. rewrite Ht.
  intro H. injection H as <-. simpl. split.
  - rewrite !slice_last_map. rewrite map_set_keys by exact Hhas. reflexivity.
  - apply MemoryProofs.map_get_set_same.
Qed.

Lemma overwritten_fact_keeps_its_place_witness :
  map fst (recent_facts (buildMemoryContext
     (with_facts (fun fs => map_set fs "diet"
        (fact_of (an_update fact "diet" (Str "vegetarian") 3))) a_memory))) =
  map fst (recent_facts (buildMemoryContext a_memory)) /\
  map_get (facts (with_facts (fun fs => map_set fs "diet"
        (fact_of (an_update fact "diet" (Str "vegetarian") 3))) a_memory)) "diet" =
  Some (fact_of (an_update fact "diet" (Str "vegetarian") 3)).
Proof.
  apply (overwritten_fact_keeps_its_place a_memory _
           (an_update fact "diet" (Str "vegetarian") 3)); reflexivity.
Defined.

End PipelineProofs.

(* ================================================================== *)
(** * Properties of one exchange with a handler *)

Module ExchangeProofs.
Import Js Orchestrator RoutingSpec MemorySpec TaskSpec PipelineSpec RequestPipeline.
Import MemoryProofs.
Local Open Scope js_scope.

Lemma same_environment_trans (w1 w2 w3 : World) :
  same_environment w1 w2 -> same_environment w2 w3 -> same_environment w1 w3.
Proof.
  unfold same_environment. intros [? [? [? [? ?]]]] [? [? [? [? ?]]]].
  repeat split; congruence.
Qed.

(** The steps of [executeAgent] before the dispatch: the session exists and
    its history has received the user's message. *)
Lemma executeAgent_prelude_run (fuel : nat) (a : option string) (request : AgentRequest)
  (w : World) :
  exists w2,
    executeAgent (S fuel) a request w =
      (if is_orchestrator a
       then executeOrchestrator (executeAgent fuel) request
       else try_catch (dispatch a request (session_of request) (session_of request))
                      (fun error => ret (degraded_response a error))) w2 /\
    getMemory w2 (session_of request) =
      Some (with_history (fun h => (h ++ [user_entry request w])%list)
              (deref w (session_of request))) /\
    (forall other, other <> session_of request -> getMemory w2 other = getMemory w other) /\
    same_environment w w2.
Proof.
  simpl. cbv zeta.
  destruct (StoreProofs.StoreProofs_getOrCreate (session_of request) w)
    as [w1 [Hrun [Hget [Hother Henv]]]].
  unfold bind at 1. rewrite Hrun.
  unfold bind at 1, new_Date, gets.
  destruct (mutate_memory_run (session_of request)
              (with_history (fun h => (h ++
                 [{| role := user; content := message request;
                     timestamp := clock w1 |}])%list)) w1 _ Hget)
    as [w2 [R2 [G2 [O2 S2]]]].
  exists w2.
  split; [unfold bind; rewrite R2; reflexivity|]. split; [|split].
  - rewrite G2. unfold user_entry.
    destruct Henv as [_ [_ [_ [_ Hc]]]]. rewrite Hc. reflexivity.
  - intros other Ho. rewrite (O2 other Ho). apply Hother. exact Ho.
  - eapply same_environment_trans; eassumption.
Qed.

Lemma dispatch_fails_quiet (a : option string) (request : AgentRequest) (sid mem : string)
  (w : World) :
  DispatchFails (network w) ->
  exists w' e, dispatch a request sid mem w = (w', Throw e) /\
               quiet w w' /\ llm w' = llm w.
Proof.
  intro Hfail. unfold dispatch. unfold bind at 1.
  destruct (DispatchProofs.endpoint_of_pure a w) as [[ep H]|[e H]]; rewrite H;
    [|exists w, e; unfold quiet; auto].
  unfold bind at 1, fetch.
  inversion Hfail as [E | msg rest E | r rest Hok E | r rest Hok Hbody E
                      | r d rest Hok Hbody Hs E];
    try solve [eexists; eexists; split; [reflexivity | unfold quiet; repeat apply conj; reflexivity]].
  - unfold bind at 1. rewrite Hok. simpl.
    eexists; eexists; split; [reflexivity | unfold quiet; repeat apply conj; reflexivity].
  - unfold bind at 1. rewrite Hok. simpl.
    unfold bind at 1, response_json. rewrite Hbody.
    eexists; eexists; split; [reflexivity | unfold quiet; repeat apply conj; reflexivity].
  - unfold bind at 1. rewrite Hok. simpl.
    unfold bind at 1, response_json. rewrite Hbody. simpl.
    unfold bind at 1. rewrite Hs. simpl.
    eexists; eexists; split; [reflexivity | unfold quiet; repeat apply conj; reflexivity].
Qed.

Lemma knowledge_history (w w' : World) (sid : string) (m : AgentMemory)
  (f : list HistoryEntry -> list HistoryEntry) :
  getMemory w' sid = Some (with_history f m) ->
  m = deref w sid ->
  knowledge w' sid = knowledge w sid /\ history w' sid = f (history w sid).
Proof.
  intros H ->. unfold knowledge, history. rewrite (deref_present w' sid _ H).
  split; reflexivity.
Qed.

(** X8. A dispatch that fails leaves a trace: the user's message is
    appended to the session's history before the handler is called, so after
    the degraded response the history ends with a user entry that has no
    assistant entry; what the session has learnt, the other sessions and the
    inference answers still to come are untouched. *)
Theorem executeAgent_failed_dispatch_keeps_question :
  forall (fuel : nat) (a : option string) (request : AgentRequest) (w : World),
    is_orchestrator a = false ->
    DispatchFails (network w) ->
    exists (w' : World) (e : Exn),
      executeAgent (S fuel) a request w = (w', Normal (degraded_response a e)) /\
      history w' (session_of request) =
        (history w (session_of request) ++ [user_entry request w])%list /\
      knowledge w' (session_of request) = knowledge w (session_of request) /\
      (forall other, other <> session_of request ->
         getMemory w' other = getMemory w other) /\
      llm w' = llm w.
Proof.
  intros fuel a request w Ha Hfail.
  destruct (executeAgent_prelude_run fuel a request w) as [w2 [Hrun [Hget [Hother Henv]]]].
  rewrite Hrun, Ha. unfold try_catch.
  assert (Hfail2 : DispatchFails (network w2)).
  { destruct Henv as [_ [_ [_ [Hn _]]]]. rewrite Hn. exact Hfail. }
  destruct (dispatch_fails_quiet a request (session_of request) (session_of request)
              w2 Hfail2) as [w' [e [He [[Hm _] Hl]]]].
  rewrite He. exists w', e. split; [reflexivity|].
  assert (Hget' : getMemory w' (session_of request) =
                  Some (with_history (fun h => (h ++ [user_entry request w])%list)
                          (deref w (session_of request)))).
  { unfold getMemory. rewrite Hm. exact Hget. }
  destruct (knowledge_history w w' _ _ _ Hget' eq_refl) as [Hk Hh].
  split; [exact Hh|]. split; [exact Hk|]. split.
  - intros other Ho. unfold getMemory. rewrite Hm. apply Hother. exact Ho.
  - rewrite Hl. apply Henv.
Qed.

Lemma executeAgent_failed_dispatch_keeps_question_witness :
  exists (w' : World) (e : Exn),
    executeAgent 1 (Some "crm") table_request
      (idle [] [FetchRejects "connect ECONNREFUSED 127.0.0.1:3000"])
      = (w', Normal (degraded_response (Some "crm") e)) /\
    history w' "s1" =
      [user_entry table_request
         (idle [] [FetchRejects "connect ECONNREFUSED 127.0.0.1:3000"])].
Proof.
  destruct (executeAgent_failed_dispatch_keeps_question 0 (Some "crm") table_request
              (idle [] [FetchRejects "connect ECONNREFUSED 127.0.0.1:3000"])
              eq_refl (transport_error _ _)) as [w' [e [Hrun [Hh _]]]].
  exists w', e. split; [exact Hrun | exact Hh].
Defined.

(** ** Running a computation step by step *)

Section Steps.
Context {A B : Type}.

Lemma bind_normal (m : M A) (k : A -> M B) (w w' : World) (a : A) :
  m w = (w', Normal a) -> bind m k w = k a w'.
Proof. intro H. unfold bind. rewrite H. reflexivity. Qed.

Lemma bind_throw (m : M A) (k : A -> M B) (w w' : World) (e : Exn) :
  m w = (w', Throw e) -> bind m k w = (w', Throw e).
Proof. intro H. unfold bind. rewrite H. reflexivity. Qed.

Lemma try_normal (m : M A) (h : Exn -> M A) (w w' : World) (a : A) :
  m w = (w', Normal a) -> try_catch m h w = (w', Normal a).
Proof. intro H. unfold try_catch. rewrite H. reflexivity. Qed.

Lemma try_throw (m : M A) (h : Exn -> M A) (w w' : World) (e : Exn) :
  m w = (w', Throw e) -> try_catch m h w = h e w'.
Proof. intro H. unfold try_catch. rewrite H. reflexivity. Qed.

End Steps.

Lemma map_M_stamped {A B : Type} (f : A -> Date -> B) (l : list A) (w : World) :
  map_M (fun d => now <- new_Date ;; ret (f d now)) l w =
  (w, Normal (map (fun d => f d (clock w)) l)).
Proof.
  induction l as [|x rest IH]; [reflexivity|]. cbn [map_M map].
  erewrite bind_normal by reflexivity.
  erewrite bind_normal by exact IH. reflexivity.
Qed.


(** [extractMemoryUpdates] always returns a list; it is empty unless the
    inference answers with an array of updates. *)
Lemma extractMemoryUpdates_run (u a : string) (ctx : option RequestContext) (w : World) :
  exists w' ups,
    extractMemoryUpdates u a ctx w = (w', Normal ups) /\
    quiet w w' /\ network w' = network w /\
    ((forall ds rest, llm w <> LlmContent (Some (JsonUpdates ds)) :: rest) -> ups = []) /\
    (forall ds rest, llm w = LlmContent (Some (JsonUpdates ds)) :: rest ->
       ups = map (fun d => update_of_descriptor d (S (clock w))) ds /\ llm w' = rest).
Proof.
  unfold extractMemoryUpdates.
  destruct (llm w) as [|[msg|[j|]] rest] eqn:El.
  - exists w, []. split.
    + erewrite try_throw; [reflexivity|].
      erewrite bind_throw; [reflexivity|]. unfold llm_invoke. rewrite El. reflexivity.
    + unfold quiet. repeat apply conj; try reflexivity; intros; discriminate.
  - exists (with_llm (@tl _) w), []. split.
    + erewrite try_throw; [reflexivity|].
      erewrite bind_throw; [reflexivity|]. unfold llm_invoke. rewrite El. reflexivity.
    + unfold quiet. repeat apply conj; try reflexivity; intros; discriminate.
  - assert (Hinv : llm_invoke w = (with_llm (@tl _) w, Normal (Some j))).
    { unfold llm_invoke. rewrite El. reflexivity. }
    destruct j as [| ? ? ? | ? ? ? | ? | ds | ];
      try (exists (with_llm (@tl _) w), []; split;
           [ erewrite try_throw; [reflexivity|];
             erewrite bind_normal by exact Hinv;
             erewrite bind_normal by reflexivity; reflexivity
           | unfold quiet; repeat apply conj; try reflexivity; intros; discriminate ]).
    exists (with_llm (@tl _) w), (map (fun d => update_of_descriptor d (S (clock w))) ds).
    split.
    + erewrite try_normal; [reflexivity|].
      erewrite bind_normal by exact Hinv.
      erewrite bind_normal by reflexivity.
      exact (map_M_stamped update_of_descriptor ds (with_llm (@tl _) w)).
    + unfold quiet. repeat apply conj; try reflexivity.
      * intro H. exfalso. exact (H ds rest eq_refl).
      * intros ds' rest' H. injection H as <- <-.
        split; [reflexivity | simpl; rewrite El; reflexivity].
  - exists (with_llm (@tl _) w), []. split.
    + erewrite try_throw; [reflexivity|].
      erewrite bind_normal; [|unfold llm_invoke; rewrite El; reflexivity].
      erewrite bind_throw; reflexivity.
    + unfold quiet. repeat apply conj; try reflexivity; intros; discriminate.
Qed.

Lemma endpoint_of_handler (a : string) (w : World) :
  In a handlers -> exists ep, endpoint_of (Some a) w = (w, Normal ep).
Proof.
  unfold handlers. simpl.
  intros [<-|[<-|[<-|[<-|[<-|[]]]]]]; eexists; reflexivity.
Qed.

Lemma handler_is_not_orchestrator (a : string) :
  In a handlers -> is_orchestrator (Some a) = false.
Proof.
  unfold handlers. simpl. intros [<-|[<-|[<-|[<-|[<-|[]]]]]]; reflexivity.
Qed.

(** The [try] block of [executeAgent] when the handler answers with
    success: the assistant's text is recorded, the memory updates are
    extracted and applied, and the response is built from the answer. *)
Lemma dispatch_answers (a : string) (request : AgentRequest) (sid : string) (w : World)
  (d : HandlerData) (m : AgentMemory) :
  In a handlers -> HandlerSucceeds d (network w) -> getMemory w sid = Some m ->
  exists w4 w5 ups w6 c r,
    extractMemoryUpdates (message request) (handler_text d) (request_context request) w4
      = (w5, Normal ups) /\
    updateMemory sid ups w5 = (w6, c) /\
    dispatch (Some a) request sid sid w =
      (w6, match c with
           | Normal _ => Normal r
           | Throw e => Throw e
           | OutOfFuel => OutOfFuel
           end) /\
    (response r = handler_text d /\ agent_used r = Some a /\ data r = DataHandler d /\
     memory_updates r = Some ups /\ intent r = data_intent d) /\
    getMemory w4 sid =
      Some (with_history (fun h => (h ++ [assistant_entry (handler_text d) w4])%list) m) /\
    (forall other, other <> sid -> getMemory w4 other = getMemory w other) /\
    taskQueue w4 = taskQueue w /\ heap w4 = heap w /\ llm w4 = llm w.
Proof.
  intros Ha Hs Hm.
  destruct (endpoint_of_handler a w Ha) as [ep Hep].
  inversion Hs as [r0 rest Hok Hbody Hsucc Hnet].
  assert (Hm3 : getMemory (with_network (@tl _) w) sid = Some m) by exact Hm.
  destruct (mutate_memory_run sid
              (with_history (fun h => (h ++
                 [{| role := assistant; content := handler_text d;
                     timestamp := clock (with_network (@tl _) w) |}])%list))
              (with_network (@tl _) w) m Hm3) as [w4 [R4 [G4 [O4 S4]]]].
  destruct (extractMemoryUpdates (message request) (handler_text d)
              (request_context request) w4) as [w5 cu] eqn:Ex.
  destruct (extractMemoryUpdates_run (message request) (handler_text d)
              (request_context request) w4) as [w5' [ups [Ex' _]]].
  rewrite Ex in Ex'. injection Ex' as <- ->.
  destruct (updateMemory sid ups w5) as [w6 c] eqn:Eu.
  exists w4, w5, ups, w6, c. eexists.
  split; [exact Ex|]. split; [exact Eu|]. split.
  - unfold dispatch.
    erewrite bind_normal by exact Hep.
    erewrite bind_normal; [|unfold fetch; rewrite <- Hnet; reflexivity].
    rewrite Hok. simpl negb. cbv iota.
    erewrite bind_normal by reflexivity.
    erewrite bind_normal; [|unfold response_json; rewrite Hbody; reflexivity].
    rewrite Hsucc. simpl negb. cbv iota.
    erewrite bind_normal by reflexivity.
    cbv zeta.
    erewrite bind_normal by reflexivity.
    erewrite bind_normal by exact R4.
    erewrite bind_normal by exact Ex.
    unfold bind. rewrite Eu. destruct c; reflexivity.
  - split; [repeat split|]. split; [|split].
    + rewrite G4. unfold assistant_entry.
      destruct S4 as [_ [_ [_ [_ Hc]]]]. rewrite Hc. reflexivity.
    + intros other Ho. rewrite (O4 other Ho). reflexivity.
    + destruct S4 as [Hq [Hh [Hl _]]]. rewrite Hq, Hh, Hl. repeat split.
Qed.

Lemma transcript_app (w w' : World) (sid : string) (entries : list HistoryEntry) :
  history w' sid = (history w sid ++ entries)%list ->
  transcript w' sid =
  (transcript w sid ++ map (fun e => (role e, content e)) entries)%list.
Proof. unfold transcript. intros ->. apply map_app. Qed.

(** [executeAgent] on a handler that answers with success, up to the point
    where the extracted updates are applied. *)
Lemma executeAgent_answered (fuel : nat) (a : string) (request : AgentRequest) (w : World)
  (d : HandlerData) :
  In a handlers -> HandlerSucceeds d (network w) ->
  exists w5 ups w6 c r,
    updateMemory (session_of request) ups w5 = (w6, c) /\
    executeAgent (S fuel) (Some a) request w =
      (w6, match c with
           | Normal _ => Normal r
           | Throw e => Normal (degraded_response (Some a) e)
           | OutOfFuel => OutOfFuel
           end) /\
    (response r = handler_text d /\ agent_used r = Some a /\ data r = DataHandler d /\
     memory_updates r = Some ups /\ intent r = data_intent d) /\
    transcript w5 (session_of request) =
      (transcript w (session_of request) ++
       [(user, message request); (assistant, handler_text d)])%list /\
    knowledge w5 (session_of request) = knowledge w (session_of request) /\
    (forall other, other <> session_of request -> getMemory w5 other = getMemory w other) /\
    taskQueue w5 = taskQueue w /\ heap w5 = heap w /\
    ((forall ds rest, llm w <> LlmContent (Some (JsonUpdates ds)) :: rest) -> ups = []) /\
    (forall ds rest, llm w = LlmContent (Some (JsonUpdates ds)) :: rest ->
       exists t, ups = map (fun x => update_of_descriptor x t) ds).
Proof.
  intros Ha Hs. set (sid := session_of request).
  destruct (executeAgent_prelude_run fuel (Some a) request w)
    as [w2 [Hrun [Hget [Hother [Hq2 [Hh2 [Hl2 [Hn2 Hc2]]]]]]]].
  fold sid in Hget, Hother.
  rewrite (handler_is_not_orchestrator a Ha) in Hrun.
  assert (Hs2 : HandlerSucceeds d (network w2)) by (rewrite Hn2; exact Hs).
  destruct (dispatch_answers a request sid w2 d _ Ha Hs2 Hget)
    as [w4 [w5 [ups [w6 [c [r [Ex [Eu [Hd [Hr [G4 [O4 [Hq4 [Hh4 Hl4]]]]]]]]]]]]]].
  destruct (extractMemoryUpdates_run (message request) (handler_text d)
              (request_context request) w4)
    as [w5' [ups' [Ex' [[Hm5 [Hq5 Hh5]] [_ [Hnone Hsome]]]]]].
  rewrite Ex in Ex'. injection Ex' as <- <-.
  exists w5, ups, w6, c, r.
  split; [exact Eu|]. split.
  { rewrite Hrun. fold sid. unfold try_catch. rewrite Hd. destruct c; reflexivity. }
  split; [exact Hr|].
  assert (G5 : getMemory w5 sid =
               Some (with_history
                       (fun h => ((h ++ [user_entry request w]) ++
                                  [assistant_entry (handler_text d) w4])%list)
                       (deref w sid))).
  { unfold getMemory. rewrite Hm5. exact G4. }
  destruct (knowledge_history w w5 sid _ _ G5 eq_refl) as [Hk Hh].
  split.
  { rewrite <- app_assoc in Hh. rewrite (transcript_app w w5 sid _ Hh). reflexivity. }
  split; [exact Hk|]. split.
  { intros other Ho. unfold getMemory. rewrite Hm5.
    fold (getMemory w4 other). rewrite (O4 other Ho). apply Hother. exact Ho. }
  split; [congruence|]. split; [congruence|]. split.
  - intro H. apply Hnone. intros ds rest. rewrite Hl4, Hl2. apply H.
  - intros ds rest H. eexists. eapply Hsome. rewrite Hl4, Hl2. exact H.
Qed.

(** What applying the extracted updates leaves of the session. *)
Lemma updateMemory_keeps_transcript (sid : string) (ups : list MemoryUpdate)
  (w w' : World) (c : Completion unit) :
  updateMemory sid ups w = (w', c) ->
  transcript w' sid = transcript w sid /\
  (forall other, other <> sid -> getMemory w' other = getMemory w other) /\
  same_environment w w' /\
  match snd (updateMemory_loop (deref w sid) ups) with
  | None => c = Normal tt /\
            getMemory w' sid = Some (fst (updateMemory_loop (deref w sid) ups))
  | Some e => c = Throw e
  end.
Proof.
  intro Hrun.
  destruct (updateMemory_loop (deref w sid) ups) as [m' thrown] eqn:Hloop.
  destruct (StoreProofs.updateMemory_run_any sid ups w m' thrown Hloop)
    as [w1 [Hrun1 [Hget [Hother Henv]]]].
  rewrite Hrun in Hrun1. injection Hrun1 as <- ->.
  pose proof (StoreProofs.updateMemory_loop_frame ups (deref w sid)) as F.
  rewrite Hloop in F. simpl in F. destruct F as [_ [F2 _]].
  split.
  { unfold transcript, history. rewrite (deref_present w' sid m' Hget), F2. reflexivity. }
  split; [exact Hother|]. split; [exact Henv|].
  simpl. destruct thrown; [reflexivity | split; [reflexivity | exact Hget]].
Qed.

(** X9. When the handler answers with success, [executeAgent] returns a
    response and the session's history has received exactly two entries,
    the user's message and the handler's text, whatever the memory
    extraction does afterwards; the response is either the handler's answer
    or, when applying the extracted updates throws, the degraded response.
    Other sessions, the task heap and the task queue are untouched. *)
Theorem executeAgent_records_exchange :
  forall (fuel : nat) (a : string) (request : AgentRequest) (w : World) (d : HandlerData),
    In a handlers ->
    HandlerSucceeds d (network w) ->
    exists (w' : World) (r : AgentResponse),
      executeAgent (S fuel) (Some a) request w = (w', Normal r) /\
      transcript w' (session_of request) =
        (transcript w (session_of request) ++
         [(user, message request); (assistant, handler_text d)])%list /\
      ((response r = handler_text d /\ agent_used r = Some a /\ data r = DataHandler d) \/
       (exists e, r = degraded_response (Some a) e)) /\
      (forall other, other <> session_of request ->
         getMemory w' other = getMemory w other) /\
      taskQueue w' = taskQueue w /\ heap w' = heap w.
Proof.
  intros fuel a request w d Ha Hs.
  destruct (executeAgent_answered fuel a request w d Ha Hs)
    as [w5 [ups [w6 [c [r [Eu [Hrun [Hr [Ht [_ [Ho [Hq [Hh _]]]]]]]]]]]]].
  destruct (updateMemory_keeps_transcript _ _ _ _ _ Eu) as [Ht6 [Ho6 [Henv Hc]]].
  destruct Henv as [Hq6 [Hh6 _]].
  assert (Hrest : transcript w6 (session_of request) =
            (transcript w (session_of request) ++
             [(user, message request); (assistant, handler_text d)])%list /\
          (forall other, other <> session_of request ->
             getMemory w6 other = getMemory w other) /\
          taskQueue w6 = taskQueue w /\ heap w6 = heap w).
  { repeat split; try congruence.
    intros other Hne. rewrite (Ho6 other Hne). apply Ho. exact Hne. }
  destruct Hrest as [T [O [Q H]]].
  destruct (snd (updateMemory_loop (deref w5 (session_of request)) ups)) as [e|].
  - subst c. exists w6, (degraded_response (Some a) e).
    split; [exact Hrun|]. split; [exact T|]. split; [right; exists e; reflexivity|].
    auto.
  - destruct Hc as [-> _]. exists w6, r.
    split; [exact Hrun|]. split; [exact T|].
    split; [left; destruct Hr as [? [? [? _]]]; auto|]. auto.
Qed.

Lemma executeAgent_records_exchange_witness :
  exists (w' : World) (r : AgentResponse),
    executeAgent 1 (Some "postgres") table_request
      (idle [] [http_ok (a_handler_answer "We have a table at 7pm")]) = (w', Normal r) /\
    transcript w' "s1" =
      [(user, "Can I get reservations for tonight?");
       (assistant, "We have a table at 7pm")].
Proof.
  destruct (executeAgent_records_exchange 0 "postgres" table_request
              (idle [] [http_ok (a_handler_answer "We have a table at 7pm")])
              (a_handler_answer "We have a table at 7pm"))
    as [w' [r [Hrun [Ht _]]]].
  - simpl. auto.
  - apply handler_succeeds; reflexivity.
  - exists w', r. split; [exact Hrun | exact Ht].
Defined.

(** X10. A failing memory extraction is harmless: unless the inference
    answers with an array of updates (it is unavailable, errors, returns
    text that is not JSON, or JSON of another shape), the handler's answer
    is returned with an empty list of memory updates and what the session
    has learnt is unchanged. *)
Theorem executeAgent_extraction_failure_is_harmless :
  forall (fuel : nat) (a : string) (request : AgentRequest) (w : World) (d : HandlerData),
    In a handlers ->
    HandlerSucceeds d (network w) ->
    (forall ds rest, llm w <> LlmContent (Some (JsonUpdates ds)) :: rest) ->
    exists (w' : World) (r : AgentResponse),
      executeAgent (S fuel) (Some a) request w = (w', Normal r) /\
      response r = handler_text d /\
      data r = DataHandler d /\
      memory_updates r = Some [] /\
      knowledge w' (session_of request) = knowledge w (session_of request).
Proof.
  intros fuel a request w d Ha Hs Hllm.
  destruct (executeAgent_answered fuel a request w d Ha Hs)
    as [w5 [ups [w6 [c [r [Eu [Hrun [Hr [_ [Hk [_ [_ [_ [Hnone _]]]]]]]]]]]]]].
  rewrite (Hnone Hllm) in *.
  destruct (updateMemory_keeps_transcript _ _ _ _ _ Eu) as [_ [_ [_ Hc]]].
  simpl in Hc. destruct Hc as [-> Hget].
  exists w6, r. split; [exact Hrun|].
  destruct Hr as [H1 [_ [H3 [H4 _]]]].
  split; [exact H1|]. split; [exact H3|]. split; [exact H4|].
  rewrite <- Hk. unfold knowledge. rewrite (deref_present w6 _ _ Hget). reflexivity.
Qed.

Lemma executeAgent_extraction_failure_is_harmless_witness :
  exists (w' : World) (r : AgentResponse),
    executeAgent 1 (Some "postgres") table_request
      (idle [LlmError "429 Too Many Requests"]
            [http_ok (a_handler_answer "We have a table at 7pm")]) = (w', Normal r) /\
    response r = "We have a table at 7pm" /\
    memory_updates r = Some [].
Proof.
  destruct (executeAgent_extraction_failure_is_harmless 0 "postgres" table_request
              (idle [LlmError "429 Too Many Requests"]
                    [http_ok (a_handler_answer "We have a table at 7pm")])
              (a_handler_answer "We have a table at 7pm"))
    as [w' [r [Hrun [H1 [_ [H2 _]]]]]].
  - simpl. auto.
  - apply handler_succeeds; reflexivity.
  - intros ds rest. simpl. discriminate.
  - exists w', r. split; [exact Hrun|]. split; [exact H1 | exact H2].
Defined.

Lemma updateMemory_loop_unreadable (t : Date) (ds : list UpdateDescriptor) :
  existsb unreadable_goal ds = true ->
  forall m, exists e,
    snd (updateMemory_loop m (map (fun x => update_of_descriptor x t) ds)) = Some e.
Proof.
  induction ds as [|x rest IH]; simpl; [discriminate|].
  intros H m.
  destruct (apply_update m (update_of_descriptor x t)) as [e|m1] eqn:E.
  - exists e. reflexivity.
  - apply orb_true_iff in H. destruct H as [H|H]; [|apply IH; exact H].
    exfalso. unfold unreadable_goal in H.
    destruct (ud_type x) eqn:Et; try discriminate.
    destruct (StoreProofs.apply_update_unreadable_goal m (update_of_descriptor x t))
      as [e He].
    + unfold is_goal. simpl. rewrite Et. reflexivity.
    + exact H.
    + rewrite He in E. discriminate.
Qed.

(** X11. One unreadable update spoils a successful answer: when the handler
    answers with success but the extracted updates contain a goal whose
    value is null or undefined, [executeAgent] returns the degraded response
    (confidence 0.1, hand-off requested) instead of the handler's answer,
    although the handler has done its work and its text is already recorded
    in the session's history. *)
Theorem executeAgent_unreadable_goal_degrades_answer :
  forall (fuel : nat) (a : string) (request : AgentRequest) (w : World) (d : HandlerData)
         (ds : list UpdateDescriptor),
    In a handlers ->
    HandlerSucceeds d (network w) ->
    ExtractionYields ds (llm w) ->
    existsb unreadable_goal ds = true ->
    exists (w' : World) (e : Exn),
      executeAgent (S fuel) (Some a) request w
        = (w', Normal (degraded_response (Some a) e)) /\
      transcript w' (session_of request) =
        (transcript w (session_of request) ++
         [(user, message request); (assistant, handler_text d)])%list.
Proof.
  intros fuel a request w d ds Ha Hs [rest Hllm] Hbad.
  destruct (executeAgent_answered fuel a request w d Ha Hs)
    as [w5 [ups [w6 [c [r [Eu [Hrun [_ [Ht [_ [_ [_ [_ [_ Hsome]]]]]]]]]]]]]].
  destruct (Hsome ds rest Hllm) as [t ->].
  destruct (updateMemory_keeps_transcript _ _ _ _ _ Eu) as [Ht6 [_ [_ Hc]]].
  destruct (updateMemory_loop_unreadable t ds Hbad (deref w5 (session_of request)))
    as [e He].
  rewrite He in Hc. subst c.
  exists w6, e. split; [exact Hrun | congruence].
Qed.

Lemma executeAgent_unreadable_goal_degrades_answer_witness :
  exists (w' : World) (e : Exn),
    executeAgent 1 (Some "postgres") table_request
      (idle [LlmContent (Some (JsonUpdates [a_fact "party" "4"; a_null_goal]))]
            [http_ok (a_handler_answer "We have a table at 7pm")])
      = (w', Normal (degraded_response (Some "postgres") e)) /\
    transcript w' "s1" =
      [(user, "Can I get reservations for tonight?");
       (assistant, "We have a table at 7pm")].
Proof.
  apply (executeAgent_unreadable_goal_degrades_answer 0 "postgres" table_request
           (idle [LlmContent (Some (JsonUpdates [a_fact "party" "4"; a_null_goal]))]
                 [http_ok (a_handler_answer "We have a table at 7pm")])
           (a_handler_answer "We have a table at 7pm")
           [a_fact "party" "4"; a_null_goal]).
  - simpl. auto.
  - apply handler_succeeds; reflexivity.
  - eexists. reflexivity.
  - reflexivity.
Defined.

(** ** The orchestrator *)

Lemma getOrCreateMemory_present (sid : string) (w : World) (m : AgentMemory) :
  getMemory w sid = Some m -> getOrCreateMemory sid w = (w, Normal sid).
Proof.
  unfold getMemory, getOrCreateMemory, bind, gets, map_has. intro H. rewrite H.
  reflexivity.
Qed.

(** X12. When the goal analysis fails (the inference is unavailable, errors
    or returns text that is not JSON), the orchestrator answers with its
    fixed response of confidence 0.5 and plans nothing: no task is created
    or queued and no handler is called; only the user's message has been
    added to the session's history. *)
Theorem executeOrchestrator_goal_analysis_failure :
  forall (fuel : nat) (request : AgentRequest) (w : World),
    InferenceFails (llm w) ->
    exists (w' : World) (e : Exn),
      executeAgent (S fuel) (Some "orchestrator") request w
        = (w', Normal (orchestrator_error_response e)) /\
      confidence (orchestrator_error_response e) = 0.5 /\
      transcript w' (session_of request) =
        (transcript w (session_of request) ++ [(user, message request)])%list /\
      knowledge w' (session_of request) = knowledge w (session_of request) /\
      heap w' = heap w /\ taskQueue w' = taskQueue w /\ network w' = network w.
Proof.
  intros fuel request w Hfail.
  destruct (executeAgent_prelude_run fuel (Some "orchestrator") request w)
    as [w2 [Hrun [Hget [_ [Hq2 [Hh2 [Hl2 [Hn2 _]]]]]]]].
  change (is_orchestrator (Some "orchestrator")) with true in Hrun. cbv iota in Hrun.
  destruct (knowledge_history w w2 _ _ _ Hget eq_refl) as [Hk Hh].
  pose proof (transcript_app w w2 _ _ Hh) as Ht. simpl in Ht.
  assert (Hbody : exists w3 e,
    executeOrchestrator (executeAgent fuel) request w2
      = (w3, Normal (orchestrator_error_response e)) /\
    memory w3 = memory w2 /\ heap w3 = heap w2 /\ taskQueue w3 = taskQueue w2 /\
    network w3 = network w2).
  { unfold executeOrchestrator. cbv zeta.
    erewrite bind_normal by (eapply getOrCreateMemory_present; exact Hget).
    rewrite <- Hl2 in Hfail.
    inversion Hfail as [E | msg rest E | rest E].
    - exists w2. eexists. split; [|repeat split].
      erewrite try_throw; [reflexivity|].
      erewrite bind_throw; [reflexivity|]. unfold llm_invoke. rewrite <- E. reflexivity.
    - exists (with_llm (@tl _) w2). eexists. split; [|repeat split].
      erewrite try_throw; [reflexivity|].
      erewrite bind_throw; [reflexivity|]. unfold llm_invoke. rewrite <- E. reflexivity.
    - exists (with_llm (@tl _) w2). eexists. split; [|repeat split].
      erewrite try_throw; [reflexivity|].
      erewrite bind_normal; [|unfold llm_invoke; rewrite <- E; reflexivity].
      erewrite bind_throw; reflexivity. }
  destruct Hbody as [w3 [e [Hrun3 [Hm3 [Hh3 [Hq3 Hn3]]]]]].
  exists w3, e. rewrite Hrun, Hrun3.
  split; [reflexivity|]. split; [reflexivity|].
  assert (Hsame : forall sid, deref w3 sid = deref w2 sid).
  { intro sid. unfold deref, getMemory. rewrite Hm3. reflexivity. }
  split; [unfold transcript, history in *; rewrite Hsame; exact Ht|].
  split; [unfold knowledge in *; rewrite Hsame; exact Hk|].
  repeat split; congruence.
Qed.

Lemma executeOrchestrator_goal_analysis_failure_witness :
  exists (w' : World) (e : Exn),
    executeAgent 1 (Some "orchestrator") plan_request
      (idle [LlmError "503 Service Unavailable"] [])
      = (w', Normal (orchestrator_error_response e)) /\
    heap w' = [] /\ taskQueue w' = [].
Proof.
  destruct (executeOrchestrator_goal_analysis_failure 0 plan_request
              (idle [LlmError "503 Service Unavailable"] []))
    as [w' [e [Hrun [_ [_ [_ [Hh [Hq _]]]]]]]].
  - apply gateway_error.
  - exists w', e. split; [exact Hrun|]. split; [exact Hh | exact Hq].
Defined.

(** ** The whole request *)

(** The logging step of [processRequest] returns whatever the database
    call does. *)
Lemma logging_is_contained (q : Postgres.Callee) (call : string * list Postgres.SqlParam)
  (w : World) :
  try_catch (_ <- lift (q call) ;; ret tt) (fun error => ret tt) w = (w, Normal tt).
Proof. unfold try_catch, bind, lift. destruct (q call); reflexivity. Qed.

(** X13. [processRequest] always answers: it routes to one of the known
    handlers, returns the response [executeAgent] gives for that handler,
    and the outcome of the conversation log (written, refused, or throwing)
    changes neither the response nor the state of the orchestrator. *)
Theorem processRequest_always_answers :
  forall (executeQuery : Postgres.Callee) (request : AgentRequest) (w : World),
    exists (w' : World) (p : ProcessedResponse),
      processRequest (enough_fuel w) executeQuery request w = (w', Normal p) /\
      In (routed_agent (routing p)) validAgents /\
      (exists w1,
         routeToAgent request w = (w1, Normal (routing p)) /\
         executeAgent (enough_fuel w) (Some (routed_agent (routing p))) request w1
           = (w', Normal (answered p))) /\
      (forall other : Postgres.Callee,
         processRequest (enough_fuel w) other request w = (w', Normal p)).
Proof.
  intros q request w.
  destruct (StoreProofs.routeToAgent_run request w)
    as [w1 [routed [Hroute [Hin [Hllm _]]]]].
  assert (Hlen : (List.length (llm w1) <= List.length (llm w))%nat).
  { destruct Hllm as [-> | ->]; [apply Nat.le_refl|].
    destruct (llm w); simpl; [apply Nat.le_refl | apply Nat.le_succ_diag_r]. }
  destruct (Halting.returns_executeAgent (List.length (llm w)) (Some (routed_agent routed))
              request w1 Hlen) as [[r Hr] _].
  destruct (executeAgent (S (List.length (llm w))) (Some (routed_agent routed)) request w1)
    as [w2 c] eqn:Eexec.
  simpl in Hr. subst c.
  assert (Hrun : forall q', processRequest (enough_fuel w) q' request w =
                            (w2, Normal {| answered := r; routing := routed |})).
  { intro q'. unfold processRequest. cbv zeta.
    erewrite bind_normal by exact Hroute.
    erewrite bind_normal by exact Eexec.
    erewrite bind_normal by apply logging_is_contained. reflexivity. }
  exists w2, {| answered := r; routing := routed |}.
  split; [apply Hrun|]. split; [exact Hin|]. split; [|exact Hrun].
  exists w1. split; [exact Hroute | exact Eexec].
Qed.

End ExchangeProofs.

(* ================================================================== *)
(** * Properties of the database toolkit and of the customer route *)

Module DatabaseProofs.
Import Js Postgres SqlSpec.


(** X15. Every statement of the toolkit binds its parameters exactly: the
    text of [getCustomer], [createOrUpdateCustomer], [logConversation],
    [createReservation] and [getReservations] refers to [$1 .. $n] and the
    call passes [n] values, whatever the arguments (an absent optional field
    is passed as a null value, not dropped). *)
Theorem toolkit_statements_bind_exactly :
  (forall r i t, binds_exactly (getCustomer_query r i t) = true) /\
  (forall c, binds_exactly (createOrUpdateCustomer_query c) = true) /\
  (forall c, binds_exactly (logConversation_query c) = true) /\
  (forall r, binds_exactly (createReservation_query r) = true) /\
  (forall d, binds_exactly (getReservations_query d) = true).
Proof.
  split; [|split; [|split; [|split]]]; intros.
  - destruct t; reflexivity.
  - reflexivity.
  - reflexivity.
  - reflexivity.
  - unfold getReservations_query. destruct (str_truthy d); reflexivity.
Qed.

(** X16. The statement [getCustomers] builds binds its parameters exactly,
    whichever filters are present: the running index [paramIndex] and the
    parameter array stay in step, also for the search clause, which uses
    its placeholder three times for one value. *)
Theorem getCustomers_query_binds_exactly :
  forall (restaurant_id : string) (filters : option Crm.Filters),
    binds_exactly (Crm.getCustomers_query restaurant_id filters) = true /\
    hd_error (snd (Crm.getCustomers_query restaurant_id filters))
      = Some (SqlText restaurant_id).
Proof.
  intros r [f|]; [|split; reflexivity].
  unfold Crm.getCustomers_query. destruct f as [sms email tags search].
  cbn [Crm.f_opt_in_sms Crm.f_opt_in_email Crm.f_tags Crm.f_search].
  destruct sms, email, tags as [[|t l]|], search as [[|c s]|]; split; reflexivity.
Qed.

(** X17. The statement [updateCustomerInteraction] builds binds its
    parameters exactly, whichever interaction fields are present; its first
    two parameters are always the restaurant and the phone number that the
    WHERE clause refers to as [$1] and [$2]. *)
Theorem updateCustomerInteraction_query_binds_exactly :
  forall (restaurant_id : string) (customer_phone : option string)
         (interaction_data : option Crm.InteractionData),
    let statement :=
      Crm.updateCustomerInteraction_query restaurant_id customer_phone interaction_data in
    binds_exactly statement = true /\
    firstn 2 (snd statement) = [SqlText restaurant_id; opt_text customer_phone].
Proof.
  intros r phone [d|]; [|split; reflexivity].
  unfold Crm.updateCustomerInteraction_query. destruct d as [spent visits points notes tags summary].
  cbn [Crm.i_total_spent Crm.i_visit_count_increment Crm.i_loyalty_points_increment
       Crm.i_notes Crm.i_tags Crm.i_conversation_summary].
  destruct spent, (Crm.num_truthy visits), (Crm.num_truthy points),
           notes as [[|c1 s1]|], tags, summary as [[|c2 s2]|]; split; reflexivity.
Qed.

(** X18. With the toolkit's [executeQuery], which reports failure by return
    value, the four functions of the customer route never report a database
    failure: for every valid action the route answers 200 with
    [success: true], and when the database cannot be reached the only sign
    is that the customer, customers or segments field is absent. *)
Theorem crm_route_masks_database_failure :
  forall (db : Database) (p : Crm.CrmPayload),
    In (Crm.action p) the_crm_actions ->
    Crm.status (Crm.POST (toolkit db) (Some p)) = 200%nat /\
    Crm.body_success (Crm.body (Crm.POST (toolkit db) (Some p))) = true /\
    ((forall q, exists msg, connect db q = ConnectFails msg) ->
     In (Crm.body (Crm.POST (toolkit db) (Some p)))
        [Crm.CustomerBody None; Crm.CustomersBody None; Crm.SegmentsBody None]).
Proof.
  intros db p Hin. unfold the_crm_actions in Hin. simpl in Hin.
  assert (Hdown : (forall q, exists msg, connect db q = ConnectFails msg) ->
                  forall statement, data (run db statement) = None).
  { intros H statement. unfold run, executeQuery.
    destruct (H (fst statement)) as [msg ->]. reflexivity. }
  unfold Crm.POST.
  destruct Hin as [E|[E|[E|[E|[]]]]]; rewrite <- E; simpl;
    unfold Crm.createCustomer, Crm.getCustomers, Crm.updateCustomerInteraction,
           Crm.getCustomerSegments, toolkit, Crm.first_row;
    (split; [reflexivity|]; split; [reflexivity|]; intro H; rewrite (Hdown H); simpl; auto).
Qed.

Lemma crm_route_masks_database_failure_witness :
  Crm.status (Crm.POST (toolkit (unreachable "connection refused")) (Some segments_request))
    = 200%nat /\
  Crm.body_success
    (Crm.body (Crm.POST (toolkit (unreachable "connection refused"))
                 (Some segments_request))) = true.
Proof.
  destruct (crm_route_masks_database_failure (unreachable "connection refused")
              segments_request) as [H1 [H2 _]].
  - simpl. auto.
  - split; [exact H1 | exact H2].
Defined.

(** X19. Every action name [determineCRMAction] can choose is one the
    customer route accepts: a request built by [executeAgent] for the
    customer handler is never answered 'Invalid action', and the route
    answers it with status 200 whatever the database call does, also when
    it throws. *)
Theorem determineCRMAction_is_accepted :
  forall (msg : string) (executeQuery : Callee) (p : Crm.CrmPayload),
    Crm.action p = RequestPipeline.determineCRMAction msg ->
    In (Crm.action p) the_crm_actions /\
    Crm.status (Crm.POST executeQuery (Some p)) = 200%nat.
Proof.
  intros msg q p E. rewrite E. unfold Crm.POST. rewrite E.
  unfold RequestPipeline.determineCRMAction. cbv zeta.
  repeat match goal with
         | |- context [if ?b then _ else _] =>
             match b with
             | orb _ _ => destruct b
             end
         end; simpl; auto 10.
Qed.

Lemma determineCRMAction_is_accepted_witness :
  In (Crm.action segments_request) the_crm_actions /\
  Crm.status (Crm.POST (toolkit (unreachable "connection refused"))
                (Some segments_request)) = 200%nat.
Proof.
  apply (determineCRMAction_is_accepted "Show me the customer segments"
           (toolkit (unreachable "connection refused")) segments_request).
  reflexivity.
Defined.

End DatabaseProofs.

(* ================================================================== *)
(** * Properties of the campaign route and of the e-mail toolkit *)

Module RouteProofs.
Import Js Orchestrator RouteSpec.

(** X20. No action name [determineCampaignAction] can choose is one the
    campaign route accepts: the route knows 'create_advanced_campaign' and
    'get_campaign_status' only, so a request carrying the action chosen for
    a message is answered 400 'Invalid action' whatever the message; and
    when the transport delivers that answer, [executeAgent] for the
    campaign handler returns the degraded response. *)
Theorem determineCampaignAction_is_refused :
  forall (msg : string) (env : Campaigns.Env) (activeWorkflows : Map Campaigns.CampaignState)
         (p : CampaignRoute.CampaignPayload),
    CampaignRoute.action p = RequestPipeline.determineCampaignAction msg ->
    let reply := CampaignRoute.POST env activeWorkflows (Some p) in
    reply = {| CampaignRoute.status := 400;
               CampaignRoute.body := CampaignRoute.ErrorBody "Invalid action" |} /\
    forall (fuel : nat) (request : AgentRequest) (w : World) (r : HttpResponse)
           (rest : list FetchReply),
      network w = FetchResponds r :: rest ->
      ok r = ok_of_status (CampaignRoute.status reply) ->
      exists (w' : World) (e : Exn),
        executeAgent (S fuel) (Some "campaigns") request w
          = (w', Normal (degraded_response (Some "campaigns") e)).
Proof.
  intros msg env wf p E.
  assert (H : CampaignRoute.POST env wf (Some p) =
              {| CampaignRoute.status := 400;
                 CampaignRoute.body := CampaignRoute.ErrorBody "Invalid action" |}).
  { unfold CampaignRoute.POST. rewrite E.
    unfold RequestPipeline.determineCampaignAction. cbv zeta.
    repeat match goal with
           | |- context [if ?b then _ else _] =>
               match b with
               | orb _ _ => destruct b
               | includes _ _ => destruct b
               end
           end; reflexivity. }
  cbv zeta. rewrite H. split; [reflexivity|].
  intros fuel request w r rest Hnet Hok.
  apply DispatchProofs.executeAgent_degraded; [reflexivity|].
  rewrite Hnet. apply TaskSpec.http_error. exact Hok.
Qed.

Lemma determineCampaignAction_is_refused_witness :
  CampaignRoute.POST (CampaignSpec.calm CampaignSpec.scenario_customers CampaignSpec.accepted)
    [] (Some (a_campaign_request "create_campaign"))
  = {| CampaignRoute.status := 400;
       CampaignRoute.body := CampaignRoute.ErrorBody "Invalid action" |}.
Proof.
  apply (determineCampaignAction_is_refused "Create a new campaign for our regulars"
           (CampaignSpec.calm CampaignSpec.scenario_customers CampaignSpec.accepted) []
           (a_campaign_request "create_campaign")).
  reflexivity.
Defined.

(** X21. [sendEmail] never rejects, and it reports failure only when the
    client throws: an answer of the client that itself carries an error is
    returned with [success: true] and that error.  The client is called with
    the message's subject, its recipients (a single one wrapped in a list)
    and its sender, or the configured address when the message names none;
    and with exactly one of [html] and [text]: the message's HTML body when
    it has one, else its text, else its subject as text. *)
Theorem sendEmail_reports :
  forall (fromEmail : string) (send : Email.EmailData -> Email.SendReply)
         (m : Email.EmailMessage),
    let d := Email.emailData_of fromEmail m in
      (* what the client is called with *)
      Email.data_subject d = Email.subject m /\
      Email.data_to d = match Email.to m with
                        | Email.One address => [address]
                        | Email.Many addresses => addresses
                        end /\
      ((Email.from m = None \/ Email.from m = Some EmptyString) ->
       Email.data_from d = fromEmail) /\
      (forall f, Email.from m = Some f -> f <> EmptyString -> Email.data_from d = f) /\
      (forall h, Email.html m = Some h -> h <> EmptyString ->
         Email.data_html d = Some h /\ Email.data_text d = None) /\
      ((Email.html m = None \/ Email.html m = Some EmptyString) ->
       Email.data_html d = None /\
       (forall t, Email.text m = Some t -> t <> EmptyString -> Email.data_text d = Some t) /\
       ((Email.text m = None \/ Email.text m = Some EmptyString) ->
        Email.data_text d = Some (Email.subject m))) /\
      (* what comes back *)
      match send d with
      | Email.Responds id err =>
          Email.sendEmail fromEmail send m =
          inr {| Email.success := true; Email.messageId := id; Email.error := err |}
      | Email.SendThrows msg =>
          Email.sendEmail fromEmail send m =
          inr {| Email.success := false; Email.messageId := None; Email.error := Some msg |}
      end.
Proof.
  intros fromEmail send m d. subst d.
  assert (Hnonempty : forall x : string, x <> EmptyString -> (x =? EmptyString) = false)
    by (intros x Hx; apply String.eqb_neq; exact Hx).
  unfold Email.emailData_of. cbn [Email.data_subject Email.data_to Email.data_from
                                   Email.data_html Email.data_text].
  split; [reflexivity|]. split; [reflexivity|]. split; [|split; [|split; [|split]]].
  - intros [H|H]; rewrite H; reflexivity.
  - intros f H Hf. rewrite H. simpl. rewrite (Hnonempty f Hf). reflexivity.
  - intros h H Hh. rewrite H. simpl. rewrite (Hnonempty h Hh). split; reflexivity.
  - intro Hhtml.
    assert (Hfalse : str_truthy (Email.html m) = false)
      by (destruct Hhtml as [H|H]; rewrite H; reflexivity).
    rewrite Hfalse. split; [reflexivity|]. split.
    + intros t H Ht. rewrite H. simpl. rewrite (Hnonempty t Ht). reflexivity.
    + intros [H|H]; rewrite H; reflexivity.
  - unfold Email.sendEmail, Email.sendEmail_try, Email.emailData_of.
    match goal with
    | |- match send ?d with _ => _ end => destruct (send d)
    end; reflexivity.
Qed.

(** X22. [sendBulkEmail] cannot count a failure: because [sendEmail]
    settles every promise with a value, every result is 'fulfilled', so
    [failed] is 0 and [sent] is the number of messages, also when no message
    could be sent. *)
Theorem sendBulkEmail_never_counts_a_failure :
  forall (fromEmail : string) (send : Email.EmailData -> Email.SendReply)
         (messages : list Email.EmailMessage),
    let r := Email.sendBulkEmail fromEmail send messages in
    Email.bulk_success r = true /\
    Email.bulk_failed r = 0%nat /\
    Email.bulk_sent r = List.length messages /\
    List.length (Email.bulk_results r) = List.length messages.
Proof.
  intros fromEmail send messages. cbv zeta. unfold Email.sendBulkEmail. simpl.
  split; [reflexivity|].
  assert (H : forall l,
    filter Email.is_fulfilled
      (Email.allSettled (map (Email.sendEmail fromEmail send) l))
    = Email.allSettled (map (Email.sendEmail fromEmail send) l) /\
    filter (fun r => negb (Email.is_fulfilled r))
      (Email.allSettled (map (Email.sendEmail fromEmail send) l)) = [] /\
    List.length (Email.allSettled (map (Email.sendEmail fromEmail send) l))
    = List.length l).
  { unfold Email.allSettled.
    induction l as [|m rest [IH1 [IH2 IH3]]]; simpl; [auto|].
    assert (Hm : exists r, Email.sendEmail fromEmail send m = inr r).
    { unfold Email.sendEmail. destruct (Email.sendEmail_try fromEmail send m); eauto. }
    destruct Hm as [r ->]. simpl. rewrite IH1, IH2, IH3. auto. }
  destruct (H messages) as [H1 [H2 H3]].
  rewrite H1, H2, H3. auto.
Qed.

End RouteProofs.

(* ================================================================== *)
(** * Properties of a campaign run *)

Module CampaignRunProofs.
Import Js Campaigns CampaignSpec CampaignRunSpec.
Local Open Scope nat_scope.

Section Counters.
Variable env : Env.
Variable state : CampaignState.

Lemma process_customer_consistent (i j : nat) (variant : Variant) (c : Customer)
  (r : ExecutionResults) :
  consistent 0 r -> consistent 0 (process_customer env state i j variant c r).
Proof.
  unfold consistent, process_customer, try_send. intros [Hd [He [Ho Hc]]].
  destruct (email_branch state c); [destruct (sendEmail env i j _ _)|
    destruct (sms_branch state c)];
    try destruct (insert_interaction env i j); simpl;
    rewrite ?length_app; simpl; repeat split; auto; lia.
Qed.

Lemma customers_loop_consistent (i : nat) (variant : Variant) (customers : list Customer) :
  forall (j : nat) (r : ExecutionResults),
    consistent 0 r -> consistent 0 (customers_loop env state i j variant customers r).
Proof.
  induction customers as [|c rest IH]; intros j r H; simpl; [exact H|].
  apply IH. apply process_customer_consistent. exact H.
Qed.

Lemma variants_loop_consistent (variants : list Variant) :
  forall (i : nat) (r : ExecutionResults),
    consistent 0 r -> consistent 0 (fst (variants_loop env state i variants r)).
Proof.
  induction variants as [|v rest IH]; intros i r H; simpl; [exact H|].
  destruct (resolve_segment env state i v) as [e|customers]; simpl; [exact H|].
  apply IH. apply customers_loop_consistent. exact H.
Qed.

Lemma resolve_segment_throws (i : nat) (v : Variant) (e : Exn) :
  resolve_segment env state i v = inl e <->
  query_customers env i
    (fst (buildSegmentQuery (target_segment v) (restaurant_id state)))
    (snd (buildSegmentQuery (target_segment v) (restaurant_id state)))
  = DbThrows e.
Proof.
  unfold resolve_segment.
  destruct (buildSegmentQuery (target_segment v) (restaurant_id state)) as [query params].
  cbn [fst snd].
  destruct (query_customers env i query params) as [msg|[customers|]];
    split; intro H; inversion H; reflexivity.
Qed.

(** The loop over the variants that start at position [i] is left by the
    first segment query that throws, and by nothing else. *)
Lemma variants_loop_outcome (variants : list Variant) :
  forall (i : nat) (r : ExecutionResults),
    (forall k, nth_error variants k = nth_error (variants_of state) (i + k)) ->
    (forall k e', k < i -> ~ SegmentQueryThrows env state k e') ->
    match snd (variants_loop env state i variants r) with
    | Some e => exists p, QueryThrowsFirst env state p e
    | None => NoQueryThrows env state
    end.
Proof.
  induction variants as [|v rest IH]; intros i r Hsuffix Hbefore.
  - simpl. intros p e Hthrows.
    destruct (Nat.lt_ge_cases p i) as [Hlt|Hge].
    + exact (Hbefore p e Hlt Hthrows).
    + destruct Hthrows as [v [Hv _]].
      replace p with (i + (p - i)) in Hv by lia.
      rewrite <- Hsuffix in Hv. destruct (p - i); discriminate Hv.
  - simpl. destruct (resolve_segment env state i v) as [e|customers] eqn:Hq.
    + simpl. exists i. split; [|exact Hbefore].
      exists v. split.
      * rewrite <- (Nat.add_0_r i) at 1. rewrite <- Hsuffix. reflexivity.
      * apply resolve_segment_throws. exact Hq.
    + apply IH.
      * intro k. rewrite Nat.add_succ_comm. rewrite <- Hsuffix. reflexivity.
      * intros k e' Hk Hthrows.
        destruct (Nat.eq_dec k i) as [->|Hne].
        -- destruct Hthrows as [v' [Hv' Hthrown]].
           rewrite <- (Nat.add_0_r i) in Hv' at 1. rewrite <- Hsuffix in Hv'.
           simpl in Hv'. injection Hv' as <-.
           apply resolve_segment_throws in Hthrown. congruence.
        -- apply (Hbefore k e'); [lia|exact Hthrows].
Qed.

End Counters.



Local Close Scope nat_scope.

(** X24. A failed customer analysis ends the workflow at its first node and
    is reported as a success: [createAdvancedCampaign] returns the campaign
    in step 'analysis_failed', with no step completed, no content and
    nothing sent. *)
Theorem createAdvancedCampaign_analysis_failure :
  forall (env : Env) (campaignData : CampaignInput),
    insert_campaign env = None ->
    AnalysisFails env ->
    exists final,
      createAdvancedCampaign env campaignData = Created final /\
      final = with_step "analysis_failed" (initialState (new_campaign_id env) campaignData) /\
      steps_completed final = [] /\ content_variants final = None /\
      execution_results final = None /\
      List.length (fst (invoke env (initialState (new_campaign_id env) campaignData))) = 1%nat.
Proof.
  intros env input Hins Hfail.
  assert (Hnode : analyzeCustomerBase env (initialState (new_campaign_id env) input)
                  = with_step "analysis_failed" (initialState (new_campaign_id env) input)).
  { unfold analyzeCustomerBase.
    destruct Hfail as [[msg ->]|[[msg H]|H]]; [reflexivity| |];
      destruct (query_segment_counts env); try reflexivity; rewrite H; reflexivity. }
  assert (Hfold : apply_channels (initialState (new_campaign_id env) input)
                    (with_step "analysis_failed" (initialState (new_campaign_id env) input))
                  = with_step "analysis_failed" (initialState (new_campaign_id env) input)).
  { unfold apply_channels, with_step, initialState. simpl.
    destruct (input_memory_context input); reflexivity. }
  eexists. unfold createAdvancedCampaign, invoke. rewrite Hins.
  cbn [run run_node]. rewrite Hnode, Hfold.
  split; [reflexivity|]. repeat split.
Qed.

(** The workflow up to the content generation, when the analysis
    completes. *)
Lemma invoke_after_analysis (env : Env) (campaignData : CampaignInput) :
  AnalysisCompletes env ->
  exists analysed,
    invoke env (initialState (new_campaign_id env) campaignData) =
      (let (trace, outcome) := run env 3 generate_content analysed in
       ((analyze_customers, initialState (new_campaign_id env) campaignData) :: trace,
        outcome)) /\
    (exists a segments, customer_analysis analysed = Some a /\
                        preferences a = PreferencesObject segments) /\
    content_variants analysed = None /\
    requires_approval analysed = Some false /\
    campaign_data analysed =
      campaign_data (initialState (new_campaign_id env) campaignData).
Proof.
  intros [[rows Hq] [segments Hl]].
  eexists. unfold invoke. cbn [run run_node]. unfold analyzeCustomerBase.
  rewrite Hq, Hl.
  split; [reflexivity|]. split; [|repeat split].
  eexists. exists segments. split; reflexivity.
Qed.

Lemma createAdvancedCampaign_outcome (env : Env) (campaignData : CampaignInput) :
  insert_campaign env = None ->
  createAdvancedCampaign env campaignData =
  match snd (invoke env (initialState (new_campaign_id env) campaignData)) with
  | Finished final => Created final
  | Rejected e => CreateFailed e
  | OutOfFuel => CreateFailed "workflow did not finish"
  end.
Proof. intro H. unfold createAdvancedCampaign. rewrite H. reflexivity. Qed.

(** X25. When the content generation yields no variant, the workflow still
    moves on to the execution step, which throws: the caller of
    [createAdvancedCampaign] is told 'Content variants required for
    execution' and nothing about the content generation. *)
Theorem createAdvancedCampaign_content_failure :
  forall (env : Env) (campaignData : CampaignInput),
    insert_campaign env = None ->
    AnalysisCompletes env ->
    ContentFails env ->
    createAdvancedCampaign env campaignData
      = CreateFailed "Content variants required for execution" /\
    map fst (fst (invoke env (initialState (new_campaign_id env) campaignData)))
      = [analyze_customers; generate_content; execute_campaign].
Proof.
  intros env input Hins Han Hcontent.
  rewrite (createAdvancedCampaign_outcome env input Hins).
  destruct (invoke_after_analysis env input Han)
    as [analysed [-> [[a [segments [Ha Hp]]] [Hv [Happ _]]]]].
  assert (Hrun : exists trace,
    run env 3 generate_content analysed
      = (trace, Rejected "Content variants required for execution") /\
    map fst trace = [generate_content; execute_campaign]).
  { cbn [run run_node]. unfold generateCampaignContent. rewrite Ha, Hp.
    unfold ContentFails in Hcontent.
    assert (Hnext : forall update,
      requires_approval update = Some false ->
      next_node generate_content (apply_channels analysed update) = Goto execute_campaign).
    { intros update Hu. unfold next_node, approval_gate, apply_channels. simpl.
      rewrite Hu. reflexivity. }
    destruct (llm_content env) as [msg| |[|[|v vs]|]]; try contradiction;
      (rewrite Hnext by exact Happ);
      unfold executeCampaign, apply_channels; simpl; rewrite Hv;
      eexists; split; reflexivity. }
  destruct Hrun as [trace [-> Ht]]. simpl. rewrite Ht. split; reflexivity.
Qed.

Lemma createAdvancedCampaign_content_failure_witness :
  createAdvancedCampaign (calm scenario_customers accepted) an_input
    = CreateFailed "Content variants required for execution" /\
  map fst (fst (invoke (calm scenario_customers accepted)
                  (initialState (new_campaign_id (calm scenario_customers accepted))
                     an_input)))
    = [analyze_customers; generate_content; execute_campaign].
Proof.
  apply (createAdvancedCampaign_content_failure (calm scenario_customers accepted) an_input).
  - reflexivity.
  - split; eexists; reflexivity.
  - exact I.
Defined.

Lemma createAdvancedCampaign_analysis_failure_witness :
  exists final,
    createAdvancedCampaign (inference_down (calm scenario_customers accepted)) an_input
      = Created final /\
    current_step final = "analysis_failed".
Proof.
  destruct (createAdvancedCampaign_analysis_failure
              (inference_down (calm scenario_customers accepted)) an_input)
    as [final [Hrun [Hfinal _]]].
  - reflexivity.
  - right. left. eexists. reflexivity.
  - exists final. split; [exact Hrun|]. rewrite Hfinal. reflexivity.
Defined.

Lemma run_unfold (env : Env) (fuel : nat) (n : Node) (state : CampaignState) :
  run env (S fuel) n state =
  match run_node env n state with
  | inl e => ([(n, state)], Rejected e)
  | inr update =>
      let state' := apply_channels state update in
      match next_node n state' with
      | END => ([(n, state)], Finished state')
      | NoSuchEdge key => ([(n, state)], Rejected ("No edge for " ++ key))
      | Goto n' =>
          let (trace, outcome) := run env fuel n' state' in
          ((n, state) :: trace, outcome)
      end
  end.
Proof. reflexivity. Qed.

(** X26. The variants pile up in the workflow state.  The channel of
    [content_variants] appends what a node returns to what it holds, and
    every node returns the whole state it was given: when the content
    generation yields the variants [V], the execution step is entered with
    [V] (every variant is sent once), but the campaign returned by
    [createAdvancedCampaign] lists them four times over, whether execution
    and monitoring succeed or not. *)
Theorem createAdvancedCampaign_repeats_variants :
  forall (env : Env) (campaignData : CampaignInput) (v : VariantJson)
         (vs : list VariantJson),
    insert_campaign env = None ->
    AnalysisCompletes env ->
    ContentYields env (v :: vs) ->
    let V := number_variants 0 (v :: vs) in
    exists final executed,
      createAdvancedCampaign env campaignData = Created final /\
      content_variants final = Some ((V ++ V) ++ (V ++ V))%list /\
      In (execute_campaign, executed)
         (fst (invoke env (initialState (new_campaign_id env) campaignData))) /\
      content_variants executed = Some V.
Proof.
  intros env input v vs Hins Han Hcontent V.
  rewrite (createAdvancedCampaign_outcome env input Hins).
  destruct (invoke_after_analysis env input Han)
    as [analysed [-> [[a [segments [Ha Hp]]] [Hv [Happ _]]]]].
  set (written := apply_channels analysed
         (with_variants (Some V)
            (with_completed "generate_content" (with_step "content_generated" analysed)))).
  assert (Hgen : run_node env generate_content analysed
                 = inr (with_variants (Some V)
                          (with_completed "generate_content"
                             (with_step "content_generated" analysed)))).
  { cbn [run_node]. unfold generateCampaignContent. rewrite Ha, Hp.
    unfold ContentYields in Hcontent. rewrite Hcontent. reflexivity. }
  assert (Hw : content_variants written = Some V).
  { unfold written, apply_channels. simpl. rewrite Hv. reflexivity. }
  assert (Hnext : next_node generate_content written = Goto execute_campaign).
  { unfold next_node, approval_gate, written, apply_channels. simpl.
    rewrite Happ. reflexivity. }
  assert (Hgen' : run env 3 generate_content analysed =
                  let (trace, outcome) := run env 2 execute_campaign written in
                  ((generate_content, analysed) :: trace, outcome)).
  { rewrite (run_unfold env 2). rewrite Hgen. fold written. cbv zeta. rewrite Hnext.
    reflexivity. }
  clearbody written.
  assert (Hexec : exists update,
    run_node env execute_campaign written = inr update /\
    content_variants update = Some V).
  { cbn [run_node]. unfold executeCampaign. rewrite Hw.
    assert (Hcons : exists x xs, V = x :: xs) by (eexists; eexists; reflexivity).
    destruct Hcons as [x [xs ->]].
    destruct (campaign_results env written (x :: xs)) as [r [e|]];
      eexists; (split; [reflexivity|]); exact Hw. }
  destruct Hexec as [update [Hexec Hu]].
  set (executed := apply_channels written update).
  assert (He : content_variants executed = Some (V ++ V)%list).
  { unfold executed, apply_channels. simpl. rewrite Hu, Hw. reflexivity. }
  assert (Hexec' : run env 2 execute_campaign written =
                   let (trace, outcome) := run env 1 monitor_results executed in
                   ((execute_campaign, written) :: trace, outcome)).
  { rewrite (run_unfold env 1). rewrite Hexec. reflexivity. }
  clearbody executed.
  assert (Hfinal : content_variants
                     (apply_channels executed (monitorCampaignResults env executed))
                   = Some ((V ++ V) ++ (V ++ V))%list).
  { unfold monitorCampaignResults.
    destruct (llm_monitor env) as [msg| |[|recommendations]];
      unfold apply_channels at 1; simpl; rewrite He; reflexivity. }
  exists (apply_channels executed (monitorCampaignResults env executed)), written.
  assert (Hrun : run env 3 generate_content analysed =
    ([(generate_content, analysed); (execute_campaign, written);
      (monitor_results, executed)],
     Finished (apply_channels executed (monitorCampaignResults env executed)))).
  { rewrite Hgen', Hexec'. reflexivity. }
  rewrite Hrun. simpl.
  split; [reflexivity|]. split; [exact Hfinal|]. split; [auto | exact Hw].
Qed.

Lemma createAdvancedCampaign_repeats_variants_witness :
  exists final,
    createAdvancedCampaign
      (writing [a_variant_json "loyal_customers"] (calm scenario_customers accepted))
      an_input = Created final /\
    option_map (@List.length Variant) (content_variants final) = Some 4%nat.
Proof.
  destruct (createAdvancedCampaign_repeats_variants
              (writing [a_variant_json "loyal_customers"] (calm scenario_customers accepted))
              an_input (a_variant_json "loyal_customers") [])
    as [final [executed [Hrun [Hfinal _]]]].
  - reflexivity.
  - split; eexists; reflexivity.
  - reflexivity.
  - exists final. split; [exact Hrun|]. rewrite Hfinal. reflexivity.
Defined.

End CampaignRunProofs.

(* ================================================================== *)
(** * Properties of plans *)

Module PlanProofs.
Import Js Orchestrator RoutingSpec TaskSpec PipelineSpec PlanSpec.
Import ExchangeProofs.
Local Open Scope js_scope.

(** ** Computations that leave the tasks alone *)

Section Leaves.
Context {A B : Type}.

Lemma leaves_ret (a : A) : leaves_tasks (ret a).
Proof. intro w. split; reflexivity. Qed.

Lemma leaves_throw (e : Exn) : leaves_tasks (@throw A e).
Proof. intro w. split; reflexivity. Qed.

Lemma leaves_gets (f : World -> A) : leaves_tasks (gets f).
Proof. intro w. split; reflexivity. Qed.

Lemma leaves_lift (r : Exn + A) : leaves_tasks (lift r).
Proof. destruct r; [apply leaves_throw | apply leaves_ret]. Qed.

Lemma leaves_bind (m : M A) (k : A -> M B) :
  leaves_tasks m -> (forall a, leaves_tasks (k a)) -> leaves_tasks (bind m k).
Proof.
  intros Hm Hk w. unfold bind. destruct (Hm w) as [H1 H2].
  destruct (m w) as [w' [a|e|]]; simpl in *; [|auto|auto].
  destruct (Hk a w') as [H3 H4]. split; congruence.
Qed.

Lemma leaves_try_catch (m : M A) (h : Exn -> M A) :
  leaves_tasks m -> (forall e, leaves_tasks (h e)) -> leaves_tasks (try_catch m h).
Proof.
  intros Hm Hh w. unfold try_catch. destruct (Hm w) as [H1 H2].
  destruct (m w) as [w' [a|e|]]; simpl in *; [auto| |auto].
  destruct (Hh e w') as [H3 H4]. split; congruence.
Qed.

End Leaves.

Lemma leaves_map_M {A B : Type} (f : A -> M B) (l : list A) :
  (forall a, leaves_tasks (f a)) -> leaves_tasks (map_M f l).
Proof.
  intro Hf. induction l as [|x rest IH]; simpl; [apply leaves_ret|].
  apply leaves_bind; [apply Hf | intro y].
  apply leaves_bind; [exact IH | intro ys; apply leaves_ret].
Qed.

Lemma leaves_with_memory (f : Map AgentMemory -> Map AgentMemory) :
  leaves_tasks (modify (with_memory f)).
Proof. intro w. split; reflexivity. Qed.

Lemma leaves_mutate_memory (ref : string) (f : AgentMemory -> AgentMemory) :
  leaves_tasks (mutate_memory ref f).
Proof. apply leaves_with_memory. Qed.

Lemma leaves_getOrCreateMemory (sid : string) : leaves_tasks (getOrCreateMemory sid).
Proof.
  unfold getOrCreateMemory.
  apply leaves_bind; [apply leaves_gets | intro present].
  apply leaves_bind; [|intro; apply leaves_ret].
  destruct (negb present); [apply leaves_with_memory | apply leaves_ret].
Qed.

Lemma leaves_llm_invoke : leaves_tasks llm_invoke.
Proof. intro w. unfold llm_invoke. destruct (llm w) as [|[msg|c] rest]; split; reflexivity. Qed.

Lemma leaves_fetch (endpoint : string) : leaves_tasks (fetch endpoint).
Proof. intro w. unfold fetch. destruct (network w) as [|[msg|r] rest]; split; reflexivity. Qed.

Lemma leaves_updateMemory (sid : string) (updates : list MemoryUpdate) :
  leaves_tasks (updateMemory sid updates).
Proof.
  unfold updateMemory.
  apply leaves_bind; [apply leaves_getOrCreateMemory | intro ref].
  apply leaves_bind; [apply leaves_gets | intro m0].
  destruct (updateMemory_loop m0 updates) as [m1 thrown].
  apply leaves_bind; [apply leaves_mutate_memory | intro].
  destruct thrown; [apply leaves_throw | apply leaves_ret].
Qed.

Ltac leaving :=
  repeat match goal with
         | |- leaves_tasks (ret _) => apply leaves_ret
         | |- leaves_tasks (throw _) => apply leaves_throw
         | |- leaves_tasks (gets _) => apply leaves_gets
         | |- leaves_tasks new_Date => apply leaves_gets
         | |- leaves_tasks (lift _) => apply leaves_lift
         | |- leaves_tasks llm_invoke => apply leaves_llm_invoke
         | |- leaves_tasks (fetch _) => apply leaves_fetch
         | |- leaves_tasks (getOrCreateMemory _) => apply leaves_getOrCreateMemory
         | |- leaves_tasks (mutate_memory _ _) => apply leaves_mutate_memory
         | |- leaves_tasks (updateMemory _ _) => apply leaves_updateMemory
         | |- leaves_tasks (map_M _ _) => apply leaves_map_M; intro
         | |- leaves_tasks (try_catch _ _) => apply leaves_try_catch; [|intro]
         | |- leaves_tasks (bind _ _) => apply leaves_bind; [|intro]
         | |- leaves_tasks (match ?x with _ => _ end) => destruct x
         end.

Lemma leaves_dispatch (a : option string) (request : AgentRequest) (sid mem : string) :
  leaves_tasks (dispatch a request sid mem).
Proof.
  unfold dispatch, extractMemoryUpdates, JSON_parse, response_json. cbv zeta.
  apply leaves_bind; [|intro endpoint; leaving].
  unfold endpoint_of.
  repeat match goal with
         | |- leaves_tasks (match ?x with _ => _ end) => destruct x
         end; first [apply leaves_ret | apply leaves_throw].
Qed.

Lemma leaves_routeToAgent (request : AgentRequest) : leaves_tasks (routeToAgent request).
Proof. unfold routeToAgent, JSON_parse. cbv zeta. leaving. Qed.

(** ** Updating one task object *)

Lemma update_nth_app_l {A : Type} (f : A -> A) (l c : list A) :
  forall t, (t < List.length l)%nat ->
            update_nth t f (l ++ c) = (update_nth t f l ++ c)%list.
Proof.
  induction l as [|x rest IH]; intros [|t] H; simpl in *; try lia; [reflexivity|].
  rewrite IH by lia. reflexivity.
Qed.

Lemma update_nth_app_r {A : Type} (f : A -> A) (l c : list A) (k : nat) :
  update_nth (List.length l + k) f (l ++ c) = (l ++ update_nth k f c)%list.
Proof. induction l as [|x rest IH]; simpl; [reflexivity | rewrite IH; reflexivity]. Qed.

Lemma update_nth_twice {A : Type} (f g : A -> A) (l : list A) :
  forall t, update_nth t f (update_nth t g l) = update_nth t (fun x => f (g x)) l.
Proof.
  induction l as [|x rest IH]; intros [|t]; simpl; try reflexivity.
  rewrite IH. reflexivity.
Qed.

Lemma nth_error_update_nth_same {A : Type} (f : A -> A) (l : list A) :
  forall t, nth_error (update_nth t f l) t = option_map f (nth_error l t).
Proof.
  induction l as [|x rest IH]; intros [|t]; simpl; try reflexivity. apply IH.
Qed.

Lemma nth_error_update_nth_other {A : Type} (f : A -> A) (l : list A) :
  forall t t', t <> t' -> nth_error (update_nth t f l) t' = nth_error l t'.
Proof.
  induction l as [|x rest IH]; intros [|t] [|t'] H; simpl; try reflexivity.
  - contradiction H. reflexivity.
  - apply IH. intro E. apply H. rewrite E. reflexivity.
Qed.

Lemma filter_seq_none (p : nat -> bool) (n : nat) :
  forall L, (forall i, (i < n)%nat -> p (L + i)%nat = false) -> filter p (seq L n) = [].
Proof.
  induction n as [|n IH]; intros L H; simpl; [reflexivity|].
  pose proof (H 0%nat ltac:(lia)) as H0. rewrite Nat.add_0_r in H0. rewrite H0.
  apply IH. intros i Hi. replace (S L + i)%nat with (L + S i)%nat by lia.
  apply H. lia.
Qed.

Lemma filter_seq_single (p : nat -> bool) (n : nat) :
  forall L k, (k < n)%nat ->
    (forall i, (i < n)%nat -> p (L + i)%nat = (i =? k)%nat) ->
    filter p (seq L n) = [(L + k)%nat].
Proof.
  induction n as [|n IH]; intros L k Hk H; [lia|]. simpl.
  pose proof (H 0%nat ltac:(lia)) as H0. rewrite Nat.add_0_r in H0. rewrite H0.
  destruct k as [|k]; simpl.
  - rewrite Nat.add_0_r. f_equal. apply filter_seq_none.
    intros i Hi. replace (S L + i)%nat with (L + S i)%nat by lia.
    rewrite H by lia. reflexivity.
  - replace (L + S k)%nat with (S L + k)%nat by lia. apply IH; [lia|].
    intros i Hi. replace (S L + i)%nat with (L + S i)%nat by lia.
    rewrite H by lia. reflexivity.
Qed.

(** ** Worlds that only add tasks *)

Lemma only_adds_refl (w : World) : only_adds w w.
Proof. split; exists []; rewrite app_nil_r; reflexivity. Qed.

Lemma only_adds_trans (w1 w2 w3 : World) :
  only_adds w1 w2 -> only_adds w2 w3 -> only_adds w1 w3.
Proof.
  intros [[c1 H1] [q1 Q1]] [[c2 H2] [q2 Q2]]. split.
  - exists (c1 ++ c2)%list. rewrite H2, H1, app_assoc. reflexivity.
  - exists (q1 ++ q2)%list. rewrite Q2, Q1, app_assoc. reflexivity.
Qed.

Lemma only_adds_same (w w' : World) :
  heap w' = heap w -> taskQueue w' = taskQueue w -> only_adds w w'.
Proof. intros H Q. split; exists []; rewrite app_nil_r; assumption. Qed.

Lemma leaves_only_adds {A : Type} (m : M A) (w : World) :
  leaves_tasks m -> only_adds w (fst (m w)).
Proof. intro H. destruct (H w). apply only_adds_same; assumption. Qed.

(** The loop of [executeOrchestrator] that files the planned tasks. *)
Lemma queue_tasks (mem : string) (l : list TaskRef) :
  forall w, exists w',
    for_each (fun t =>
        key <- gets (fun w => task_field task_id "" w t) ;;
        mutate_memory mem (with_memory_tasks (fun ts => map_set ts key t)) ;;
        modify (with_taskQueue (fun q => (q ++ [t])%list))) l w = (w', Normal tt) /\
    heap w' = heap w /\ taskQueue w' = (taskQueue w ++ l)%list /\
    llm w' = llm w /\ network w' = network w.
Proof.
  induction l as [|t rest IH]; intro w.
  - exists w. simpl. rewrite app_nil_r. repeat split.
  - cbn [for_each].
    erewrite bind_normal by reflexivity.
    destruct (IH (with_taskQueue (fun q => (q ++ [t])%list)
                    (with_memory
                       (fun store =>
                          match map_get store mem with
                          | Some m =>
                              map_set store mem
                                (with_memory_tasks
                                   (fun ts => map_set ts (task_field task_id "" w t) t) m)
                          | None => store
                          end) w)))
      as [w' [Hrun [Hh [Hq [Hl Hn]]]]].
    exists w'. split; [exact Hrun|]. simpl in Hh, Hq, Hl, Hn.
    rewrite Hh, Hq, Hl, Hn, <- app_assoc. repeat split.
Qed.

(** ** One run of the orchestrator over a plan *)

Section Plan.
Variable exec : option string -> AgentRequest -> M AgentResponse.
Variable n : nat.

(** The dispatcher answers and only adds tasks, when started with at most
    [n] model answers left. *)
Hypothesis exec_answers :
  forall a request w, (List.length (llm w) <= n)%nat ->
    exists w' r, exec a request w = (w', Normal r) /\ only_adds w w' /\
                 (List.length (llm w') <= List.length (llm w))%nat.

Lemma executeTask_run (t : TaskRef) (request : AgentRequest) (w : World) (task : Task) :
  nth_error (heap w) t = Some task ->
  (List.length (llm w) <= n)%nat ->
  exists w' r created queued,
    executeTask exec t request w = (w', Normal (response r)) /\
    heap w' =
      (update_nth t (fun x => set_result r (set_status completed (set_status in_progress x)))
         (heap w) ++ created)%list /\
    taskQueue w' = (taskQueue w ++ queued)%list /\
    (List.length (llm w') <= List.length (llm w))%nat.
Proof.
  intros Ht Hn.
  assert (Hlt : (t < List.length (heap w))%nat) by (apply nth_error_Some; congruence).
  set (w1 := with_heap (update_nth t (set_status in_progress)) w).
  destruct (exec_answers (task_field agent None w1 t)
              {| message := task_field description "" w1 t;
                 request_context := request_context request |} w1 Hn)
    as [w2 [r [Hexec [[[created Hc] [queued Hq]] Hl]]]].
  exists (with_heap (update_nth t (set_result r))
            (with_heap (update_nth t (set_status completed)) w2)), r, created, queued.
  split.
  - unfold executeTask.
    erewrite bind_normal by reflexivity. fold w1.
    erewrite bind_normal by reflexivity.
    erewrite bind_normal by reflexivity.
    erewrite bind_normal by exact Hexec.
    reflexivity.
  - simpl. rewrite Hc, Hq. unfold w1. simpl.
    assert (Hlt' : (t < List.length (update_nth t (set_status in_progress) (heap w)))%nat)
      by (rewrite Halting.length_update_nth; exact Hlt).
    rewrite (update_nth_app_l (set_status completed)) by exact Hlt'.
    rewrite update_nth_twice.
    rewrite (update_nth_app_l (set_result r))
      by (rewrite Halting.length_update_nth; exact Hlt).
    rewrite update_nth_twice.
    split; [reflexivity|]. split; [reflexivity | exact Hl].
Qed.

(** How many of the planned tasks are completed, by the shape of the heap. *)
Lemma completed_count_none (old new_tasks created : list Task) (w : World) :
  heap w = ((old ++ new_tasks) ++ created)%list ->
  Forall fresh new_tasks ->
  filter (fun t => status_eqb (task_field status pending w t) completed)
    (seq (List.length old) (List.length new_tasks)) = [].
Proof.
  intros Hh Hf. apply filter_seq_none. intros i Hi.
  unfold task_field, get_task. rewrite Hh.
  rewrite nth_error_app1 by (rewrite length_app; lia).
  rewrite nth_error_app2 by lia.
  replace (List.length old + i - List.length old)%nat with i by lia.
  destruct (nth_error new_tasks i) as [task|] eqn:E; [|reflexivity].
  rewrite Forall_forall in Hf. destruct (Hf task (nth_error_In _ _ E)) as [-> _].
  reflexivity.
Qed.

Lemma completed_count_one (old new_tasks created : list Task) (w : World)
  (F : Task -> Task) (k : nat) :
  heap w = (update_nth (List.length old + k) F (old ++ new_tasks) ++ created)%list ->
  Forall fresh new_tasks ->
  (k < List.length new_tasks)%nat ->
  (forall x, status (F x) = completed) ->
  filter (fun t => status_eqb (task_field status pending w t) completed)
    (seq (List.length old) (List.length new_tasks)) = [(List.length old + k)%nat].
Proof.
  intros Hh Hf Hk HF. apply filter_seq_single; [exact Hk|]. intros i Hi.
  unfold task_field, get_task. rewrite Hh.
  rewrite nth_error_app1
    by (rewrite Halting.length_update_nth, length_app; lia).
  destruct (Nat.eqb_spec i k) as [->|Hne].
  - rewrite nth_error_update_nth_same.
    rewrite nth_error_app2 by lia.
    replace (List.length old + k - List.length old)%nat with k by lia.
    destruct (nth_error new_tasks k) as [task|] eqn:E.
    + simpl. rewrite HF. reflexivity.
    + apply nth_error_None in E. lia.
  - rewrite nth_error_update_nth_other by lia.
    rewrite nth_error_app2 by lia.
    replace (List.length old + i - List.length old)%nat with i by lia.
    destruct (nth_error new_tasks i) as [task|] eqn:E; [|reflexivity].
    rewrite Forall_forall in Hf. destruct (Hf task (nth_error_In _ _ E)) as [-> _].
    reflexivity.
Qed.

Lemma find_first_task_planned (h : list Task) (tasks : list TaskRef) (t : TaskRef) :
  find_first_task h tasks = Some t ->
  In t tasks /\ exists task, nth_error h t = Some task.
Proof.
  unfold find_first_task, find. intro H. apply find_some in H. destruct H as [Hin Hp].
  split; [exact Hin|]. destruct (nth_error h t) as [task|]; [eauto | discriminate].
Qed.

Lemma plan_run (request : AgentRequest) (w : World) (g reasoning : string)
  (rest : list LlmReply) :
  llm w = LlmContent (Some (JsonGoalAnalysis true g reasoning)) :: rest ->
  (List.length rest <= n)%nat ->
  exists w' r new_tasks created queued F,
    executeOrchestrator exec request w = (w', Normal r) /\
    Forall fresh new_tasks /\
    (forall x, status (F x) = completed /\ result (F x) <> None) /\
    let L := List.length (heap w) in
    let task_list := seq L (List.length new_tasks) in
    let selected := find_first_task (heap w ++ new_tasks) task_list in
    tasks r = Some task_list /\
    agent_used r = Some "orchestrator" /\
    data r = DataPlan g (List.length new_tasks)
               match selected with
               | Some _ => 1%nat
               | None => 0%nat
               end /\
    heap w' = ((heap w ++ match selected with
                          | Some t => update_nth (t - L) F new_tasks
                          | None => new_tasks
                          end) ++ created)%list /\
    taskQueue w' = ((taskQueue w ++ task_list) ++ queued)%list /\
    (List.length (llm w') <= List.length rest)%nat.
Proof.
  intros Hllm Hrest.
  unfold executeOrchestrator. cbv zeta.
  destruct (StoreProofs.StoreProofs_getOrCreate (session_of request) w)
    as [w1 [Hrun1 [_ [_ [Hq1 [Hh1 [Hl1 _]]]]]]].
  erewrite bind_normal by exact Hrun1.
  set (w2 := with_llm (@tl _) w1).
  assert (Hinv : llm_invoke w1 = (w2, Normal (Some (JsonGoalAnalysis true g reasoning)))).
  { unfold llm_invoke. rewrite Hl1, Hllm. reflexivity. }
  assert (Hl2 : llm w2 = rest) by (unfold w2; simpl; rewrite Hl1, Hllm; reflexivity).
  assert (Hh2 : heap w2 = heap w) by exact Hh1.
  assert (Hq2 : taskQueue w2 = taskQueue w) by exact Hq1.
  clearbody w2.
  destruct (StoreProofs.decomposeGoalIntoTasks_run g (request_context request) w2)
    as [new_tasks [w3 [Hrun3 [Hh3 [Hfresh [_ [Hq3 _]]]]]]].
  assert (Hl3 : (List.length (llm w3) <= List.length rest)%nat).
  { destruct (Halting.returns_decomposeGoalIntoTasks (List.length rest) g
                (request_context request) w2) as [_ [H _]].
    - rewrite Hl2. apply Nat.le_refl.
    - rewrite Hrun3 in H. simpl in H. rewrite Hl2 in H. exact H. }
  rewrite Hh2 in Hrun3, Hh3.
  set (L := List.length (heap w)) in *.
  set (task_list := seq L (List.length new_tasks)) in *.
  destruct (queue_tasks (session_of request) task_list w3)
    as [w4 [Hrun4 [Hh4 [Hq4 [Hl4 _]]]]].
  set (w5 := with_memory
               (fun store =>
                  match map_get store (session_of request) with
                  | Some m =>
                      map_set store (session_of request)
                        (with_goals (fun gs => (gs ++
                           [{| goal_description := Str g; goal_status := Str "active";
                               goal_priority := Number 1 |}])%list) m)
                  | None => store
                  end) w4).
  assert (Hh5 : heap w5 = (heap w ++ new_tasks)%list) by (unfold w5; simpl; congruence).
  assert (Hq5 : taskQueue w5 = (taskQueue w ++ task_list)%list)
    by (unfold w5; simpl; congruence).
  assert (Hl5 : (List.length (llm w5) <= List.length rest)%nat)
    by (unfold w5; simpl; rewrite Hl4; exact Hl3).
  (* the task executed, if any *)
  assert (Hexecuted : exists w6 text created queued F,
    match find_first_task (heap w5) task_list with
    | Some t => executeTask exec t request
    | None => ret ""
    end w5 = (w6, Normal text) /\
    (forall x, status (F x) = completed /\ result (F x) <> None) /\
    heap w6 = ((heap w ++ match find_first_task (heap w ++ new_tasks) task_list with
                          | Some t => update_nth (t - L) F new_tasks
                          | None => new_tasks
                          end) ++ created)%list /\
    taskQueue w6 = ((taskQueue w ++ task_list) ++ queued)%list /\
    (List.length (llm w6) <= List.length rest)%nat /\
    List.length (filter (fun t => status_eqb (task_field status pending w6 t) completed)
                   task_list)
    = match find_first_task (heap w ++ new_tasks) task_list with
      | Some _ => 1%nat
      | None => 0%nat
      end).
  { rewrite Hh5.
    destruct (find_first_task (heap w ++ new_tasks) task_list) as [t|] eqn:Efind.
    - destruct (find_first_task_planned _ _ _ Efind) as [Hin [task Htask]].
      apply in_seq in Hin. fold L in Hin.
      destruct (executeTask_run t request w5 task) as [w6 [r1 [created [queued [Hrun6 [Hh6 [Hq6 Hl6]]]]]]].
      + rewrite Hh5. exact Htask.
      + eapply Nat.le_trans; eassumption.
      + exists w6, (response r1), created, queued,
          (fun x => set_result r1 (set_status completed (set_status in_progress x))).
        split; [exact Hrun6|]. split; [intro x; split; [reflexivity | discriminate]|].
        assert (Ht : t = (L + (t - L))%nat) by lia.
        assert (Hshape : heap w6 =
          ((heap w ++ update_nth (t - L)
                        (fun x => set_result r1 (set_status completed (set_status in_progress x)))
                        new_tasks) ++ created)%list).
        { rewrite Hh6, Hh5. rewrite Ht at 1. unfold L. rewrite update_nth_app_r.
          reflexivity. }
        split; [exact Hshape|]. split; [rewrite Hq6, Hq5; reflexivity|].
        split; [eapply Nat.le_trans; eassumption|].
        unfold task_list, L.
        rewrite (completed_count_one (heap w) new_tasks created w6
                   (fun x => set_result r1 (set_status completed (set_status in_progress x)))
                   (t - L)); [reflexivity| | exact Hfresh | lia | reflexivity].
        rewrite Hh6, Hh5. fold L. rewrite <- Ht. reflexivity.
    - exists w5, "", [], [], (fun x => set_result (degraded_response None "") (set_status completed x)).
      split; [reflexivity|]. split; [intro x; split; [reflexivity | discriminate]|].
      rewrite !app_nil_r. split; [exact Hh5|]. split; [exact Hq5|]. split; [exact Hl5|].
      unfold task_list, L.
      rewrite (completed_count_none (heap w) new_tasks [] w5);
        [reflexivity | rewrite app_nil_r; exact Hh5 | exact Hfresh]. }
  destruct Hexecuted as [w6 [text [created [queued [F [Hrun6 [HF [Hh6 [Hq6 [Hl6 Hdone]]]]]]]]]].
  exists w6. eexists. exists new_tasks, created, queued, F.
  split.
  - erewrite try_normal; [reflexivity|].
    erewrite bind_normal by exact Hinv.
    erewrite bind_normal by reflexivity.
    erewrite bind_normal by reflexivity.
    cbv iota.
    erewrite bind_normal by exact Hrun3.
    erewrite bind_normal by exact Hrun4.
    erewrite bind_normal by reflexivity. fold w5.
    erewrite bind_normal by reflexivity.
    erewrite bind_normal by exact Hrun6.
    erewrite bind_normal by reflexivity.
    erewrite bind_normal by reflexivity.
    reflexivity.
  - split; [exact Hfresh|]. split; [exact HF|]. cbv zeta. fold L. fold task_list.
    split; [reflexivity|]. split; [reflexivity|].
    split; [|split; [exact Hh6 | split; [exact Hq6 | exact Hl6]]].
    cbn [data]. rewrite Hdone. unfold task_list. rewrite length_seq. reflexivity.
Qed.

(** [executeOrchestrator] answers and only adds tasks, whatever the goal
    analysis says. *)
Lemma orchestrator_run (request : AgentRequest) (w : World) :
  (List.length (llm w) <= S n)%nat ->
  exists w' r, executeOrchestrator exec request w = (w', Normal r) /\ only_adds w w' /\
               (List.length (llm w') <= List.length (llm w))%nat.
Proof.
  intro Hlen.
  destruct (llm w) as [|[msg|[j|]] rest] eqn:Hllm.
  1, 2, 4: (
    unfold executeOrchestrator; cbv zeta;
    destruct (StoreProofs.StoreProofs_getOrCreate (session_of request) w)
      as [w1 [Hrun1 [_ [_ [Hq1 [Hh1 [Hl1 _]]]]]]];
    erewrite bind_normal by exact Hrun1;
    eexists; eexists; split;
    [ erewrite try_throw;
      [ reflexivity
      | first [ erewrite bind_throw;
                [reflexivity | unfold llm_invoke; rewrite Hl1, Hllm; reflexivity]
              | erewrite bind_normal;
                [|unfold llm_invoke; rewrite Hl1, Hllm; reflexivity];
                erewrite bind_throw; reflexivity ] ]
    | split; [apply only_adds_same; assumption | simpl; rewrite ?Hl1, ?Hllm; simpl; lia] ]).
  destruct j as [|a c r|complex g reasoning|ds|ups|].
  3: destruct complex.
  3: {
    destruct (plan_run request w g reasoning rest Hllm)
      as [w' [r [new_tasks [created [queued [F [Hrun [_ [_ H]]]]]]]]];
      [simpl in Hlen; lia|].
    cbv zeta in H. destruct H as [_ [_ [_ [Hh [Hq Hl]]]]].
    exists w', r. split; [exact Hrun|]. split; [|simpl; lia].
    split; eexists; [rewrite Hh | rewrite Hq]; rewrite <- app_assoc; reflexivity. }
  1: {
    unfold executeOrchestrator; cbv zeta.
    destruct (StoreProofs.StoreProofs_getOrCreate (session_of request) w)
      as [w1 [Hrun1 [_ [_ [Hq1 [Hh1 [Hl1 _]]]]]]].
    erewrite bind_normal by exact Hrun1.
    eexists; eexists. split.
    - erewrite try_throw; [reflexivity|].
      erewrite bind_normal; [|unfold llm_invoke; rewrite Hl1, Hllm; reflexivity].
      erewrite bind_normal by reflexivity.
      erewrite bind_throw; reflexivity.
    - split; [apply only_adds_same; assumption | simpl; rewrite Hl1, Hllm; simpl; lia]. }
  all: (
    destruct (StoreProofs.StoreProofs_getOrCreate (session_of request) w)
      as [w1 [Hrun1 [_ [_ [Hq1 [Hh1 [Hl1 _]]]]]]];
    destruct (StoreProofs.routeToAgent_run request (with_llm (@tl _) w1))
      as [w3 [routed [Hroute [_ [Hl3 [Hq3 [Hh3 _]]]]]]];
    assert (Hlen3 : (List.length (llm w3) <= List.length rest)%nat)
      by (destruct Hl3 as [-> | ->]; simpl; rewrite Hl1, Hllm; simpl;
          [apply Nat.le_refl | destruct rest; simpl; lia]);
    destruct (exec_answers (Some (routed_agent routed)) request w3)
      as [w4 [r4 [Hexec [Hadds Hl4]]]]; [simpl in Hlen; lia|];
    exists w4, r4; split;
    [ unfold executeOrchestrator; cbv zeta;
      erewrite bind_normal by exact Hrun1;
      erewrite try_normal; [reflexivity|];
      erewrite bind_normal; [|unfold llm_invoke; rewrite Hl1, Hllm; reflexivity];
      erewrite bind_normal by reflexivity;
      erewrite bind_normal by reflexivity;
      cbv iota;
      erewrite bind_normal by exact Hroute;
      exact Hexec
    | split; [|simpl; lia];
      eapply only_adds_trans; [|exact Hadds];
      apply only_adds_same; simpl in *; congruence ]).
Qed.

End Plan.

Lemma leaves_handler (fuel : nat) (a : option string) (request : AgentRequest) :
  is_orchestrator a = false -> leaves_tasks (executeAgent (S fuel) a request).
Proof.
  intro Ha. simpl. cbv zeta. rewrite Ha.
  apply leaves_bind; [apply leaves_getOrCreateMemory | intro mem].
  apply leaves_bind; [apply leaves_gets | intro now].
  apply leaves_bind; [apply leaves_mutate_memory | intros _].
  apply leaves_try_catch; [apply leaves_dispatch | intro; apply leaves_ret].
Qed.

Lemma handler_adds (fuel : nat) (a : option string) (request : AgentRequest) (w : World) :
  is_orchestrator a = false ->
  exists w' r, executeAgent (S fuel) a request w = (w', Normal r) /\ only_adds w w' /\
               (List.length (llm w') <= List.length (llm w))%nat.
Proof.
  intro Ha.
  destruct (Halting.returns_executeAgent_handler (List.length (llm w)) fuel a request Ha w
              (Nat.le_refl _)) as [[r Hr] [Hl _]].
  pose proof (leaves_only_adds _ w (leaves_handler fuel a request Ha)) as Hadds.
  destruct (executeAgent (S fuel) a request w) as [w' c]. simpl in *. subst c.
  exists w', r. auto.
Qed.

(** With enough fuel, [executeAgent] answers and only adds tasks. *)
Lemma executeAgent_adds (n : nat) :
  forall (a : option string) (request : AgentRequest) (w : World),
    (List.length (llm w) <= n)%nat ->
    exists w' r, executeAgent (S n) a request w = (w', Normal r) /\ only_adds w w' /\
                 (List.length (llm w') <= List.length (llm w))%nat.
Proof.
  induction n as [|n IH]; intros a request w Hlen;
    (destruct (is_orchestrator a) eqn:Ha; [|apply handler_adds; exact Ha]).
  - (* no model answer left: the goal analysis fails *)
    destruct (executeAgent_prelude_run 0 a request w)
      as [w2 [Hrun [_ [_ [Hq2 [Hh2 [Hl2 _]]]]]]].
    rewrite Ha in Hrun; rewrite Hrun.
    assert (Hnil : llm w2 = []).
    { rewrite Hl2. destruct (llm w); [reflexivity | simpl in Hlen; lia]. }
    unfold executeOrchestrator. cbv zeta.
    destruct (StoreProofs.StoreProofs_getOrCreate (session_of request) w2)
      as [w3 [Hrun3 [_ [_ [Hq3 [Hh3 [Hl3 _]]]]]]].
    erewrite bind_normal by exact Hrun3.
    eexists; eexists. split.
    + erewrite try_throw; [reflexivity|].
      erewrite bind_throw; [reflexivity|].
      unfold llm_invoke. rewrite Hl3, Hnil. reflexivity.
    + split; [apply only_adds_same; congruence | simpl; rewrite Hl3, Hl2; apply Nat.le_refl].
  - destruct (executeAgent_prelude_run (S n) a request w)
      as [w2 [Hrun [_ [_ [Hq2 [Hh2 [Hl2 _]]]]]]].
    rewrite Ha in Hrun; rewrite Hrun.
    destruct (orchestrator_run (executeAgent (S n)) n IH request w2)
      as [w' [r [Hrun' [Hadds Hl]]]]; [rewrite Hl2; exact Hlen|].
    exists w', r. split; [exact Hrun'|]. split; [|rewrite <- Hl2; exact Hl].
    eapply only_adds_trans; [|exact Hadds]. apply only_adds_same; assumption.
Qed.



(** X28. No request ever takes a task back up.  For every handler
    (the orchestrator included) and whatever the model and the transport
    answer, [executeAgent] returns a response; every task object that
    existed before the call is exactly as it was, and the task queue before
    the call is a prefix of the queue after it: tasks are only created and
    queued, never continued, retried or dequeued. *)
Theorem executeAgent_only_adds_tasks :
  forall (a : option string) (request : AgentRequest) (w : World),
    exists (w' : World) (r : AgentResponse),
      executeAgent (enough_fuel w) a request w = (w', Normal r) /\
      only_adds w w'.
Proof.
  intros a request w.
  destruct (executeAgent_adds (List.length (llm w)) a request w (Nat.le_refl _))
    as [w' [r [Hrun [Hadds _]]]].
  exists w', r. split; [exact Hrun | exact Hadds].
Qed.

End PlanProofs.

(* ================================================================== *)
(** * Properties of the health check and of the schema setup *)

Module MaintenanceProofs.
Import Js Postgres SqlSpec.

Lemma unreachable_result (db : Database) (statement : string * list SqlParam) :
  (forall q, exists msg, connect db q = ConnectFails msg) ->
  exists msg, run db statement = query_failure msg.
Proof.
  intro H. unfold run, executeQuery. destruct (H (fst statement)) as [msg ->].
  exists msg. reflexivity.
Qed.



(** X30. The schema setup always reports completion.  Whatever the
    database call does, the route answers 200 with [success: true] and one
    entry per statement, in order, followed by one for the sample data: every
    statement is attempted even when earlier ones threw, and an entry reports
    failure exactly when its call threw.  With the toolkit's [executeQuery],
    which never throws, every entry reports success, also when no statement
    ran.  The two sample statements bind their parameters exactly. *)
Theorem setup_always_reports_completion :
  forall executeQuery : Callee,
    let reply := Setup.POST executeQuery in
    Setup.status reply = 200%nat /\ Setup.success reply = true /\
    List.length (Setup.results reply) = S (List.length Setup.queries) /\
    (forall i query, nth_error Setup.queries i = Some query ->
       exists entry,
         nth_error (Setup.results reply) i = Some entry /\
         Setup.entry_query entry = Setup.shorten query /\
         (Setup.entry_success entry = false <->
          exists error, executeQuery (query, []) = inl error)) /\
    (forall db, Forall (fun entry => Setup.entry_success entry = true)
                  (Setup.results (Setup.POST (toolkit db)))) /\
    binds_exactly (Setup.sample_restaurant_sql, Setup.sample_restaurant_params) = true /\
    binds_exactly (Setup.sample_menu_sql, Setup.sample_menu_params) = true.
Proof.
  intro q. cbv zeta. unfold Setup.POST. cbn [Setup.status Setup.success Setup.results].
  split; [reflexivity|]. split; [reflexivity|]. split.
  { rewrite length_app, length_map. simpl. lia. }
  split.
  { intros i query Hi. exists (Setup.run_statement q query). split.
    - rewrite nth_error_app1
        by (rewrite length_map; apply nth_error_Some; congruence).
      rewrite nth_error_map, Hi. reflexivity.
    - unfold Setup.run_statement. destruct (q (query, [])) as [e|r]; simpl.
      + split; [reflexivity|]. split; eauto.
      + split; [reflexivity|]. split; [discriminate | intros [e H]; discriminate]. }
  split.
  { intro db. apply Forall_app. split.
    - apply Forall_forall. intros entry Hin. apply in_map_iff in Hin.
      destruct Hin as [query [<- _]]. reflexivity.
    - constructor; [reflexivity | constructor]. }
  split; reflexivity.
Qed.

End MaintenanceProofs.
